(** * M-Translate: the audio -> transcript -> translation pipeline

    A shallow embedding of the pipeline modules of the repository

      - [translation.js]      (translation cache and DeepL adapter),
      - [stt-providers.js]    (speech-to-text provider registry),
      - [google-speech.js], [whisper.js], [deepgram.js] (provider adapters),
      - [websocket.js]        (per-connection session handlers),

    together with the properties of the specification that concern them.

    Conventions.
      - A JavaScript string is a Rocq [string], one character per UTF-16 code
        unit; the model covers code units below 256.
      - [Buffer]s are lists of byte values ([Z] in [0, 255]).
      - An [async] function that can reject is a function into [outcome];
        [try]/[catch] is [try_catch].
      - Calls that leave the process (HTTP requests, SDK calls, the file
        system, the clock) are parameters of the model: the theorems hold for
        every behaviour of these collaborators. *)

From Stdlib Require Import List String Ascii Bool Arith ZArith QArith Lia DecimalString.
Import ListNotations.

Close Scope Q_scope.
Open Scope string_scope.
Open Scope nat_scope.

(** ** Exceptions *)

(** The result of evaluating a JavaScript expression that may throw: either the
    [message] of the thrown [Error], or the value. *)
Inductive outcome (A : Type) : Type :=
| Throws (message : string)
| Returns (value : A).

Arguments Throws {A} message.
Arguments Returns {A} value.

(** [try { body } catch (error) { handler(error.message) }]. *)
Definition try_catch {A} (body : outcome A) (handler : string -> outcome A) : outcome A :=
  match body with
  | Throws message => handler message
  | Returns value => Returns value
  end.

Definition bind {A B} (m : outcome A) (k : A -> outcome B) : outcome B :=
  match m with
  | Throws message => Throws message
  | Returns value => k value
  end.

Notation "x <- m ;; k" := (bind m (fun x => k))
  (at level 61, m at next level, right associativity).

(** ** JavaScript strings *)

Module JsString.

Definition code (c : ascii) : nat := nat_of_ascii c.

(** White space as [String.prototype.trim] sees it, below 256: TAB, LF, VT,
    FF, CR, SPACE and NO-BREAK SPACE. *)
Definition isWhiteSpace (c : ascii) : bool :=
  ((9 <=? code c) && (code c <=? 13)) || (code c =? 32) || (code c =? 160).

Fixpoint trimStart (s : string) : string :=
  match s with
  | EmptyString => EmptyString
  | String c rest => if isWhiteSpace c then trimStart rest else s
  end.

Fixpoint trimEnd (s : string) : string :=
  match s with
  | EmptyString => EmptyString
  | String c rest =>
      match trimEnd rest with
      | EmptyString => if isWhiteSpace c then EmptyString else String c EmptyString
      | kept => String c kept
      end
  end.

(** [s.trim()] *)
Definition trim (s : string) : string := trimEnd (trimStart s).

(** A string used as a condition: only the empty string is falsy. *)
Definition truthy (s : string) : bool := negb (s =? "")%string.

(** [a || b] on strings. *)
Definition orElse (a b : string) : string := if truthy a then a else b.

Definition mapChars (f : ascii -> ascii) : string -> string :=
  fix go (s : string) : string :=
    match s with
    | EmptyString => EmptyString
    | String c rest => String (f c) (go rest)
    end.

(** [toLowerCase] on one code unit: A-Z and the upper-case letters of the
    Latin-1 block (192-222 without the multiplication sign 215). *)
Definition lowerChar (c : ascii) : ascii :=
  let n := code c in
  if ((65 <=? n) && (n <=? 90)) || ((192 <=? n) && (n <=? 222) && negb (n =? 215))
  then ascii_of_nat (n + 32) else c.

Definition toLowerCase : string -> string := mapChars lowerChar.

(** [toUpperCase]: a-z and the lower-case letters of the Latin-1 block; the
    sharp s (223) becomes two letters. The micro sign (181) and y with
    diaeresis (255) have upper-case forms above 255 and are kept as they
    are: the model is exact on strings without these two code units. *)
Fixpoint toUpperCase (s : string) : string :=
  match s with
  | EmptyString => EmptyString
  | String c rest =>
      let n := code c in
      if n =? 223 then String "S" (String "S" (toUpperCase rest))
      else if ((97 <=? n) && (n <=? 122)) || ((224 <=? n) && (n <=? 254) && negb (n =? 247))
      then String (ascii_of_nat (n - 32)) (toUpperCase rest)
      else String c (toUpperCase rest)
  end.

(** [s.startsWith(sub)] *)
Fixpoint startsWith (s sub : string) {struct sub} : bool :=
  match sub, s with
  | EmptyString, _ => true
  | String _ _, EmptyString => false
  | String b sub', String a s' => Ascii.eqb a b && startsWith s' sub'
  end.

(** [s.includes(sub)]: [sub] occurs in [s] as a contiguous run. *)
Fixpoint includes (s sub : string) : bool :=
  startsWith s sub ||
  match s with
  | EmptyString => false
  | String _ rest => includes rest sub
  end.

(** [s.replace(pattern, by)] with a string pattern: the first occurrence
    only. *)
Fixpoint replace (s pattern by_ : string) : string :=
  if startsWith s pattern then by_ ++ substring (length pattern) (length s - length pattern) s
  else match s with
       | EmptyString => EmptyString
       | String c rest => String c (replace rest pattern by_)
       end.

(** [`${n}`] for a non-negative integer. *)
Definition ofNat (n : nat) : string :=
  DecimalString.NilEmpty.string_of_uint (Nat.to_uint n).

(** The UTF-8 bytes of a string of the Basic Latin range. *)
Definition bytes (s : string) : list Z :=
  List.map (fun c => Z.of_nat (code c)) (list_ascii_of_string s).

(** [sub] occurs in [s]. *)
Definition occursIn (sub s : string) : Prop :=
  exists before after, s = before ++ sub ++ after.

(** Every code unit of [s] is white space ([s] may be empty). *)
Definition blank (s : string) : Prop :=
  Forall (fun c => isWhiteSpace c = true) (list_ascii_of_string s).

End JsString.

(** ** JavaScript [Map]: keys in insertion order *)

Module JsMap.
Section Ops.
Variable V : Type.

Definition t := list (string * V).

Definition size (m : t) : nat := List.length m.

Definition keys (m : t) : list string := List.map fst m.

Fixpoint get (key : string) (m : t) : option V :=
    match m with
    | [] => None
    | (k, v) :: rest => if (k =? key)%string then Some v else get key rest
    end.

Definition has (key : string) (m : t) : bool :=
    match get key m with Some _ => true | None => false end.

(** [m.set(key, v)]: an existing key keeps its place, a new key goes
      last. *)
Fixpoint set (key : string) (v : V) (m : t) : t :=
    match m with
    | [] => [(key, v)]
    | (k, w) :: rest => if (k =? key)%string then (k, v) :: rest else (k, w) :: set key v rest
    end.

(** [m.delete(key)] *)
Fixpoint delete (key : string) (m : t) : t :=
    match m with
    | [] => []
    | (k, w) :: rest => if (k =? key)%string then rest else (k, w) :: delete key rest
    end.

(** [m.keys().next().value]: the oldest key, [undefined] on an empty map. *)
Definition firstKey (m : t) : option string :=
    match m with
    | [] => None
    | (k, _) :: _ => Some k
    end.

(** The representation invariant: no key twice. *)
Definition wf (m : t) : Prop := NoDup (keys m).
End Ops.

Arguments get {V} key m.
Arguments has {V} key m.
Arguments set {V} key v m.
Arguments delete {V} key m.
Arguments firstKey {V} m.
Arguments size {V} m.
Arguments keys {V} m.
Arguments wf {V} m.
End JsMap.


(** ** translation.js: the translation cache and the DeepL adapter *)

Module Translation.
Import JsString.

Definition CACHE_MAX_SIZE : nat := 1000.

(** 24 hours, in milliseconds. *)
Definition CACHE_TTL : Z := 24 * 60 * 60 * 1000.

(** The object [translateText] resolves to. [error] is present on the failure
    path only; [cachedAt] is present on objects that went through the cache. *)
Record TranslationResult : Type := mkResult {
  originalText : string;
  translatedText : string;
  sourceLanguage : string;
  targetLanguage : string;
  error : option string;
  timestamp : Z;
  fromCache : bool;
  cachedAt : option Z
}.

(** [translationCache]: a [Map] from cache key to [{...result, cachedAt}]. *)
Definition Cache : Type := JsMap.t TranslationResult.

(** [`${text.toLowerCase().trim()}|${targetLanguage}`] *)
Definition getCacheKey (text targetLanguage : string) : string :=
  trim (toLowerCase text) ++ "|" ++ targetLanguage.

Definition withCachedAt (now : Z) (r : TranslationResult) : TranslationResult :=
  mkResult (originalText r) (translatedText r) (sourceLanguage r) (targetLanguage r)
           (error r) (timestamp r) (fromCache r) (Some now).

(** [addToCache(key, result)]; [now] is what [Date.now()] reads. When the map
    is full the oldest key is deleted first. *)
Definition addToCache (now : Z) (key : string) (result : TranslationResult)
    (cache : Cache) : Cache :=
  let cache1 :=
    if CACHE_MAX_SIZE <=? JsMap.size cache then
      match JsMap.firstKey cache with
      | Some firstKey => JsMap.delete firstKey cache
      | None => cache
      end
    else cache in
  JsMap.set key (withCachedAt now result) cache1.

(** [Date.now() - cached.cachedAt > CACHE_TTL]; a comparison with a missing
    [cachedAt] is a comparison with [NaN], which is false. *)
Definition expired (now : Z) (cached : TranslationResult) : bool :=
  match cachedAt cached with
  | Some at_ => (CACHE_TTL <? now - at_)%Z
  | None => false
  end.

(** [getFromCache(key)]: the entry, or [null]; an expired entry is deleted. *)
Definition getFromCache (now : Z) (key : string) (cache : Cache)
    : option TranslationResult * Cache :=
  match JsMap.get key cache with
  | None => (None, cache)
  | Some cached =>
      if expired now cached then (None, JsMap.delete key cache)
      else (Some cached, cache)
  end.

(** The module's variables: [translator] ([true] once [initializeTranslator]
    has built the client), the cache, and the number of requests sent to the
    DeepL client so far. *)
Record State : Type := mkState {
  translator : bool;
  translationCache : Cache;
  backendCalls : nat
}.

(** [translateText] resolves to [null], to [''] or to a result object. *)
Inductive Resolved : Type :=
| ResolvedNull
| ResolvedEmptyString
| ResolvedObject (result : TranslationResult).

(** The clock readings of one [translateText] call, one per place that reads
    the clock: [Date.now()] in [getFromCache], [new Date()] for the result's
    [timestamp], [Date.now()] in [addToCache]. *)
Record Clock : Type := mkClock {
  atLookup : Z;
  atStamp : Z;
  atStore : Z
}.

Definition markHit (stamp : Z) (cached : TranslationResult) : TranslationResult :=
  mkResult (originalText cached) (translatedText cached) (sourceLanguage cached)
           (targetLanguage cached) (error cached) stamp true (cachedAt cached).

Section WithBackend.

(** [translator.translateText(text, 'cs', targetLanguage, options)], the
    DeepL request: the [n]-th request either throws or yields [result.text]. *)
Variable deepl : nat -> string -> string -> outcome string.

(** [translateText(text, targetLanguage = 'EN-US')] *)
Definition translateText (clock : Clock) (text targetLanguage : string) (st : State)
    : outcome Resolved * State :=
  if negb (translator st) then (Returns ResolvedNull, st)
  else if negb (truthy text) || (length (trim text) =? 0) then (Returns ResolvedEmptyString, st)
  else
    let cacheKey := getCacheKey text targetLanguage in
    let (cached, cache1) := getFromCache (atLookup clock) cacheKey (translationCache st) in
    match cached with
    | Some hit =>
        (Returns (ResolvedObject (markHit (atStamp clock) hit)),
         mkState (translator st) cache1 (backendCalls st))
    | None =>
        match deepl (backendCalls st) text targetLanguage with
        | Returns translated =>
            let translationResult :=
              mkResult text translated "cs" targetLanguage None (atStamp clock) false None in
            (Returns (ResolvedObject translationResult),
             mkState (translator st)
                     (addToCache (atStore clock) cacheKey translationResult cache1)
                     (S (backendCalls st)))
        | Throws message =>
            (Returns (ResolvedObject
               (mkResult text ("[Translation Error: " ++ message ++ "]") "cs" targetLanguage
                         (Some message) (atStamp clock) false None)),
             mkState (translator st) cache1 (S (backendCalls st)))
        end
    end.

End WithBackend.

(** A sequence of cache operations, as [translateText] and [translateBatch]
    issue them. *)
Inductive CacheOp : Type :=
| OpAdd (now : Z) (key : string) (result : TranslationResult)
| OpGet (now : Z) (key : string).

Definition runOp (cache : Cache) (op : CacheOp) : Cache :=
  match op with
  | OpAdd now key result => addToCache now key result cache
  | OpGet now key => snd (getFromCache now key cache)
  end.

Definition runOps (ops : list CacheOp) (cache : Cache) : Cache :=
  fold_left runOp ops cache.

(** An insertion: the clock reading, the key and the result. *)
Definition keyOf (x : Z * string * TranslationResult) : string := snd (fst x).

(** Inserting a list of results, one after the other. *)
Definition insertAll (results : list (Z * string * TranslationResult)) (cache : Cache) : Cache :=
  fold_left (fun c '(now, key, r) => addToCache now key r c) results cache.

End Translation.


(** ** Node.js [Buffer]s of 16-bit PCM *)

Module Buffer.
Local Open Scope list_scope.
Local Open Scope Z_scope.

(** [buffer.length] *)
Definition byteLength (buffer : list Z) : Z := Z.of_nat (List.length buffer).

(** The two bytes [writeInt16LE(value)] stores: two's complement, low byte
    first. *)
Definition int16LE (value : Z) : list Z :=
  [Z.land value 255; Z.land (Z.shiftr value 8) 255].

Definition isInt16 (value : Z) : bool := (-32768 <=? value) && (value <=? 32767).

(** The loop [audioChunk.writeInt16LE(audioData[i], i * 2)] over a frame of
    samples. [writeInt16LE] throws a [RangeError] on a value outside the
    16-bit range, and the loop ends there; [rangeError value] is the message
    of that error, which is the runtime's to word. *)
Fixpoint writeSamples (rangeError : Z -> string) (audioData : list Z) : outcome (list Z) :=
  match audioData with
  | [] => Returns []
  | sample :: rest =>
      if isInt16 sample then
        chunk <- writeSamples rangeError rest ;;
        Returns (int16LE sample ++ chunk)
      else Throws (rangeError sample)
  end.

(** The first sample of a frame that is outside the 16-bit range. *)
Fixpoint firstOutOfRange (audioData : list Z) : option Z :=
  match audioData with
  | [] => None
  | sample :: rest => if isInt16 sample then firstOutOfRange rest else Some sample
  end.

(** The signed 16-bit value of two bytes, low byte first. *)
Definition readInt16LE (low high : Z) : Z :=
  let unsigned := low + 256 * high in
  if 32768 <=? unsigned then unsigned - 65536 else unsigned.

(** [new Int16Array(buffer.buffer)]: the bytes seen as 16-bit samples, low
    byte first. The constructor throws when the byte length is odd. (The view
    is taken on the [ArrayBuffer] behind a buffer that [Buffer.concat] built;
    at the sizes that reach the silence check, 32000 bytes and more, that
    [ArrayBuffer] holds exactly the bytes of the buffer.) *)
Fixpoint int16Array (buffer : list Z) : outcome (list Z) :=
  match buffer with
  | [] => Returns []
  | [_] => Throws "byte length of Int16Array should be a multiple of 2"
  | low :: high :: rest =>
      samples <- int16Array rest ;;
      Returns (readInt16LE low high :: samples)
  end.

(** [buffer.slice(-size)]: the last [size] bytes. *)
Definition sliceLast (size : Z) (buffer : list Z) : list Z :=
  skipn (Z.to_nat (byteLength buffer - size)) buffer.

End Buffer.


(** ** Recognition results and the provider adapters *)

Module Recognition.
Import JsString.
Local Open Scope list_scope.

(** The object every adapter resolves to. [error] is set on the failure paths,
    [provider] by the Deepgram adapter and by the registry. The word timings
    and the [metadata] some adapters add are not read by the pipeline and are
    left out. *)
Record Result : Type := mkResult {
  transcript : string;
  confidence : Q;
  language : string;
  error : option string;
  provider : option string
}.

(** [{ transcript: '', confidence: 0, language, error: error.message }] *)
Definition failed (language message : string) (provider : option string) : Result :=
  mkResult "" 0%Q language (Some message) provider.

(** One recognition alternative of a backend reply. A missing [transcript] is
    the empty string, a missing [confidence] is [None]. *)
Record Alternative : Type := mkAlternative {
  altTranscript : string;
  altConfidence : option Q
}.

(** [x || fallback] on an optional number: [undefined] and [0] are falsy. *)
Definition numberOr (x : option Q) (fallback : Q) : Q :=
  match x with
  | Some q => if Qeq_bool q 0 then fallback else q
  | None => fallback
  end.

Definition tooSmall (size : nat) : string :=
  "Audio buffer too small: " ++ ofNat size ++ " bytes (minimum: 16000 bytes)".

(** *** google-speech.js *)

(** [response.data] of the REST call: [None] when the reply has no [results]
    array (or no body); otherwise, per result, its [alternatives] array
    ([None] when the property is missing). *)
Definition GoogleData : Type := option (list (option (list Alternative))).

Definition googleTranscribeBuffer
    (axiosPost : list Z -> string -> outcome GoogleData)
    (audioBuffer : list Z) (language : string) : outcome Result :=
  try_catch
    (if (Buffer.byteLength audioBuffer <? 16000)%Z then Throws (tooSmall (List.length audioBuffer))
     else
       data <- axiosPost audioBuffer language ;;
       match data with
       | None | Some [] => Returns (mkResult "" 0%Q language None None)
       | Some (None :: _) =>
           Throws "Cannot read properties of undefined (reading '0')"
       | Some (Some [] :: _) => Returns (mkResult "" 0%Q language None None)
       | Some (Some (alternative :: _) :: _) =>
           Returns (mkResult (trim (altTranscript alternative))
                             (numberOr (altConfidence alternative) 0%Q)
                             language None None)
       end)
    (fun message => Returns (failed language message None)).

(** *** whisper.js *)

Definition le16 (n : Z) : list Z := [n mod 256; (n / 256) mod 256]%Z.

Definition le32 (n : Z) : list Z :=
  [n mod 256; (n / 256) mod 256; (n / 65536) mod 256; (n / 16777216) mod 256]%Z.

(** [writeUInt32LE] rejects a value that does not fit 32 bits. *)
Definition writeUInt32LE (n : Z) : outcome (list Z) :=
  if (n <=? 4294967295)%Z then Returns (le32 n) else Throws "ERR_OUT_OF_RANGE".

(** [createWavFile(pcmBuffer)]: a 44-byte RIFF header for 16 kHz, mono,
    16-bit PCM, then the samples. *)
Definition createWavFile (pcmBuffer : list Z) : outcome (list Z) :=
  let sampleRate := 16000%Z in
  let channels := 1%Z in
  let bitsPerSample := 16%Z in
  let byteRate := (sampleRate * channels * (bitsPerSample / 8))%Z in
  let blockAlign := (channels * (bitsPerSample / 8))%Z in
  let dataSize := Z.of_nat (List.length pcmBuffer) in
  let fileSize := (36 + dataSize)%Z in
  riffSize <- writeUInt32LE fileSize ;;
  dataChunkSize <- writeUInt32LE dataSize ;;
  Returns (bytes "RIFF" ++ riffSize ++ bytes "WAVE"
           ++ bytes "fmt " ++ le32 16 ++ le16 1 ++ le16 channels
           ++ le32 sampleRate ++ le32 byteRate ++ le16 blockAlign ++ le16 bitsPerSample
           ++ bytes "data" ++ dataChunkSize
           ++ pcmBuffer).

(** The verbose JSON reply of the transcription endpoint. *)
Record WhisperTranscription : Type := mkWhisperTranscription {
  whisperText : option string;
  whisperLanguage : option string
}.

(** What [whisper.js] does outside the process: write the temporary WAV file,
    send it to the API, and remove the file again. *)
Record WhisperIO : Type := mkWhisperIO {
  writeFileSync : list Z -> outcome unit;
  transcriptionsCreate : list Z -> string -> outcome WhisperTranscription;
  existsSync : bool;
  unlinkSync : outcome unit
}.

Definition optionOr (x : option string) (fallback : string) : string :=
  match x with
  | Some s => orElse s fallback
  | None => fallback
  end.

Definition whisperTranscribeBuffer (io : WhisperIO)
    (audioBuffer : list Z) (language : string) : outcome Result :=
  try_catch
    (if (Buffer.byteLength audioBuffer <? 16000)%Z then Throws (tooSmall (List.length audioBuffer))
     else
       wavBuffer <- createWavFile audioBuffer ;;
       _ <- writeFileSync io wavBuffer ;;
       transcription <- transcriptionsCreate io wavBuffer language ;;
       _ <- (if existsSync io then unlinkSync io else Returns tt) ;;
       Returns (mkResult (optionOr (option_map trim (whisperText transcription)) "")
                         0.9%Q
                         (optionOr (whisperLanguage transcription) language)
                         None None))
    (fun message => Returns (failed language message None)).

(** *** deepgram.js *)

(** What [deepgram.listen.prerecorded.transcribeFile] resolves to: the
    [error] it reports, if any, and the first alternative of the first channel,
    if there is one. *)
Record DeepgramReply : Type := mkDeepgramReply {
  replyError : option string;
  replyAlternative : option Alternative
}.

Definition deepgramTranscribeBuffer
    (transcribeFile : list Z -> string -> string -> outcome DeepgramReply)
    (audioBuffer : list Z) (language model : string) : outcome Result :=
  try_catch
    (reply <- transcribeFile audioBuffer language model ;;
     match replyError reply with
     | Some message => Throws message
     | None =>
         let transcript :=
           match replyAlternative reply with
           | Some alt => altTranscript alt
           | None => ""
           end in
         let confidence :=
           match replyAlternative reply with
           | Some (mkAlternative _ (Some c)) => c
           | _ => 0.9%Q
           end in
         Returns (mkResult transcript confidence language None (Some "deepgram-nova-3"))
     end)
    (fun message => Returns (failed language message (Some "deepgram-nova-3"))).

End Recognition.

(** ** stt-providers.js: the provider registry *)

Module SttProviders.
Import JsString Recognition.
Local Open Scope list_scope.

(** [STT_PROVIDERS]: property name and provider id, in declaration order. *)
Definition STT_PROVIDERS : JsMap.t string :=
  [ ("GOOGLE_SPEECH", "google-speech");
    ("OPENAI_WHISPER", "openai-whisper");
    ("DEEPGRAM_NOVA3", "deepgram-nova-3") ].

Definition GOOGLE_SPEECH : string := "google-speech".
Definition OPENAI_WHISPER : string := "openai-whisper".
Definition DEEPGRAM_NOVA3 : string := "deepgram-nova-3".

(** [Object.values(STT_PROVIDERS)] *)
Definition providerIds : list string := List.map snd STT_PROVIDERS.

(** An entry of [PROVIDER_CONFIG] (without its [icon]). *)
Record ProviderConfig : Type := mkConfig {
  name : string;
  description : string;
  realtime : bool;
  returnsConfidence : bool;
  wordTimestamps : bool;
  speakerDiarization : bool;
  maxLanguages : nat
}.

Definition PROVIDER_CONFIG : JsMap.t ProviderConfig :=
  [ (GOOGLE_SPEECH,
     mkConfig "Google Speech-to-Text"
              "Google Cloud Speech-to-Text API with real-time processing"
              true true true true 125);
    (OPENAI_WHISPER,
     mkConfig "OpenAI Whisper V3"
              "OpenAI Whisper with enhanced accuracy and multilingual support"
              false false true false 99);
    (DEEPGRAM_NOVA3,
     mkConfig "Deepgram Nova-3"
              "Deepgram Nova-3 real-time and batch transcription"
              true true true true 50) ].

(** [provider.toUpperCase().replace('-', '_')] *)
Definition propertyName (provider : string) : string :=
  replace (toUpperCase provider) "-" "_".

(** [setSTTProvider(provider)], on the module variable [currentProvider]:
    the outcome and the new value of the variable. *)
Definition setSTTProvider (provider : string) (currentProvider : string)
    : outcome unit * string :=
  match JsMap.get (propertyName provider) STT_PROVIDERS with
  | Some id =>
      if truthy id then (Returns tt, id)
      else (Throws ("Unknown STT provider: " ++ provider), currentProvider)
  | None => (Throws ("Unknown STT provider: " ++ provider), currentProvider)
  end.

(** [getProviderConfig()] *)
Definition getProviderConfig (currentProvider : string) : option ProviderConfig :=
  JsMap.get currentProvider PROVIDER_CONFIG.

(** [whisper.getSupportedLanguages()] *)
Definition whisperLanguages : list string :=
  [ "af"; "am"; "ar"; "as"; "az"; "ba"; "be"; "bg"; "bn"; "bo"; "br"; "bs"; "ca"; "cs"; "cy";
    "da"; "de"; "el"; "en"; "es"; "et"; "eu"; "fa"; "fi"; "fo"; "fr"; "gl"; "gu"; "ha"; "haw";
    "he"; "hi"; "hr"; "ht"; "hu"; "hy"; "id"; "is"; "it"; "ja"; "jw"; "ka"; "kk"; "km"; "kn";
    "ko"; "la"; "lb"; "ln"; "lo"; "lt"; "lv"; "mg"; "mi"; "mk"; "ml"; "mn"; "mr"; "ms"; "mt";
    "my"; "ne"; "nl"; "nn"; "no"; "oc"; "pa"; "pl"; "ps"; "pt"; "ro"; "ru"; "sa"; "sd"; "si";
    "sk"; "sl"; "sn"; "so"; "sq"; "sr"; "su"; "sv"; "sw"; "ta"; "te"; "tg"; "th"; "tk"; "tl";
    "tr"; "tt"; "uk"; "ur"; "uz"; "vi"; "yi"; "yo"; "zh" ].

(** The collaborators of the registry: the [languages] module (its table of
    speech languages and its mapping from a speech language to a translation
    language), and the three backends. *)
Record Backends : Type := mkBackends {
  speechLanguages : list string;
  speechToTranslationLang : string -> outcome string;
  axiosPost : list Z -> string -> outcome GoogleData;
  whisperIO : WhisperIO;
  deepgramTranscribeFile : list Z -> string -> string -> outcome DeepgramReply
}.

(** [getSupportedLanguages()] *)
Definition getSupportedLanguages (B : Backends) (currentProvider : string) : list string :=
  if (currentProvider =? GOOGLE_SPEECH)%string then speechLanguages B
  else if (currentProvider =? OPENAI_WHISPER)%string then whisperLanguages
  else if (currentProvider =? DEEPGRAM_NOVA3)%string then speechLanguages B
  else [].

(** [transcribeBuffer(audioBuffer, language)] under the provider in
    [currentProvider]. *)
Definition transcribeBuffer (B : Backends) (currentProvider : string)
    (audioBuffer : list Z) (language : string) : outcome Result :=
  try_catch
    (match getProviderConfig currentProvider with
     | None => Throws "Cannot read properties of undefined (reading 'name')"
     | Some _ =>
         if (currentProvider =? GOOGLE_SPEECH)%string then
           googleTranscribeBuffer (axiosPost B) audioBuffer language
         else if (currentProvider =? OPENAI_WHISPER)%string then
           whisperLang <- speechToTranslationLang B language ;;
           whisperTranscribeBuffer (whisperIO B) audioBuffer whisperLang
         else if (currentProvider =? DEEPGRAM_NOVA3)%string then
           dgLang <- speechToTranslationLang B language ;;
           deepgramTranscribeBuffer (deepgramTranscribeFile B) audioBuffer dgLang "nova-3"
         else Throws ("Provider " ++ currentProvider ++ " not implemented")
     end)
    (fun message =>
       Returns (failed language message (Some currentProvider))).

(** The ways a recognition call can fail, with the message of the error:
    the buffer is refused, the language cannot be mapped, the temporary file
    cannot be written or removed, the request throws, the reply is malformed,
    or the backend reports an error. *)
Inductive BackendFails (B : Backends) (audioBuffer : list Z) (language : string)
    : string -> string -> Prop :=
| google_too_small :
    (Buffer.byteLength audioBuffer < 16000)%Z ->
    BackendFails B audioBuffer language GOOGLE_SPEECH (tooSmall (List.length audioBuffer))
| google_request_fails message :
    (16000 <= Buffer.byteLength audioBuffer)%Z ->
    axiosPost B audioBuffer language = Throws message ->
    BackendFails B audioBuffer language GOOGLE_SPEECH message
| google_malformed_reply rest :
    (16000 <= Buffer.byteLength audioBuffer)%Z ->
    axiosPost B audioBuffer language = Returns (Some (None :: rest)) ->
    BackendFails B audioBuffer language GOOGLE_SPEECH
      "Cannot read properties of undefined (reading '0')"
| whisper_language_fails message :
    speechToTranslationLang B language = Throws message ->
    BackendFails B audioBuffer language OPENAI_WHISPER message
| whisper_too_small whisperLang :
    speechToTranslationLang B language = Returns whisperLang ->
    (Buffer.byteLength audioBuffer < 16000)%Z ->
    BackendFails B audioBuffer language OPENAI_WHISPER (tooSmall (List.length audioBuffer))
| whisper_write_fails whisperLang wav message :
    speechToTranslationLang B language = Returns whisperLang ->
    (16000 <= Buffer.byteLength audioBuffer)%Z ->
    createWavFile audioBuffer = Returns wav ->
    writeFileSync (whisperIO B) wav = Throws message ->
    BackendFails B audioBuffer language OPENAI_WHISPER message
| whisper_request_fails whisperLang wav message :
    speechToTranslationLang B language = Returns whisperLang ->
    (16000 <= Buffer.byteLength audioBuffer)%Z ->
    createWavFile audioBuffer = Returns wav ->
    writeFileSync (whisperIO B) wav = Returns tt ->
    transcriptionsCreate (whisperIO B) wav whisperLang = Throws message ->
    BackendFails B audioBuffer language OPENAI_WHISPER message
| whisper_cleanup_fails whisperLang wav transcription message :
    speechToTranslationLang B language = Returns whisperLang ->
    (16000 <= Buffer.byteLength audioBuffer)%Z ->
    createWavFile audioBuffer = Returns wav ->
    writeFileSync (whisperIO B) wav = Returns tt ->
    transcriptionsCreate (whisperIO B) wav whisperLang = Returns transcription ->
    existsSync (whisperIO B) = true ->
    unlinkSync (whisperIO B) = Throws message ->
    BackendFails B audioBuffer language OPENAI_WHISPER message
| deepgram_language_fails message :
    speechToTranslationLang B language = Throws message ->
    BackendFails B audioBuffer language DEEPGRAM_NOVA3 message
| deepgram_request_fails dgLang message :
    speechToTranslationLang B language = Returns dgLang ->
    deepgramTranscribeFile B audioBuffer dgLang "nova-3" = Throws message ->
    BackendFails B audioBuffer language DEEPGRAM_NOVA3 message
| deepgram_reports_error dgLang reply message :
    speechToTranslationLang B language = Returns dgLang ->
    deepgramTranscribeFile B audioBuffer dgLang "nova-3" = Returns reply ->
    replyError reply = Some message ->
    BackendFails B audioBuffer language DEEPGRAM_NOVA3 message
| provider_unknown currentProvider :
    getProviderConfig currentProvider = None ->
    BackendFails B audioBuffer language currentProvider
      "Cannot read properties of undefined (reading 'name')".

End SttProviders.


(** ** websocket.js: the per-connection handlers

    The definitions of this module follow one handler from its first
    statement to its last, on the entry as it is when the handler starts:
    nothing else of the same socket runs in between. The handlers of
    [audio-data] and [stop-transcription] are [async] and give way at every
    [await]; module [Interleaving] has them in the pieces between the awaits,
    each piece on the entry as it is when the piece starts. *)

Module Websocket.
Import JsString.
Local Open Scope list_scope.

(** The entry of [clientConnections] for one socket. *)
Record ClientConnection : Type := mkConnection {
  audioBuffer : list Z;
  isTranscribing : bool;
  lastTranscriptionTime : Z;
  lastTranscript : string;
  lastTranslation : string;
  speechLanguage : string;
  translationFrom : string;
  translationTo : string;
  aiPunctuationEnabled : bool;
  punctuationStyle : string
}.

(** The entry created on [connection]. *)
Definition newConnection : ClientConnection :=
  mkConnection [] false 0 "" "" "cs-CZ" "cs" "en" true "formal".

Definition setAudioBuffer (buffer : list Z) (c : ClientConnection) : ClientConnection :=
  mkConnection buffer (isTranscribing c) (lastTranscriptionTime c) (lastTranscript c)
    (lastTranslation c) (speechLanguage c) (translationFrom c) (translationTo c)
    (aiPunctuationEnabled c) (punctuationStyle c).

Definition setIsTranscribing (flag : bool) (c : ClientConnection) : ClientConnection :=
  mkConnection (audioBuffer c) flag (lastTranscriptionTime c) (lastTranscript c)
    (lastTranslation c) (speechLanguage c) (translationFrom c) (translationTo c)
    (aiPunctuationEnabled c) (punctuationStyle c).

Definition setLastTranscriptionTime (time : Z) (c : ClientConnection) : ClientConnection :=
  mkConnection (audioBuffer c) (isTranscribing c) time (lastTranscript c)
    (lastTranslation c) (speechLanguage c) (translationFrom c) (translationTo c)
    (aiPunctuationEnabled c) (punctuationStyle c).

Definition setLastTexts (transcript translation : string) (c : ClientConnection)
    : ClientConnection :=
  mkConnection (audioBuffer c) (isTranscribing c) (lastTranscriptionTime c) transcript
    translation (speechLanguage c) (translationFrom c) (translationTo c)
    (aiPunctuationEnabled c) (punctuationStyle c).

(** The payload of [transcription-result]. *)
Record TranscriptionResult : Type := mkTranscriptionResult {
  transcript : string;
  translation : string;
  confidence : Q;
  isFinal : bool;
  timestamp : Z;
  speaker : string;
  punctuated : bool
}.

(** The events of the connection contract that the server sends. *)
Inductive Event : Type :=
| transcription_started (speechLanguage translationFrom translationTo : string)
| transcription_result (result : TranscriptionResult)
| transcription_error (error : string)
| transcription_stopped
| stt_provider_updated (provider : string) (config : option SttProviders.ProviderConfig)
    (supportedLanguages : list string)
| stt_provider_error (error : string) (availableProviders : list string).

Definition eventName (e : Event) : string :=
  match e with
  | transcription_started _ _ _ => "transcription-started"
  | transcription_result _ => "transcription-result"
  | transcription_error _ => "transcription-error"
  | transcription_stopped => "transcription-stopped"
  | stt_provider_updated _ _ _ => "stt-provider-updated"
  | stt_provider_error _ _ => "stt-provider-error"
  end.

(** What a handler does that can be seen from outside, in order: the events it
    emits on the socket and the calls it awaits. *)
Inductive Effect : Type :=
| Emit (event : Event)
| Transcribe (audioBuffer : list Z) (language : string)
| Punctuate (text language style : string) (isTranslation : bool)
| Translate (text sourceLanguage targetLanguage : string).

(** [aiPunctuation.addPunctuation] resolves to [{ text, processed, method }]. *)
Record PunctuationResult : Type := mkPunctuation {
  punctuatedText : string;
  processed : bool
}.

(** [translation.translateText(text, from, to)] as the handlers read its
    reply: an object with [translatedText] and [translationFailed] (missing
    properties are [''] and [false]), or a string, or [null]. *)
Inductive TranslationReply : Type :=
| ReplyObject (translatedText : string) (translationFailed : bool)
| ReplyString (text : string)
| ReplyNull.

(** The modules the handlers call: the provider registry with its backends,
    [ai-punctuation] and [translation]; and, of the runtime,
    [rangeErrorMessage value]: the [message] of the [RangeError] that
    [writeInt16LE] throws for a [value] outside the 16-bit range. *)
Record Collaborators : Type := mkCollaborators {
  backends : SttProviders.Backends;
  addPunctuation : string -> string -> string -> bool -> outcome PunctuationResult;
  translateText : string -> string -> string -> outcome TranslationReply;
  rangeErrorMessage : Z -> string
}.

(** The clock readings of one pipeline run: [new Date()] for the event and
    [Date.now()] for [lastTranscriptionTime]. *)
Record RunClock : Type := mkRunClock {
  atEmit : Z;
  atMark : Z
}.

(** The state the handlers of one socket work on: its entry in
    [clientConnections], if it still has one, and [currentProvider] of the
    registry. *)
Record Server : Type := mkServer {
  clientConnection : option ClientConnection;
  currentProvider : string
}.

(** [a.length > b.length * ratio], the ratio given in tenths. The source
    multiplies in binary64; for the ratios 1.2, 0.8, 1.1 and 0.9 comparing an
    integer length with the rounded product gives the same answer as comparing
    it with the exact product, which is what the model does. *)
Definition longerThan (a b : string) (tenths : Z) : bool :=
  (tenths * Z.of_nat (length b) <? 10 * Z.of_nat (length a))%Z.

(** [a.length < b.length * ratio] *)
Definition shorterThan (a b : string) (tenths : Z) : bool :=
  (10 * Z.of_nat (length a) <? tenths * Z.of_nat (length b))%Z.

(** [isSignificantlyDifferent] in [processBatchTranscription]. *)
Definition isSignificantlyDifferent (rawTranscript lastTranscript : string) : bool :=
  negb (truthy lastTranscript)
  || longerThan rawTranscript lastTranscript 12
  || shorterThan rawTranscript lastTranscript 8
  || (negb (includes rawTranscript lastTranscript)
      && negb (includes lastTranscript rawTranscript)).

(** [isFinalDifferent] in the [stop-transcription] handler. *)
Definition isFinalDifferent (finalRawTranscript lastTranscript : string) : bool :=
  negb (truthy lastTranscript)
  || longerThan finalRawTranscript lastTranscript 11
  || shorterThan finalRawTranscript lastTranscript 9
  || (negb (includes finalRawTranscript lastTranscript)
      && negb (includes lastTranscript finalRawTranscript)).

(** [audioArray.some(sample => Math.abs(sample) > 100)] *)
Definition hasSound (audioArray : list Z) : bool :=
  existsb (fun sample => (100 <? Z.abs sample)%Z) audioArray.

(** [result.confidence || 0.9] *)
Definition confidenceOr (c : Q) : Q := if Qeq_bool c 0 then 0.9%Q else c.

Section Handlers.

Variable C : Collaborators.

(** The block "Apply AI punctuation to the transcript (if enabled)": the
    punctuated transcript and the call made. The call gets the untrimmed
    [result.transcript]. *)
Definition punctuateTranscript (conn : ClientConnection)
    (resultTranscript rawTranscript : string) : string * list Effect :=
  if aiPunctuationEnabled conn then
    let call := Punctuate resultTranscript (translationFrom conn) (punctuationStyle conn) false in
    match addPunctuation C resultTranscript (translationFrom conn) (punctuationStyle conn) false with
    | Returns punctuationResult =>
        if processed punctuationResult then (punctuatedText punctuationResult, [call])
        else (rawTranscript, [call])
    | Throws _ => (rawTranscript, [call])
    end
  else (rawTranscript, []).

(** The inner block "Apply punctuation to translation". *)
Definition punctuateTranslation (conn : ClientConnection) (translatedText : string)
    : string * list Effect :=
  let call := Punctuate translatedText (translationTo conn) (punctuationStyle conn) true in
  match addPunctuation C translatedText (translationTo conn) (punctuationStyle conn) true with
  | Returns translationPunctuationResult =>
      if processed translationPunctuationResult
      then (punctuatedText translationPunctuationResult, [call])
      else (translatedText, [call])
  | Throws _ => (translatedText, [call])
  end.

(** The block "Translate the punctuated text" of [processBatchTranscription]:
    the punctuated translation and the calls made. *)
Definition translateInterim (conn : ClientConnection) (punctuatedTranscript : string)
    : string * list Effect :=
  let call := Translate punctuatedTranscript (translationFrom conn) (translationTo conn) in
  match translateText C punctuatedTranscript (translationFrom conn) (translationTo conn) with
  | Throws _ => (punctuatedTranscript, [call])
  | Returns translationResult =>
      let '(translatedText, translationFailed) :=
        match translationResult with
        | ReplyObject text failed => (orElse text punctuatedTranscript, failed)
        | ReplyString text => (orElse text punctuatedTranscript, false)
        | ReplyNull => (punctuatedTranscript, false)
        end in
      if truthy translatedText
         && negb (translatedText =? punctuatedTranscript)%string
         && negb translationFailed
         && aiPunctuationEnabled conn
      then
        let (punctuatedTranslation, calls) := punctuateTranslation conn translatedText in
        (punctuatedTranslation, call :: calls)
      else (translatedText, [call])
  end.

(** The same block in the [stop-transcription] handler, which does not read
    [translationFailed]. *)
Definition translateFinal (conn : ClientConnection) (punctuatedTranscript : string)
    : string * list Effect :=
  let call := Translate punctuatedTranscript (translationFrom conn) (translationTo conn) in
  match translateText C punctuatedTranscript (translationFrom conn) (translationTo conn) with
  | Throws _ => (punctuatedTranscript, [call])
  | Returns translationResult =>
      let translatedText :=
        match translationResult with
        | ReplyObject text _ => orElse text punctuatedTranscript
        | ReplyString text => orElse text punctuatedTranscript
        | ReplyNull => punctuatedTranscript
        end in
      if truthy translatedText
         && negb (translatedText =? punctuatedTranscript)%string
         && aiPunctuationEnabled conn
      then
        let (punctuatedTranslation, calls) := punctuateTranslation conn translatedText in
        (punctuatedTranslation, call :: calls)
      else (translatedText, [call])
  end.

(** [isTranslationDifferent] *)
Definition isTranslationDifferent (punctuatedTranslation lastTranslation : string) : bool :=
  negb (truthy lastTranslation) || negb (punctuatedTranslation =? lastTranslation)%string.

(** "Clear processed audio (keep only recent audio)". *)
Definition keepRecent (buffer : list Z) : list Z :=
  if (16000 <? Buffer.byteLength buffer)%Z then Buffer.sliceLast 16000 buffer else buffer.

(** [processBatchTranscription(socket, clientConnection)]: the connection
    entry afterwards and the effects, in order. *)
Definition processBatchTranscription (clock : RunClock) (provider : string)
    (conn : ClientConnection) : ClientConnection * list Effect :=
  match Buffer.int16Array (audioBuffer conn) with
  | Throws message =>
      (conn, [Emit (transcription_error ("Transcription failed: " ++ message))])
  | Returns audioArray =>
      if negb (hasSound audioArray) then
        (setAudioBuffer [] (setLastTranscriptionTime (atMark clock) conn), [])
      else
        let call := Transcribe (audioBuffer conn) (speechLanguage conn) in
        match SttProviders.transcribeBuffer (backends C) provider
                (audioBuffer conn) (speechLanguage conn) with
        | Throws message =>
            (conn, [call; Emit (transcription_error ("Transcription failed: " ++ message))])
        | Returns result =>
            if truthy (Recognition.transcript result)
               && truthy (trim (Recognition.transcript result))
            then
              let rawTranscript := trim (Recognition.transcript result) in
              if negb (isSignificantlyDifferent rawTranscript (lastTranscript conn)) then
                (setLastTranscriptionTime (atMark clock) conn, [call])
              else
                let (punctuatedTranscript, calls1) :=
                  punctuateTranscript conn (Recognition.transcript result) rawTranscript in
                let (punctuatedTranslation, calls2) :=
                  translateInterim conn punctuatedTranscript in
                let emitted :=
                  if isTranslationDifferent punctuatedTranslation (lastTranslation conn) then
                    [Emit (transcription_result
                             (mkTranscriptionResult punctuatedTranscript punctuatedTranslation
                                (confidenceOr (Recognition.confidence result))
                                false (atEmit clock) "Speaker" true))]
                  else [] in
                (setAudioBuffer (keepRecent (audioBuffer conn))
                   (setLastTexts punctuatedTranscript punctuatedTranslation
                      (setLastTranscriptionTime (atMark clock) conn)),
                 call :: calls1 ++ calls2 ++ emitted)
            else (conn, [call])
        end
  end.

(** The condition under which [audio-data] hands the buffer over. *)
Definition shouldDispatch (now : Z) (conn : ClientConnection) : bool :=
  let timeSinceLastTranscription := (now - lastTranscriptionTime conn)%Z in
  let bufferSizeThreshold := (16000 * 2)%Z in
  let minAudioDuration := 1000%Z in
  (bufferSizeThreshold <=? Buffer.byteLength (audioBuffer conn))%Z
  && (minAudioDuration <=? timeSinceLastTranscription)%Z.

(** [socket.on('start-transcription')]; [now] is what [Date.now()] reads. *)
Definition onStartTranscription (now : Z) (s : Server) : Server * list Effect :=
  match clientConnection s with
  | None => (s, [])
  | Some conn =>
      let conn' :=
        setLastTexts "" ""
          (setLastTranscriptionTime now (setAudioBuffer [] (setIsTranscribing true conn))) in
      (mkServer (Some conn') (currentProvider s),
       [Emit (transcription_started (speechLanguage conn') (translationFrom conn')
                (translationTo conn'))])
  end.

(** [socket.on('audio-data')]; [now] is the handler's own [Date.now()]. *)
Definition onAudioData (now : Z) (clock : RunClock) (audioData : list Z) (s : Server)
    : Server * list Effect :=
  match clientConnection s with
  | None => (s, [])
  | Some conn =>
      if negb (isTranscribing conn) then (s, [])
      else
        match Buffer.writeSamples (rangeErrorMessage C) audioData with
        | Throws message =>
            (s, [Emit (transcription_error ("Audio processing failed: " ++ message))])
        | Returns audioChunk =>
            let conn1 := setAudioBuffer (audioBuffer conn ++ audioChunk) conn in
            if shouldDispatch now conn1 then
              let (conn2, effects) := processBatchTranscription clock (currentProvider s) conn1 in
              (mkServer (Some conn2) (currentProvider s), effects)
            else (mkServer (Some conn1) (currentProvider s), [])
        end
  end.

(** [socket.on('audio-data')] with a payload on which the conversion throws
    for another reason than an integer sample out of range: [null] or
    [undefined], where reading [audioData.length] throws; a value whose
    [length] is no size for [Buffer.allocUnsafe]; an element out of range
    that is no integer. What is thrown is thrown before the buffer of the
    entry is assigned, and after the check of [isTranscribing]; [message] is
    its message. A payload on which the conversion completes writes two
    bytes per element, those of the integer the element is truncated to:
    it is the frame of these integers. *)
Definition onUnusableAudioData (message : string) (s : Server) : Server * list Effect :=
  match clientConnection s with
  | None => (s, [])
  | Some conn =>
      if negb (isTranscribing conn) then (s, [])
      else (s, [Emit (transcription_error ("Audio processing failed: " ++ message))])
  end.

(** [socket.on('stop-transcription')] *)
Definition onStopTranscription (clock : RunClock) (s : Server) : Server * list Effect :=
  match clientConnection s with
  | None => (s, [])
  | Some conn0 =>
      let conn := setIsTranscribing false conn0 in
      let cleared := mkServer (Some (setAudioBuffer [] conn)) (currentProvider s) in
      if (0 <? Buffer.byteLength (audioBuffer conn))%Z then
        let call := Transcribe (audioBuffer conn) (speechLanguage conn) in
        match SttProviders.transcribeBuffer (backends C) (currentProvider s)
                (audioBuffer conn) (speechLanguage conn) with
        | Throws _ =>
            (cleared, [call; Emit (transcription_error "Final transcription failed")])
        | Returns result =>
            if truthy (Recognition.transcript result)
               && truthy (trim (Recognition.transcript result))
            then
              let finalRawTranscript := trim (Recognition.transcript result) in
              if negb (isFinalDifferent finalRawTranscript (lastTranscript conn)) then
                (mkServer (Some conn) (currentProvider s), [call])
              else
                let (punctuatedTranscript, calls1) :=
                  punctuateTranscript conn (Recognition.transcript result) finalRawTranscript in
                let (punctuatedTranslation, calls2) :=
                  translateFinal conn punctuatedTranscript in
                (cleared,
                 call :: calls1 ++ calls2 ++
                 [Emit (transcription_result
                          (mkTranscriptionResult punctuatedTranscript punctuatedTranslation
                             (confidenceOr (Recognition.confidence result))
                             true (atEmit clock) "Speaker" true))])
            else (cleared, [call])
        end
      else (cleared, [])
  end.

(** [socket.on('set-stt-provider')] with [config.provider]. *)
Definition onSetSttProvider (provider : string) (s : Server) : Server * list Effect :=
  match SttProviders.setSTTProvider provider (currentProvider s) with
  | (Returns _, current) =>
      let providerConfig := SttProviders.getProviderConfig current in
      let updated :=
        Emit (stt_provider_updated provider providerConfig
                (SttProviders.getSupportedLanguages (backends C) current)) in
      (mkServer (clientConnection s) current,
       match providerConfig with
       | Some _ => [updated]
       | None =>
           [updated;
            Emit (stt_provider_error "Cannot read properties of undefined (reading 'name')"
                    SttProviders.providerIds)]
       end)
  | (Throws message, current) =>
      (mkServer (clientConnection s) current,
       [Emit (stt_provider_error message SttProviders.providerIds)])
  end.

(** [socket.on('disconnect')] *)
Definition onDisconnect (s : Server) : Server * list Effect :=
  (mkServer None (currentProvider s), []).

End Handlers.

(** The [transcription-result] payloads among the effects of a handler. *)
Definition results (effects : list Effect) : list TranscriptionResult :=
  flat_map (fun effect =>
              match effect with
              | Emit (transcription_result r) => [r]
              | _ => []
              end) effects.

(** The recognition calls among the effects of a handler. *)
Definition recognitionCalls (effects : list Effect) : list (list Z * string) :=
  flat_map (fun effect =>
              match effect with
              | Transcribe audio language => [(audio, language)]
              | _ => []
              end) effects.

(** The events among the effects of a handler. *)
Definition emitted (effects : list Effect) : list Event :=
  flat_map (fun effect =>
              match effect with
              | Emit event => [event]
              | _ => []
              end) effects.

End Websocket.


(** ** translation.js: batches, statistics, successive calls *)

Module TranslationMore.
Import JsString Translation.
Local Open Scope list_scope.

(** [getCacheStats()] *)
Record CacheStats : Type := mkCacheStats {
  statsSize : nat;
  statsMaxSize : nat;
  statsTtl : Z;
  statsEntries : list string
}.

Definition getCacheStats (cache : Cache) : CacheStats :=
  mkCacheStats (JsMap.size cache) CACHE_MAX_SIZE CACHE_TTL (firstn 10 (JsMap.keys cache)).

(** [clearCache()] *)
Definition clearCache (cache : Cache) : Cache := [].

(** One call of [translateText]: its clock readings and its arguments. *)
Record Call : Type := mkCall {
  callClock : Clock;
  callText : string;
  callTarget : string
}.

(** Successive calls of [translateText] on the module state. *)
Definition translateAll (deepl : nat -> string -> string -> outcome string)
    (calls : list Call) (st : State) : State :=
  fold_left
    (fun st call => snd (translateText deepl (callClock call) (callText call) (callTarget call) st))
    calls st.

(** [array[index] = value] on an array with holes: a hole is [None]; an index
    past the end extends the array. *)
Fixpoint assign {A} (index : nat) (value : A) (array : list (option A)) : list (option A) :=
  match index, array with
  | O, [] => [Some value]
  | O, _ :: rest => Some value :: rest
  | S index', [] => None :: assign index' value []
  | S index', slot :: rest => slot :: assign index' value rest
  end.

(** The clock readings of one [translateBatch] call. The first loop reads the
    clock for the [index]-th text in [getFromCache] and for the [timestamp] of
    a hit; the second loop reads it for the [i]-th fresh result and in
    [addToCache]; the loop of the [catch] branch reads it for the [i]-th
    failed result. *)
Record BatchClock : Type := mkBatchClock {
  lookupAt : nat -> Z;
  hitStampAt : nat -> Z;
  freshStampAt : nat -> Z;
  storeAt : nat -> Z;
  failedStampAt : nat -> Z
}.

(** The first loop of [translateBatch], from the text at [index] on: the slots
    of [results] (a hit, or a hole still to fill), [needTranslation],
    [translationIndices], and the cache after the lookups. *)
Fixpoint lookupTexts (clock : BatchClock) (targetLanguage : string) (index : nat)
    (texts : list string) (cache : Cache)
    : list (option TranslationResult) * list string * list nat * Cache :=
  match texts with
  | [] => ([], [], [], cache)
  | text :: rest =>
      let cacheKey := getCacheKey text targetLanguage in
      let (cached, cache1) := getFromCache (lookupAt clock index) cacheKey cache in
      let '(results, needTranslation, translationIndices, cache2) :=
        lookupTexts clock targetLanguage (S index) rest cache1 in
      match cached with
      | Some hit =>
          (Some (markHit (hitStampAt clock index) hit) :: results,
           needTranslation, translationIndices, cache2)
      | None =>
          (None :: results, text :: needTranslation, index :: translationIndices, cache2)
      end
  end.

(** The loop [translationResults.forEach((result, i) => ...)] from position
    [i] on. When the reply is longer than [needTranslation], the key of an
    undefined text cannot be built and the loop throws; what it stored before
    stays. *)
Fixpoint storeFresh (clock : BatchClock) (targetLanguage : string)
    (needTranslation : list string) (translationIndices : list nat)
    (i : nat) (translated : list string)
    (results : list (option TranslationResult)) (cache : Cache)
    : outcome unit * list (option TranslationResult) * Cache :=
  match translated with
  | [] => (Returns tt, results, cache)
  | text :: rest =>
      match nth_error needTranslation i, nth_error translationIndices i with
      | Some originalText, Some originalIndex =>
          let translationResult :=
            mkResult originalText text "cs" targetLanguage None
                     (freshStampAt clock i) false None in
          storeFresh clock targetLanguage needTranslation translationIndices (S i) rest
            (assign originalIndex translationResult results)
            (addToCache (storeAt clock i) (getCacheKey originalText targetLanguage)
               translationResult cache)
      | _, _ =>
          (Throws "Cannot read properties of undefined (reading 'toLowerCase')",
           results, cache)
      end
  end.

(** The loop of the [catch] branch, over [translationIndices] and the texts
    of [needTranslation] at the same positions (the two arrays are filled
    together and have the same length): every text that needed translation
    gets the error marker. *)
Fixpoint markFailed (clock : BatchClock) (targetLanguage message : string)
    (needTranslation : list string) (translationIndices : list nat) (i : nat)
    (results : list (option TranslationResult)) : list (option TranslationResult) :=
  match translationIndices, needTranslation with
  | index :: indices, text :: texts =>
      markFailed clock targetLanguage message texts indices (S i)
        (assign index
           (mkResult text ("[Translation Error: " ++ message ++ "]")%string "cs"
                     targetLanguage (Some message) (failedStampAt clock i) false None)
           results)
  | _, _ => results
  end.

(** The entry that a lookup at time [now] gives for [text]: the one stored
    under its key, unless it is expired. *)
Definition liveEntry (now : Z) (text targetLanguage : string) (cache : Cache)
    : option TranslationResult :=
  fst (getFromCache now (getCacheKey text targetLanguage) cache).

(** From time [from] on, a lookup in [cache] gives what a lookup in [cache0]
    gives. *)
Definition sameLiveEntries (from : Z) (cache cache0 : Cache) : Prop :=
  forall later key,
    (from <= later)%Z ->
    fst (getFromCache later key cache) = fst (getFromCache later key cache0).

(** The texts of a batch with their positions. *)
Definition indexed (texts : list string) : list (nat * string) :=
  combine (seq 0 (List.length texts)) texts.

(** The texts of a batch, from position [index] on, for which [cache] has no
    live entry when their turn comes. *)
Fixpoint misses (clock : BatchClock) (targetLanguage : string) (cache : Cache) (index : nat)
    (texts : list string) : list string :=
  match texts with
  | [] => []
  | text :: rest =>
      match liveEntry (lookupAt clock index) text targetLanguage cache with
      | Some _ => misses clock targetLanguage cache (S index) rest
      | None => text :: misses clock targetLanguage cache (S index) rest
      end
  end.

(** What the slot at [index] of a failed batch holds for [text], [cache] being
    the cache before the call: the live entry of the text, marked as a hit
    with the clock reading of that position; without one, the error marker
    for the text. *)
Definition failedSlot (clock : BatchClock) (targetLanguage message : string) (cache : Cache)
    (slot : option Resolved) (position : nat * string) : Prop :=
  let (index, text) := position in
  match liveEntry (lookupAt clock index) text targetLanguage cache with
  | Some hit => slot = Some (ResolvedObject (markHit (hitStampAt clock index) hit))
  | None =>
      exists stamp,
        slot = Some (ResolvedObject
                       (mkResult text ("[Translation Error: " ++ message ++ "]")%string "cs"
                                 targetLanguage (Some message) stamp false None))
  end.

(** What the slot at [index] of a translated batch holds for [text], when the
    backend translates a text to [f text]: the live entry of the text, marked
    as a hit; without one, the fresh translation. *)
Definition translatedSlot (clock : BatchClock) (targetLanguage : string)
    (f : string -> string) (cache : Cache)
    (slot : option Resolved) (position : nat * string) : Prop :=
  let (index, text) := position in
  match liveEntry (lookupAt clock index) text targetLanguage cache with
  | Some hit => slot = Some (ResolvedObject (markHit (hitStampAt clock index) hit))
  | None =>
      exists stamp,
        slot = Some (ResolvedObject
                       (mkResult text (f text) "cs" targetLanguage None stamp false None))
  end.

Section WithBatchBackend.

(** [translator.translateText(needTranslation, 'cs', targetLanguage, options)]
    with an array of texts: the [n]-th request throws or yields the texts of
    the results. *)
Variable deeplBatch : nat -> list string -> string -> outcome (list string).

(** [translateBatch(texts, targetLanguage)]: the array it resolves to, each
    slot [null] (no translator), a result object, or a hole. *)
Definition translateBatch (clock : BatchClock) (texts : list string)
    (targetLanguage : string) (st : State) : list (option Resolved) * State :=
  if negb (translator st) then (map (fun _ => Some ResolvedNull) texts, st)
  else
    let '(results, needTranslation, translationIndices, cache1) :=
      lookupTexts clock targetLanguage 0 texts (translationCache st) in
    let wrap := map (option_map ResolvedObject) in
    if 0 <? List.length needTranslation then
      let st1 := fun cache => mkState (translator st) cache (S (backendCalls st)) in
      match deeplBatch (backendCalls st) needTranslation targetLanguage with
      | Returns translationResults =>
          match storeFresh clock targetLanguage needTranslation translationIndices 0
                  translationResults results cache1 with
          | (Returns _, results1, cache2) => (wrap results1, st1 cache2)
          | (Throws message, results1, cache2) =>
              (wrap (markFailed clock targetLanguage message needTranslation
                       translationIndices 0 results1),
               st1 cache2)
          end
      | Throws message =>
          (wrap (markFailed clock targetLanguage message needTranslation
                   translationIndices 0 results),
           st1 cache1)
      end
    else (wrap results, mkState (translator st) cache1 (backendCalls st)).

End WithBatchBackend.

End TranslationMore.


(** ** Connection tests, the provider list and the switch route *)

Module Connectivity.
Import JsString Recognition SttProviders.
Local Open Scope list_scope.

(** [Buffer.alloc(32000)]: one second of silence. *)
Definition silence : list Z := repeat 0%Z (Z.to_nat 32000).

(** [testConnection] of google-speech.js and of whisper.js: transcribe one
    second of silence; [true] unless the call throws. *)
Definition googleTestConnection (axiosPost : list Z -> string -> outcome GoogleData)
    : outcome bool :=
  try_catch
    (_ <- googleTranscribeBuffer axiosPost silence "en-US" ;; Returns true)
    (fun _ => Returns false).

Definition whisperTestConnection (io : WhisperIO) : outcome bool :=
  try_catch
    (_ <- whisperTranscribeBuffer io silence "en" ;; Returns true)
    (fun _ => Returns false).

(** [validateApiKey] of deepgram.js: [apiKey] is [process.env.DEEPGRAM_API_KEY],
    [getProjectBalances] the request made with it. *)
Definition validateApiKey (apiKey : option string) (getProjectBalances : string -> outcome unit)
    : outcome bool :=
  try_catch
    (match apiKey with
     | None => Returns false
     | Some key =>
         if negb (truthy key) || (key =? "your_deepgram_api_key_here")%string
         then Returns false
         else _ <- getProjectBalances key ;; Returns true
     end)
    (fun _ => Returns false).

(** What the connection tests reach outside the registry's backends. *)
Record Environment : Type := mkEnvironment {
  backends : Backends;
  deepgramApiKey : option string;
  getProjectBalances : string -> outcome unit
}.

(** [provider || currentProvider] *)
Definition targetOf (provider : option string) (currentProvider : string) : string :=
  match provider with
  | Some p => orElse p currentProvider
  | None => currentProvider
  end.

(** [testConnection(provider = null)] of stt-providers.js. *)
Definition testConnection (E : Environment) (provider : option string)
    (currentProvider : string) : outcome bool :=
  let targetProvider := targetOf provider currentProvider in
  try_catch
    (match JsMap.get targetProvider PROVIDER_CONFIG with
     | None => Throws "Cannot read properties of undefined (reading 'name')"
     | Some _ =>
         if (targetProvider =? GOOGLE_SPEECH)%string then
           googleTestConnection (axiosPost (backends E))
         else if (targetProvider =? OPENAI_WHISPER)%string then
           whisperTestConnection (whisperIO (backends E))
         else if (targetProvider =? DEEPGRAM_NOVA3)%string then
           validateApiKey (deepgramApiKey E) (getProjectBalances E)
         else Returns false
     end)
    (fun _ => Returns false).

(** [getAllProviders()]: per property of [STT_PROVIDERS], the id and the
    configuration found under it. *)
Definition getAllProviders : list (string * option ProviderConfig) :=
  map (fun entry => (snd entry, JsMap.get (snd entry) PROVIDER_CONFIG)) STT_PROVIDERS.

(** Successive [setSTTProvider] calls on [currentProvider]. *)
Definition switchAll (requests : list string) (currentProvider : string) : string :=
  fold_left (fun current provider => snd (setSTTProvider provider current))
    requests currentProvider.

(** The number of code units of [s] equal to [c]. *)
Fixpoint occurrences (c : ascii) (s : string) : nat :=
  match s with
  | EmptyString => 0
  | String d rest => (if Ascii.eqb d c then 1 else 0) + occurrences c rest
  end.

(** The answer of [POST /api/stt/provider/switch]: status 200 with the new
    configuration, or status 400 with the error and the provider ids. *)
Inductive SwitchResponse : Type :=
| SwitchOk (provider : string) (config : ProviderConfig) (message : string)
| SwitchBadRequest (error : string) (availableProviders : list string).

(** The route [POST /api/stt/provider/switch] of index.js with
    [req.body.provider]: the response and [currentProvider] afterwards. *)
Definition switchProviderRoute (provider : option string) (currentProvider : string)
    : SwitchResponse * string :=
  match provider with
  | None => (SwitchBadRequest "Provider name required" providerIds, currentProvider)
  | Some p =>
      if negb (truthy p)
      then (SwitchBadRequest "Provider name required" providerIds, currentProvider)
      else
        match setSTTProvider p currentProvider with
        | (Returns _, current) =>
            match getProviderConfig current with
            | Some newConfig =>
                (SwitchOk p newConfig ("Switched to " ++ name newConfig), current)
            | None =>
                (SwitchBadRequest "Cannot read properties of undefined (reading 'name')"
                   providerIds, current)
            end
        | (Throws message, current) => (SwitchBadRequest message providerIds, current)
        end
  end.

(** [readUInt32LE]: the number four bytes stand for, low byte first. *)
Definition uint32LE (b0 b1 b2 b3 : Z) : Z :=
  (b0 + 256 * b1 + 65536 * b2 + 16777216 * b3)%Z.

(** [buffer.readUInt32LE(offset)]; it throws when fewer than four bytes are
    left. *)
Definition readUInt32LE (offset : nat) (buffer : list Z) : outcome Z :=
  match skipn offset buffer with
  | b0 :: b1 :: b2 :: b3 :: _ => Returns (uint32LE b0 b1 b2 b3)
  | _ => Throws "ERR_OUT_OF_RANGE"
  end.

End Connectivity.


(** ** websocket.js: configuration events and sequences of events *)

Module Sessions.
Import JsString Websocket.
Local Open Scope list_scope.

(** What the handlers use of the [languages] module, which is not among the
    sources: its two validity checks and [getLanguageDisplay(code, kind)].
    They are parameters here. *)
Record Languages : Type := mkLanguages {
  isValidSpeechLanguage : string -> bool;
  isValidTranslationLanguage : string -> bool;
  getLanguageDisplay : string -> string -> string
}.

Definition setAiPunctuationEnabled (flag : bool) (c : ClientConnection) : ClientConnection :=
  mkConnection (audioBuffer c) (isTranscribing c) (lastTranscriptionTime c) (lastTranscript c)
    (lastTranslation c) (speechLanguage c) (translationFrom c) (translationTo c)
    flag (punctuationStyle c).

Definition setPunctuationStyle (style : string) (c : ClientConnection) : ClientConnection :=
  mkConnection (audioBuffer c) (isTranscribing c) (lastTranscriptionTime c) (lastTranscript c)
    (lastTranslation c) (speechLanguage c) (translationFrom c) (translationTo c)
    (aiPunctuationEnabled c) style.

Definition setSpeechLanguage (code : string) (c : ClientConnection) : ClientConnection :=
  mkConnection (audioBuffer c) (isTranscribing c) (lastTranscriptionTime c) (lastTranscript c)
    (lastTranslation c) code (translationFrom c) (translationTo c)
    (aiPunctuationEnabled c) (punctuationStyle c).

Definition setTranslationFrom (code : string) (c : ClientConnection) : ClientConnection :=
  mkConnection (audioBuffer c) (isTranscribing c) (lastTranscriptionTime c) (lastTranscript c)
    (lastTranslation c) (speechLanguage c) code (translationTo c)
    (aiPunctuationEnabled c) (punctuationStyle c).

Definition setTranslationTo (code : string) (c : ClientConnection) : ClientConnection :=
  mkConnection (audioBuffer c) (isTranscribing c) (lastTranscriptionTime c) (lastTranscript c)
    (lastTranslation c) (speechLanguage c) (translationFrom c) code
    (aiPunctuationEnabled c) (punctuationStyle c).

(** The payload of [set-languages]: each property may be missing. *)
Record LanguageConfig : Type := mkLanguageConfig {
  configSpeechLanguage : option string;
  configTranslationFrom : option string;
  configTranslationTo : option string
}.

(** The payload of [set-punctuation-preferences]: [enabled] is [Some] when it
    is a boolean, [style] when it is a string. *)
Record PunctuationConfig : Type := mkPunctuationConfig {
  configEnabled : option bool;
  configStyle : option string
}.

(** The events the configuration handlers emit. [translationDisplay] is the
    display of the source and of the target language; the source joins them
    with an arrow. *)
Inductive ConfigEvent : Type :=
| languages_updated (speechLanguage translationFrom translationTo : string)
    (speechDisplay : string) (translationDisplay : string * string)
| punctuation_preferences_updated (enabled : bool) (style : string).

(** [['formal', 'casual', 'technical']] *)
Definition punctuationStyles : list string := ["formal"; "casual"; "technical"].

(** [value && valid(value)] on an optional string. *)
Definition accepted (valid : string -> bool) (value : option string) : option string :=
  match value with
  | Some code => if truthy code && valid code then Some code else None
  | None => None
  end.

Definition applyIf {A} (value : option A) (set : A -> ClientConnection -> ClientConnection)
    (c : ClientConnection) : ClientConnection :=
  match value with
  | Some a => set a c
  | None => c
  end.

Section ConfigHandlers.

Variable L : Languages.

(** [socket.on('set-languages')] *)
Definition onSetLanguages (config : option LanguageConfig) (s : Server)
    : Server * list ConfigEvent :=
  match clientConnection s, config with
  | Some conn, Some config =>
      let conn1 :=
        applyIf (accepted (isValidSpeechLanguage L) (configSpeechLanguage config))
          setSpeechLanguage conn in
      let conn2 :=
        applyIf (accepted (isValidTranslationLanguage L) (configTranslationFrom config))
          setTranslationFrom conn1 in
      let conn3 :=
        applyIf (accepted (isValidTranslationLanguage L) (configTranslationTo config))
          setTranslationTo conn2 in
      (mkServer (Some conn3) (currentProvider s),
       [languages_updated (speechLanguage conn3) (translationFrom conn3) (translationTo conn3)
          (getLanguageDisplay L (speechLanguage conn3) "speech")
          (getLanguageDisplay L (translationFrom conn3) "translation",
           getLanguageDisplay L (translationTo conn3) "translation")])
  | _, _ => (s, [])
  end.

(** [socket.on('set-punctuation-preferences')] *)
Definition onSetPunctuationPreferences (config : option PunctuationConfig) (s : Server)
    : Server * list ConfigEvent :=
  match clientConnection s, config with
  | Some conn, Some config =>
      let conn1 := applyIf (configEnabled config) setAiPunctuationEnabled conn in
      let conn2 :=
        applyIf (accepted (fun style => existsb (String.eqb style) punctuationStyles)
                   (configStyle config))
          setPunctuationStyle conn1 in
      (mkServer (Some conn2) (currentProvider s),
       [punctuation_preferences_updated (aiPunctuationEnabled conn2) (punctuationStyle conn2)])
  | _, _ => (s, [])
  end.

End ConfigHandlers.

(** An event that arrives on the socket, with the clock readings of the
    handler that takes it. The payload of [audio-data] is either a frame of
    integers, or a value on which the conversion throws for another reason
    than an integer sample out of range, with the message of what is
    thrown. *)
Inductive Input : Type :=
| SetLanguages (config : option LanguageConfig)
| SetSttProvider (provider : string)
| SetPunctuationPreferences (config : option PunctuationConfig)
| StartTranscription (now : Z)
| AudioData (now : Z) (clock : RunClock) (audioData : list Z)
| UnusableAudioData (message : string)
| StopTranscription (clock : RunClock)
| Disconnect.

(** What a handler lets out: an effect of the transcription handlers or an
    event of the configuration handlers. *)
Inductive Output : Type :=
| Pipeline (effect : Effect)
| Configuration (event : ConfigEvent).

(** The state right after [connection]: a new entry, the default provider. *)
Definition connected : Server := mkServer (Some newConnection) SttProviders.GOOGLE_SPEECH.

Section Runs.

Variable C : Collaborators.
Variable L : Languages.

(** The handler for one event. *)
Definition handle (input : Input) (s : Server) : Server * list Output :=
  match input with
  | SetLanguages config =>
      let (s', events) := onSetLanguages L config s in (s', map Configuration events)
  | SetSttProvider provider =>
      let (s', effects) := onSetSttProvider C provider s in (s', map Pipeline effects)
  | SetPunctuationPreferences config =>
      let (s', events) := onSetPunctuationPreferences config s in
      (s', map Configuration events)
  | StartTranscription now =>
      let (s', effects) := onStartTranscription now s in (s', map Pipeline effects)
  | AudioData now clock audioData =>
      let (s', effects) := onAudioData C now clock audioData s in (s', map Pipeline effects)
  | UnusableAudioData message =>
      let (s', effects) := onUnusableAudioData message s in (s', map Pipeline effects)
  | StopTranscription clock =>
      let (s', effects) := onStopTranscription C clock s in (s', map Pipeline effects)
  | Disconnect =>
      let (s', effects) := onDisconnect s in (s', map Pipeline effects)
  end.

(** The events of a socket handled one after the other, each handler run to
    its end before the next event: the schedule in which no event arrives
    while a run waits at an [await]. *)
Fixpoint run (inputs : list Input) (s : Server) : Server * list Output :=
  match inputs with
  | [] => (s, [])
  | input :: rest =>
      let (s1, outputs1) := handle input s in
      let (s2, outputs2) := run rest s1 in
      (s2, outputs1 ++ outputs2)
  end.

End Runs.

(** The messages of the [transcription-error] events among the outputs. *)
Definition errors (outputs : list Output) : list string :=
  flat_map (fun output =>
              match output with
              | Pipeline (Emit (transcription_error message)) => [message]
              | _ => []
              end) outputs.

(** The state a session is kept in. *)
Record Sound (L : Languages) (s : Server) : Prop := mkSound {
  providerRegistered : In (currentProvider s) SttProviders.providerIds;
  bufferEven :
    forall conn, clientConnection s = Some conn ->
      Z.even (Buffer.byteLength (audioBuffer conn)) = true;
  styleKnown :
    forall conn, clientConnection s = Some conn ->
      In (punctuationStyle conn) punctuationStyles;
  speechLanguageValid :
    forall conn, clientConnection s = Some conn ->
      speechLanguage conn = "cs-CZ" \/ isValidSpeechLanguage L (speechLanguage conn) = true;
  translationFromValid :
    forall conn, clientConnection s = Some conn ->
      translationFrom conn = "cs" \/ isValidTranslationLanguage L (translationFrom conn) = true;
  translationToValid :
    forall conn, clientConnection s = Some conn ->
      translationTo conn = "en" \/ isValidTranslationLanguage L (translationTo conn) = true
}.

End Sessions.


(** ** websocket.js: the asynchronous handlers, piece by piece

    [processBatchTranscription] and the handler of [stop-transcription] are
    [async]: at each [await] the run is suspended, and until the awaited call
    resolves any other handler of the socket, or the rest of another suspended
    run, can work on the same entry of [clientConnections]. The arguments of
    an awaited call are read when the call is made; everything after the
    [await] reads the entry as it is by then. *)

Module Interleaving.
Import JsString Websocket Sessions.
Local Open Scope list_scope.

(** An interim run is one of [processBatchTranscription]; a final run is the
    one of [stop-transcription]. *)
Inductive Kind : Type :=
| Interim
| Final.

(** A run suspended at an [await]: the call it waits for, with the arguments
    the call was made with, and the local variables the rest of the run
    reads. *)
Inductive Suspended : Type :=
| AwaitsRecognition (kind : Kind) (provider : string) (audio : list Z) (language : string)
| AwaitsPunctuation (kind : Kind) (result : Recognition.Result)
    (text language style : string)
| AwaitsTranslation (kind : Kind) (result : Recognition.Result)
    (punctuatedTranscript sourceLanguage targetLanguage : string)
| AwaitsTranslationPunctuation (kind : Kind) (result : Recognition.Result)
    (punctuatedTranscript translatedText language style : string).

(** What one piece of a run does: the entry afterwards, the events it emits
    and the calls it makes, in order, and the [await] it stops at, if it does
    not end the run. *)
Definition Piece : Type := ClientConnection * list Effect * option Suspended.

Section Pieces.

Variable C : Collaborators.

(** [isSignificantlyDifferent] in an interim run, [isFinalDifferent] in a
    final one. *)
Definition isDifferent (kind : Kind) (rawTranscript lastTranscript : string) : bool :=
  match kind with
  | Interim => isSignificantlyDifferent rawTranscript lastTranscript
  | Final => isFinalDifferent rawTranscript lastTranscript
  end.

(** The [transcription-result] a run sends. *)
Definition resultEvent (clock : RunClock) (kind : Kind) (result : Recognition.Result)
    (punctuatedTranscript punctuatedTranslation : string) : Event :=
  transcription_result
    (mkTranscriptionResult punctuatedTranscript punctuatedTranslation
       (confidenceOr (Recognition.confidence result))
       (match kind with Interim => false | Final => true end)
       (atEmit clock) "Speaker" true).

(** The end of a run, from the check [isTranslationDifferent] (interim) or
    from "Send final result" (final) on. *)
Definition finish (clock : RunClock) (kind : Kind) (result : Recognition.Result)
    (punctuatedTranscript punctuatedTranslation : string) (conn : ClientConnection) : Piece :=
  match kind with
  | Interim =>
      (setAudioBuffer (keepRecent (audioBuffer conn))
         (setLastTexts punctuatedTranscript punctuatedTranslation
            (setLastTranscriptionTime (atMark clock) conn)),
       if isTranslationDifferent punctuatedTranslation (lastTranslation conn)
       then [Emit (resultEvent clock Interim result punctuatedTranscript punctuatedTranslation)]
       else [],
       None)
  | Final =>
      (setAudioBuffer [] conn,
       [Emit (resultEvent clock Final result punctuatedTranscript punctuatedTranslation)],
       None)
  end.

(** The call of [translation.translateText], up to its [await]. *)
Definition startTranslation (kind : Kind) (result : Recognition.Result)
    (punctuatedTranscript : string) (conn : ClientConnection) : Piece :=
  (conn,
   [Translate punctuatedTranscript (translationFrom conn) (translationTo conn)],
   Some (AwaitsTranslation kind result punctuatedTranscript
           (translationFrom conn) (translationTo conn))).

(** From the answer of [sttProviders.transcribeBuffer] to the next [await]. *)
Definition afterRecognition (clock : RunClock) (kind : Kind)
    (reply : outcome Recognition.Result) (conn : ClientConnection) : Piece :=
  match reply with
  | Throws message =>
      match kind with
      | Interim =>
          (conn, [Emit (transcription_error ("Transcription failed: " ++ message))], None)
      | Final =>
          (setAudioBuffer [] conn, [Emit (transcription_error "Final transcription failed")],
           None)
      end
  | Returns result =>
      if truthy (Recognition.transcript result)
         && truthy (trim (Recognition.transcript result))
      then
        let rawTranscript := trim (Recognition.transcript result) in
        if negb (isDifferent kind rawTranscript (lastTranscript conn)) then
          match kind with
          | Interim => (setLastTranscriptionTime (atMark clock) conn, [], None)
          | Final => (conn, [], None)
          end
        else if aiPunctuationEnabled conn then
          (conn,
           [Punctuate (Recognition.transcript result) (translationFrom conn)
              (punctuationStyle conn) false],
           Some (AwaitsPunctuation kind result (Recognition.transcript result)
                   (translationFrom conn) (punctuationStyle conn)))
        else startTranslation kind result rawTranscript conn
      else
        match kind with
        | Interim => (conn, [], None)
        | Final => (setAudioBuffer [] conn, [], None)
        end
  end.

(** From the answer of [addPunctuation] for the transcript to the next
    [await]. *)
Definition afterPunctuation (kind : Kind) (result : Recognition.Result)
    (reply : outcome PunctuationResult) (conn : ClientConnection) : Piece :=
  let rawTranscript := trim (Recognition.transcript result) in
  let punctuatedTranscript :=
    match reply with
    | Returns punctuationResult =>
        if processed punctuationResult then punctuatedText punctuationResult
        else rawTranscript
    | Throws _ => rawTranscript
    end in
  startTranslation kind result punctuatedTranscript conn.

(** From the answer of [translateText] to the next [await] or to the end of
    the run. A final run does not read [translationFailed]. *)
Definition afterTranslation (clock : RunClock) (kind : Kind) (result : Recognition.Result)
    (punctuatedTranscript : string) (reply : outcome TranslationReply)
    (conn : ClientConnection) : Piece :=
  match reply with
  | Throws _ => finish clock kind result punctuatedTranscript punctuatedTranscript conn
  | Returns translationResult =>
      let '(translatedText, translationFailed) :=
        match translationResult with
        | ReplyObject text failed =>
            (orElse text punctuatedTranscript,
             match kind with Interim => failed | Final => false end)
        | ReplyString text => (orElse text punctuatedTranscript, false)
        | ReplyNull => (punctuatedTranscript, false)
        end in
      if truthy translatedText
         && negb (translatedText =? punctuatedTranscript)%string
         && negb translationFailed
         && aiPunctuationEnabled conn
      then
        (conn,
         [Punctuate translatedText (translationTo conn) (punctuationStyle conn) true],
         Some (AwaitsTranslationPunctuation kind result punctuatedTranscript translatedText
                 (translationTo conn) (punctuationStyle conn)))
      else finish clock kind result punctuatedTranscript translatedText conn
  end.

(** From the answer of [addPunctuation] for the translation to the end of the
    run. *)
Definition afterTranslationPunctuation (clock : RunClock) (kind : Kind)
    (result : Recognition.Result) (punctuatedTranscript translatedText : string)
    (reply : outcome PunctuationResult) (conn : ClientConnection) : Piece :=
  let punctuatedTranslation :=
    match reply with
    | Returns translationPunctuationResult =>
        if processed translationPunctuationResult
        then punctuatedText translationPunctuationResult
        else translatedText
    | Throws _ => translatedText
    end in
  finish clock kind result punctuatedTranscript punctuatedTranslation conn.

(** A suspended run goes on when its call resolves: the answer is the
    collaborator's for the arguments the call was made with; [conn] is the
    entry as it is now. The registry chooses the adapter by the provider that
    is active when the call is made; only the [provider] field of a result
    that reports a failure is read when the failure is caught, and the
    handlers do not read that field. *)
Definition resume (clock : RunClock) (run : Suspended) (conn : ClientConnection) : Piece :=
  match run with
  | AwaitsRecognition kind provider audio language =>
      afterRecognition clock kind
        (SttProviders.transcribeBuffer (backends C) provider audio language) conn
  | AwaitsPunctuation kind result text language style =>
      afterPunctuation kind result (addPunctuation C text language style false) conn
  | AwaitsTranslation kind result punctuatedTranscript sourceLanguage targetLanguage =>
      afterTranslation clock kind result punctuatedTranscript
        (translateText C punctuatedTranscript sourceLanguage targetLanguage) conn
  | AwaitsTranslationPunctuation kind result punctuatedTranscript translatedText
      language style =>
      afterTranslationPunctuation clock kind result punctuatedTranscript translatedText
        (addPunctuation C translatedText language style true) conn
  end.

(** [processBatchTranscription] up to its first [await]. *)
Definition startInterim (clock : RunClock) (provider : string) (conn : ClientConnection)
    : Piece :=
  match Buffer.int16Array (audioBuffer conn) with
  | Throws message =>
      (conn, [Emit (transcription_error ("Transcription failed: " ++ message))], None)
  | Returns audioArray =>
      if negb (hasSound audioArray) then
        (setAudioBuffer [] (setLastTranscriptionTime (atMark clock) conn), [], None)
      else
        (conn,
         [Transcribe (audioBuffer conn) (speechLanguage conn)],
         Some (AwaitsRecognition Interim provider (audioBuffer conn) (speechLanguage conn)))
  end.

(** The handler of [audio-data] on an entry, up to its first [await]. *)
Definition receiveAudioData (now : Z) (clock : RunClock) (provider : string)
    (audioData : list Z) (conn : ClientConnection) : Piece :=
  if negb (isTranscribing conn) then (conn, [], None)
  else
    match Buffer.writeSamples (rangeErrorMessage C) audioData with
    | Throws message =>
        (conn, [Emit (transcription_error ("Audio processing failed: " ++ message))], None)
    | Returns audioChunk =>
        let conn1 := setAudioBuffer (audioBuffer conn ++ audioChunk) conn in
        if shouldDispatch now conn1 then startInterim clock provider conn1
        else (conn1, [], None)
    end.

(** The handler of [stop-transcription] on an entry, up to its first
    [await]. *)
Definition receiveStop (provider : string) (conn0 : ClientConnection) : Piece :=
  let conn := setIsTranscribing false conn0 in
  if (0 <? Buffer.byteLength (audioBuffer conn))%Z then
    (conn,
     [Transcribe (audioBuffer conn) (speechLanguage conn)],
     Some (AwaitsRecognition Final provider (audioBuffer conn) (speechLanguage conn)))
  else (setAudioBuffer [] conn, [], None).

End Pieces.

(** One socket: the entry made on [connection] (a handler that has read it
    from the map keeps it, also after [disconnect] has deleted it there),
    whether the map still lists it, [currentProvider] of the registry, and
    the runs that are suspended. *)
Record Socket : Type := mkSocket {
  entry : ClientConnection;
  listed : bool;
  activeProvider : string;
  waiting : list Suspended
}.

(** The state right after [connection]. *)
Definition opened : Socket := mkSocket newConnection true SttProviders.GOOGLE_SPEECH [].

(** What the handlers find when they look the socket up. *)
Definition serverOf (w : Socket) : Server :=
  mkServer (if listed w then Some (entry w) else None) (activeProvider w).

(** What happens next on the socket: an event arrives, or the call that the
    suspended run at [index] waits for resolves; [clock] is what the clock
    reads in the piece that follows. *)
Inductive Action : Type :=
| Arrives (input : Input)
| Resolves (index : nat) (clock : RunClock).

Fixpoint removeAt {A : Type} (index : nat) (l : list A) : list A :=
  match index, l with
  | _, [] => []
  | O, _ :: rest => rest
  | S index', x :: rest => x :: removeAt index' rest
  end.

Section Steps.

Variable C : Collaborators.
Variable L : Languages.

(** A piece has run on the socket. *)
Definition after (w : Socket) (piece : Piece) : Socket * list Output :=
  let '(conn, effects, next) := piece in
  (mkSocket conn (listed w) (activeProvider w)
     (waiting w ++ match next with Some run => [run] | None => [] end),
   map Pipeline effects).

(** A handler without [await] has run on the socket. *)
Definition afterHandler (w : Socket) (result : Server * list Output) : Socket * list Output :=
  let (s, outputs) := result in
  (mkSocket (match clientConnection s with Some conn => conn | None => entry w end)
     (match clientConnection s with Some _ => true | None => false end)
     (currentProvider s) (waiting w),
   outputs).

(** An event arrives: its handler runs up to its first [await], or to its
    end. *)
Definition arrive (input : Input) (w : Socket) : Socket * list Output :=
  match input with
  | AudioData now clock audioData =>
      if listed w
      then after w (receiveAudioData C now clock (activeProvider w) audioData (entry w))
      else (w, [])
  | StopTranscription _ =>
      if listed w then after w (receiveStop (activeProvider w) (entry w)) else (w, [])
  | _ => afterHandler w (handle C L input (serverOf w))
  end.

(** The call of a suspended run resolves: the run goes on to its next
    [await], or to its end. *)
Definition resolve (index : nat) (clock : RunClock) (w : Socket) : Socket * list Output :=
  match nth_error (waiting w) index with
  | None => (w, [])
  | Some run =>
      after (mkSocket (entry w) (listed w) (activeProvider w) (removeAt index (waiting w)))
        (resume C clock run (entry w))
  end.

Definition step (action : Action) (w : Socket) : Socket * list Output :=
  match action with
  | Arrives input => arrive input w
  | Resolves index clock => resolve index clock w
  end.

(** A schedule: events and resolutions in the order in which they happen. *)
Fixpoint schedule (actions : list Action) (w : Socket) : Socket * list Output :=
  match actions with
  | [] => (w, [])
  | action :: rest =>
      let (w1, outputs1) := step action w in
      let (w2, outputs2) := schedule rest w1 in
      (w2, outputs1 ++ outputs2)
  end.

End Steps.

(** A run that goes on from [piece] with nothing in between: each call it
    awaits resolves before anything else happens on the socket. [fuel]
    bounds the number of its [await]s; a run has at most four. *)
Fixpoint uninterrupted (C : Collaborators) (clock : RunClock) (fuel : nat) (piece : Piece)
    : ClientConnection * list Effect :=
  match fuel, piece with
  | S fuel', (conn, effects, Some run) =>
      let (conn', effects') := uninterrupted C clock fuel' (resume C clock run conn) in
      (conn', effects ++ effects')
  | _, (conn, effects, _) => (conn, effects)
  end.

(** The handler a suspended run belongs to. *)
Definition kindOf (run : Suspended) : Kind :=
  match run with
  | AwaitsRecognition kind _ _ _ => kind
  | AwaitsPunctuation kind _ _ _ _ => kind
  | AwaitsTranslation kind _ _ _ _ => kind
  | AwaitsTranslationPunctuation kind _ _ _ _ _ => kind
  end.

(** The message with which the conversion of an arriving [audio-data] payload
    throws, if it does. *)
Definition conversionError (C : Collaborators) (action : Action) : list string :=
  match action with
  | Arrives (AudioData _ _ audioData) =>
      match Buffer.firstOutOfRange audioData with
      | Some value => [rangeErrorMessage C value]
      | None => []
      end
  | Arrives (UnusableAudioData message) => [message]
  | _ => []
  end.

End Interleaving.


(** ** The statements under test

    Sentences of the specification as it states them, as predicates on one
    call or run (or two successive ones). *)

Module Claims.
Import Translation.

(** Two successive calls resolve to objects with the same translated text,
    the second one marked [fromCache], and together they send exactly one
    request to DeepL. *)
Definition servedFromCache (deepl : nat -> string -> string -> outcome string)
    (clock1 clock2 : Clock) (text text' target : string) (st : State) : Prop :=
  exists r1 r2 st1 st2,
    translateText deepl clock1 text target st = (Returns (ResolvedObject r1), st1) /\
    translateText deepl clock2 text' target st1 = (Returns (ResolvedObject r2), st2) /\
    backendCalls st2 = S (backendCalls st) /\
    fromCache r1 = false /\
    fromCache r2 = true /\
    translatedText r2 = translatedText r1.

(** The call resolves to an object whose translation is the input text and
    which is flagged as failed. *)
Definition fallsBackToOriginal (deepl : nat -> string -> string -> outcome string)
    (clock : Clock) (text target : string) (st : State) : Prop :=
  exists r st',
    translateText deepl clock text target st = (Returns (ResolvedObject r), st') /\
    translatedText r = text /\
    error r <> None.



End Claims.


(** ** Sample inputs

    Concrete collaborators and inputs on which the properties below are
    exercised. *)

Module Samples.
Import JsString.
Local Open Scope list_scope.

Definition sampleClock : Translation.Clock := Translation.mkClock 10 20 30.

Definition laterClock : Translation.Clock := Translation.mkClock 5000 5010 5020.

(** A DeepL client that answers every request with the text in brackets. *)
Definition echoDeepl (n : nat) (text targetLanguage : string) : outcome string :=
  Returns ("<" ++ text ++ ">")%string.

(** A DeepL client whose requests all time out. *)
Definition failingDeepl (n : nat) (text targetLanguage : string) : outcome string :=
  Throws "timeout".

Definition readyState : Translation.State := Translation.mkState true [] 0.

Definition sampleResult (text : string) : Translation.TranslationResult :=
  Translation.mkResult text ("<" ++ text ++ ">")%string "cs" "EN-US" None 0 false None.

(** The translations of the numerals [from], ..., [from + count - 1], each
    ready to be inserted under its cache key. *)
Definition numberedResults (from count : nat)
    : list (Z * string * Translation.TranslationResult) :=
  map (fun n => (Z.of_nat n, Translation.getCacheKey (ofNat n) "EN-US", sampleResult (ofNat n)))
      (seq from count).

Fixpoint distinct (keys : list string) : bool :=
  match keys with
  | [] => true
  | key :: rest => negb (existsb (String.eqb key) rest) && distinct rest
  end.

(** *** Recognition backends *)

Definition helloAlternative : Recognition.Alternative :=
  Recognition.mkAlternative "hello world" (Some 0.95%Q).

Definition quietWhisper : Recognition.WhisperIO :=
  Recognition.mkWhisperIO
    (fun _ => Returns tt)
    (fun _ _ => Returns (Recognition.mkWhisperTranscription (Some "hello world") None))
    true (Returns tt).

(** Backends that all answer "hello world". *)
Definition helloBackends : SttProviders.Backends :=
  SttProviders.mkBackends
    ["cs-CZ"; "en-US"]
    (fun language => Returns (substring 0 2 language))
    (fun _ _ => Returns (Some [Some [helloAlternative]]))
    quietWhisper
    (fun _ _ _ => Returns (Recognition.mkDeepgramReply None (Some helloAlternative))).

(** Backends whose Google request times out. *)
Definition brokenBackends : SttProviders.Backends :=
  SttProviders.mkBackends
    ["cs-CZ"; "en-US"]
    (fun language => Returns (substring 0 2 language))
    (fun _ _ => Throws "timeout of 30000ms exceeded")
    quietWhisper
    (fun _ _ _ => Returns (Recognition.mkDeepgramReply None (Some helloAlternative))).

(** A runtime that words its range errors like this. *)
Definition received (value : Z) : string :=
  ("The value is out of range. Received "
   ++ (if (value <? 0)%Z then "-" else "") ++ ofNat (Z.abs_nat value))%string.

(** A punctuation service that leaves every text alone and a translation
    service that answers with the text in brackets. *)
Definition helloCollaborators : Websocket.Collaborators :=
  Websocket.mkCollaborators
    helloBackends
    (fun text _ _ _ => Returns (Websocket.mkPunctuation text false))
    (fun text _ _ => Returns (Websocket.ReplyObject ("<" ++ text ++ ">")%string false))
    received.


(** What the backends above recognise. *)
Definition helloResult : Recognition.Result :=
  Recognition.mkResult "hello world" 0.95%Q "cs-CZ" None None.

(** One second of audio, every sample at the given level. *)
Definition tone (level : Z) : list Z := repeat level (Z.to_nat 16000).

(** 32000 bytes of PCM at the given level. *)
Definition pcm (level : Z) : list Z := flat_map Buffer.int16LE (tone level).

Definition runClock : Websocket.RunClock := Websocket.mkRunClock 7000 7001.

Definition laterRunClock : Websocket.RunClock := Websocket.mkRunClock 9000 9001.

(** A session that is transcribing, with the given buffer and tracking
    values; the last dispatch was at time 0. *)
Definition session (buffer : list Z) (lastTranscript lastTranslation : string)
    : Websocket.ClientConnection :=
  Websocket.mkConnection buffer true 0 lastTranscript lastTranslation
    "cs-CZ" "cs" "en" true "formal".

Definition server (conn : Websocket.ClientConnection) : Websocket.Server :=
  Websocket.mkServer (Some conn) SttProviders.GOOGLE_SPEECH.

(** A languages module that accepts every code and displays it as it is. *)
Definition anyLanguages : Sessions.Languages :=
  Sessions.mkLanguages (fun _ => true) (fun _ => true) (fun code _ => code).

End Samples.


(** ** More sample inputs *)

Module MoreSamples.
Import JsString.
Local Open Scope list_scope.

(** A cache filled to capacity with the translations of the numerals 0 to
    999. *)
Definition fullCache : Translation.Cache :=
  Translation.insertAll (Samples.numberedResults 0 1000) [].

Definition keyOfNumber (n : nat) : string := Translation.getCacheKey (ofNat n) "EN-US".

(** A state whose cache holds one entry, stored at time 0. *)
Definition staleState : Translation.State :=
  Translation.mkState true
    (Translation.addToCache 0 (Translation.getCacheKey "Ahoj" "EN-US")
       (Samples.sampleResult "Ahoj") [])
    1.

(** Clock readings two days later (in milliseconds). *)
Definition twoDaysLater : Translation.Clock :=
  Translation.mkClock 172800000 172800001 172800002.

Definition batchClock : TranslationMore.BatchClock :=
  TranslationMore.mkBatchClock (fun i => 100 + Z.of_nat i)%Z (fun i => 200 + Z.of_nat i)%Z
    (fun i => 300 + Z.of_nat i)%Z (fun i => 400 + Z.of_nat i)%Z (fun i => 500 + Z.of_nat i)%Z.

End MoreSamples.


(** * Properties *)

(** ** Facts about strings *)

Module JsStringFacts.
Import JsString.

Lemma length_zero_iff (s : string) : length s = 0 <-> s = "".
Proof. destruct s; simpl; split; congruence. Qed.

Lemma truthy_false_iff (s : string) : truthy s = false <-> s = "".
Proof.
  unfold truthy. rewrite negb_false_iff. apply String.eqb_eq.
Qed.

Lemma truthy_true_iff (s : string) : truthy s = true <-> s <> "".
Proof.
  unfold truthy. rewrite negb_true_iff. apply String.eqb_neq.
Qed.

Lemma trimStart_empty_iff (s : string) : trimStart s = "" <-> blank s.
Proof.
  unfold blank. induction s as [|c s IH]; simpl.
  - split; auto.
  - destruct (isWhiteSpace c) eqn:W.
    + rewrite IH. split; intro H.
      * constructor; assumption.
      * inversion H; assumption.
    + split; intro H; [discriminate|].
      inversion H; congruence.
Qed.

Lemma trimEnd_empty_iff (s : string) : trimEnd s = "" <-> blank s.
Proof.
  unfold blank. induction s as [|c s IH]; simpl.
  - split; auto.
  - destruct (trimEnd s) eqn:T.
    + destruct (isWhiteSpace c) eqn:W; split; intro H; try discriminate.
      * constructor; [assumption | apply IH; reflexivity].
      * reflexivity.
      * inversion H; congruence.
    + split; intro H; [discriminate|].
      inversion H as [|? ? _ Hs]. apply IH in Hs. discriminate.
Qed.

Lemma blank_trimStart (s : string) : blank (trimStart s) -> blank s.
Proof.
  unfold blank. induction s as [|c s IH]; simpl; auto.
  destruct (isWhiteSpace c) eqn:W; auto.
Qed.

Lemma trimStart_blank (s : string) : blank s -> trimStart s = "".
Proof. apply trimStart_empty_iff. Qed.

(** [s.trim()] is falsy exactly when [s] is empty or white space only. *)
Lemma trim_empty_iff (s : string) : trim s = "" <-> blank s.
Proof.
  unfold trim. rewrite trimEnd_empty_iff. split.
  - apply blank_trimStart.
  - intro H. rewrite (trimStart_blank s H). constructor.
Qed.

Lemma trim_empty : trim "" = "".
Proof. reflexivity. Qed.

Lemma append_assoc (a b c : string) : (a ++ b) ++ c = a ++ (b ++ c).
Proof. induction a; simpl; congruence. Qed.

Lemma append_empty_r (a : string) : a ++ "" = a.
Proof. induction a; simpl; congruence. Qed.

Lemma startsWith_spec (s sub : string) :
  startsWith s sub = true <-> exists rest, s = sub ++ rest.
Proof.
  revert s. induction sub as [|b sub IH]; intro s; simpl.
  - split; [intros _; exists s; reflexivity | reflexivity].
  - destruct s as [|a s].
    + split; [discriminate | intros [rest H]; discriminate].
    + rewrite andb_true_iff, IH. split.
      * intros [E [rest ->]]. apply Ascii.eqb_eq in E. subst. eauto.
      * intros [rest H]. injection H as -> ->. split; [apply Ascii.eqb_refl | eauto].
Qed.

(** [includes] decides occurrence as a contiguous run. *)
Lemma includes_spec (s sub : string) : includes s sub = true <-> occursIn sub s.
Proof.
  unfold occursIn. induction s as [|a s IH]; simpl.
  - rewrite orb_false_r, startsWith_spec. split.
    + intros [rest H]. exists "", rest. exact H.
    + intros [[|c before] [after H]]; simpl in H; [eauto | discriminate].
  - rewrite orb_true_iff, startsWith_spec, IH. split.
    + intros [[rest H] | [before [after H]]].
      * exists "", rest. exact H.
      * exists (String a before), after. simpl. congruence.
    + intros [[|c before] [after H]]; simpl in H.
      * left. eauto.
      * right. injection H as _ H. eauto.
Qed.

Lemma includes_false_iff (s sub : string) : includes s sub = false <-> ~ occursIn sub s.
Proof.
  rewrite <- includes_spec. destruct (includes s sub); split; congruence.
Qed.

End JsStringFacts.

(** ** Facts about insertion-ordered maps *)

Module JsMapFacts.
Import JsMap.
Local Open Scope list_scope.

Section WithValues.
Context {V : Type}.
Implicit Types (m : JsMap.t V) (key : string) (v : V).

Lemma size_keys m : List.length (keys m) = size m.
Proof. unfold keys, size. apply length_map. Qed.

Lemma get_None_iff key m : get key m = None <-> ~ In key (keys m).
Proof.
  induction m as [|[k w] m IH]; simpl.
  - split; auto.
  - destruct (String.eqb_spec k key) as [E|E].
    + split; [discriminate | intro H; exfalso; auto].
    + rewrite IH. split; intro H.
      * intros [?|?]; auto.
      * auto.
Qed.

Lemma get_set_same key v m : get key (set key v m) = Some v.
Proof.
  induction m as [|[k w] m IH]; simpl.
  - now rewrite String.eqb_refl.
  - destruct (String.eqb_spec k key) as [E|E]; simpl.
    + subst. now rewrite String.eqb_refl.
    + destruct (String.eqb_spec k key); [contradiction | exact IH].
Qed.

Lemma keys_set_new key v m : ~ In key (keys m) -> keys (set key v m) = keys m ++ [key].
Proof.
  induction m as [|[k w] m IH]; simpl; intro H; [reflexivity|].
  destruct (String.eqb_spec k key) as [E|E]; [exfalso; auto|].
  simpl. f_equal. apply IH. auto.
Qed.

Lemma keys_set_old key v m : In key (keys m) -> keys (set key v m) = keys m.
Proof.
  induction m as [|[k w] m IH]; simpl; intro H; [contradiction|].
  destruct (String.eqb_spec k key) as [E|E]; [reflexivity|].
  simpl. f_equal. apply IH. destruct H; [contradiction | assumption].
Qed.

Lemma size_set_le key v m : size (set key v m) <= S (size m).
Proof.
  rewrite <- !size_keys. destruct (in_dec string_dec key (keys m)) as [H|H].
  - rewrite keys_set_old by assumption. lia.
  - rewrite keys_set_new by assumption. rewrite length_app. simpl. lia.
Qed.

Lemma size_delete_le key m : size (delete key m) <= size m.
Proof.
  unfold size. induction m as [|[k w] m IH]; simpl; [lia|].
  destruct (k =? key)%string; simpl; lia.
Qed.

Lemma keys_delete_subset key m k : In k (keys (delete key m)) -> In k (keys m).
Proof.
  induction m as [|[k0 w] m IH]; simpl; [auto|].
  destruct (k0 =? key)%string; simpl; intuition.
Qed.

Lemma wf_delete key m : wf m -> wf (delete key m).
Proof.
  unfold wf. induction m as [|[k w] m IH]; simpl; intro H; [assumption|].
  inversion H as [|? ? Hk Hm]; subst.
  destruct (k =? key)%string; simpl; [assumption|].
  constructor; [|auto]. intro Hin. apply Hk. eapply keys_delete_subset; eauto.
Qed.

Lemma wf_set key v m : wf m -> wf (set key v m).
Proof.
  unfold wf. intro H. destruct (in_dec string_dec key (keys m)) as [Hin|Hin].
  - now rewrite keys_set_old.
  - rewrite keys_set_new by assumption.
    apply NoDup_rev in H. rewrite <- (rev_involutive (keys m ++ [key])).
    apply NoDup_rev. rewrite rev_app_distr. simpl. constructor; [|assumption].
    now rewrite <- in_rev.
Qed.

Lemma get_delete_same key m : wf m -> get key (delete key m) = None.
Proof.
  unfold wf. induction m as [|[k w] m IH]; simpl; intro H; [reflexivity|].
  inversion H as [|? ? Hk Hm]; subst.
  destruct (String.eqb_spec k key) as [E|E].
  - subst. now apply get_None_iff.
  - simpl. destruct (String.eqb_spec k key); [contradiction | auto].
Qed.

(** Deleting the oldest key drops the head of the map. *)
Lemma delete_firstKey m :
  match firstKey m with
  | Some k => delete k m
  | None => m
  end = tl m.
Proof.
  destruct m as [|[k w] m]; simpl; [reflexivity|]. now rewrite String.eqb_refl.
Qed.

End WithValues.
End JsMapFacts.

(** ** translation.js *)

Module TranslationFacts.
Import JsString JsMap Translation JsStringFacts JsMapFacts.
Local Open Scope list_scope.

Lemma CACHE_MAX_SIZE_pos : 0 < CACHE_MAX_SIZE.
Proof. unfold CACHE_MAX_SIZE. lia. Qed.

Lemma size_tl (c : Cache) : size (tl c) = pred (size c).
Proof. destruct c; reflexivity. Qed.

Lemma addToCache_size now key r (c : Cache) :
  size c <= CACHE_MAX_SIZE -> size (addToCache now key r c) <= CACHE_MAX_SIZE.
Proof.
  intro H. unfold addToCache.
  pose proof CACHE_MAX_SIZE_pos as Hpos.
  destruct (CACHE_MAX_SIZE <=? size c) eqn:Full.
  - apply Nat.leb_le in Full. rewrite delete_firstKey.
    pose proof (size_set_le key (withCachedAt now r) (tl c)) as Hs.
    rewrite size_tl in Hs. lia.
  - apply Nat.leb_gt in Full.
    pose proof (size_set_le key (withCachedAt now r) c). lia.
Qed.

Lemma getFromCache_size now key (c : Cache) :
  size (snd (getFromCache now key c)) <= size c.
Proof.
  unfold getFromCache. destruct (get key c) as [cached|]; simpl; [|lia].
  destruct (expired now cached); simpl; [apply size_delete_le | lia].
Qed.

Lemma runOp_size op (c : Cache) :
  size c <= CACHE_MAX_SIZE -> size (runOp c op) <= CACHE_MAX_SIZE.
Proof.
  destruct op as [now key r | now key]; simpl; intro H.
  - now apply addToCache_size.
  - pose proof (getFromCache_size now key c). lia.
Qed.

Lemma runOps_size ops : forall c : Cache,
  size c <= CACHE_MAX_SIZE -> size (runOps ops c) <= CACHE_MAX_SIZE.
Proof.
  unfold runOps. induction ops as [|op ops IH]; simpl; intros c H; [assumption|].
  apply IH. now apply runOp_size.
Qed.

Lemma get_addToCache_same now key r (c : Cache) :
  get key (addToCache now key r c) = Some (withCachedAt now r).
Proof. unfold addToCache. apply get_set_same. Qed.

Lemma tl_skipn {A} n : forall l : list A, tl (skipn n l) = skipn (S n) l.
Proof.
  induction n as [|n IH]; intros [|a l]; try reflexivity.
  change (tl (skipn n l) = skipn (S n) l). apply IH.
Qed.

Lemma keys_tl (c : Cache) : keys (tl c) = tl (keys c).
Proof. destruct c; reflexivity. Qed.

Lemma insertAll_snoc rs x (c : Cache) :
  insertAll (rs ++ [x]) c =
  addToCache (fst (fst x)) (keyOf x) (snd x) (insertAll rs c).
Proof.
  unfold insertAll. rewrite fold_left_app. simpl.
  destruct x as [[now key] r]. reflexivity.
Qed.

(** After inserting distinct keys into an empty cache, the cache holds the
    last [CACHE_MAX_SIZE] of them, oldest first. *)
Lemma insertAll_keys rs :
  NoDup (map keyOf rs) ->
  keys (insertAll rs []) = skipn (List.length rs - CACHE_MAX_SIZE) (map keyOf rs).
Proof.
  pose proof CACHE_MAX_SIZE_pos as Hpos.
  induction rs as [|x rs IH] using rev_ind; intro ND; [reflexivity|].
  rewrite map_app in ND. simpl in ND.
  pose proof (NoDup_remove_1 _ _ _ ND) as ND1.
  pose proof (NoDup_remove_2 _ _ _ ND) as ND2.
  rewrite app_nil_r in ND1, ND2. specialize (IH ND1).
  rewrite insertAll_snoc, map_app, length_app. simpl.
  set (c := insertAll rs []) in *.
  assert (Hsize : size c = List.length rs - (List.length rs - CACHE_MAX_SIZE)).
  { rewrite <- size_keys, IH, length_skipn, length_map. reflexivity. }
  unfold addToCache.
  destruct (CACHE_MAX_SIZE <=? size c) eqn:Full.
  - apply Nat.leb_le in Full. rewrite delete_firstKey.
    rewrite keys_set_new.
    + rewrite keys_tl, IH, tl_skipn, skipn_app, length_map.
      replace (List.length rs + 1 - CACHE_MAX_SIZE)
        with (S (List.length rs - CACHE_MAX_SIZE)) by lia.
      replace (S (List.length rs - CACHE_MAX_SIZE) - List.length rs) with 0 by lia.
      reflexivity.
    + rewrite keys_tl, IH, tl_skipn. intro Hin. apply ND2.
      revert Hin. generalize (S (List.length rs - CACHE_MAX_SIZE)) as n.
      intros n Hin. rewrite <- (firstn_skipn n (map keyOf rs)).
      apply in_or_app. now right.
  - apply Nat.leb_gt in Full.
    assert (Hn : List.length rs - CACHE_MAX_SIZE = 0) by lia.
    rewrite Hn in IH. simpl in IH.
    rewrite keys_set_new by (rewrite IH; exact ND2).
    rewrite IH.
    replace (List.length rs + 1 - CACHE_MAX_SIZE) with 0 by lia.
    reflexivity.
Qed.

Lemma distinct_sound (ks : list string) : Samples.distinct ks = true -> NoDup ks.
Proof.
  induction ks as [|k ks IH]; simpl; intro H; constructor.
  - apply andb_true_iff in H as [H _]. apply negb_true_iff in H.
    intro Hin. assert (existsb (String.eqb k) ks = true); [|congruence].
    apply existsb_exists. exists k. split; [assumption | apply String.eqb_refl].
  - apply IH. now apply andb_true_iff in H as [_ H].
Qed.

(** C5. The translation cache never holds more than [CACHE_MAX_SIZE] entries,
    whatever insertions and lookups are run on it; inserting
    [CACHE_MAX_SIZE + 1] distinct keys into the empty cache leaves exactly
    [CACHE_MAX_SIZE] entries, the first-inserted key gone and the others kept
    in insertion order; and a lookup that hits leaves the cache as it is (no
    promotion on read). *)
Theorem cache_capacity :
  (forall ops (cache : Cache),
      size cache <= CACHE_MAX_SIZE -> size (runOps ops cache) <= CACHE_MAX_SIZE) /\
  (forall results first rest,
      map keyOf results = first :: rest ->
      NoDup (first :: rest) ->
      List.length rest = CACHE_MAX_SIZE ->
      size (insertAll results []) = CACHE_MAX_SIZE /\
      get first (insertAll results []) = None /\
      keys (insertAll results []) = rest) /\
  (forall now key (cache : Cache) hit,
      fst (getFromCache now key cache) = Some hit ->
      snd (getFromCache now key cache) = cache).
Proof.
  split; [|split].
  - intros ops cache H. now apply runOps_size.
  - intros results first rest Hk ND Hlen.
    assert (Hkeys : keys (insertAll results []) = rest).
    { rewrite insertAll_keys by (rewrite Hk; exact ND).
      assert (HL : List.length results = S CACHE_MAX_SIZE).
      { rewrite <- (length_map keyOf), Hk. simpl. lia. }
      rewrite HL, Hk. replace (S CACHE_MAX_SIZE - CACHE_MAX_SIZE) with 1 by lia.
      reflexivity. }
    split; [|split].
    + rewrite <- size_keys, Hkeys. exact Hlen.
    + apply get_None_iff. rewrite Hkeys. now inversion ND.
    + exact Hkeys.
  - intros now key cache hit. unfold getFromCache.
    destruct (get key cache) as [cached|]; [|discriminate].
    destruct (expired now cached); [discriminate | reflexivity].
Qed.

Lemma cache_capacity_witness :
  size (insertAll (Samples.numberedResults 0 1001) []) = CACHE_MAX_SIZE /\
  get (getCacheKey "0" "EN-US") (insertAll (Samples.numberedResults 0 1001) []) = None /\
  keys (insertAll (Samples.numberedResults 0 1001) []) =
    map keyOf (Samples.numberedResults 1 1000).
Proof.
  apply (proj1 (proj2 cache_capacity)).
  - vm_compute. reflexivity.
  - apply distinct_sound. vm_compute. reflexivity.
  - vm_compute. reflexivity.
Defined.

(** *** Cache hits and misses in [translateText] *)

Lemma nonblank_guard text :
  trim text <> "" -> negb (truthy text) || (length (trim text) =? 0) = false.
Proof.
  intro H. apply orb_false_iff. split.
  - apply negb_false_iff, truthy_true_iff. intros ->. now apply H.
  - apply Nat.eqb_neq. now rewrite length_zero_iff.
Qed.

Lemma blank_guard text :
  trim text = "" -> negb (truthy text) || (length (trim text) =? 0) = true.
Proof.
  intro H. rewrite H. apply orb_true_r.
Qed.

Lemma getFromCache_fresh now at_ key r (c : Cache) :
  (now - at_ <= CACHE_TTL)%Z ->
  getFromCache now key (addToCache at_ key r c) =
  (Some (withCachedAt at_ r), addToCache at_ key r c).
Proof.
  intro H. unfold getFromCache. rewrite get_addToCache_same.
  unfold expired. simpl.
  destruct (Z.ltb_spec CACHE_TTL (now - at_)); [lia | reflexivity].
Qed.

(** C6, as amended. With the translator initialised, a text that is not blank
    and no live cache entry for its key: when the DeepL request succeeds, a
    second call within the TTL for a text with the same cache key (the
    lower-cased, trimmed text joined to the target language) sends no further
    request, so the two calls send exactly one, and it resolves to the same
    translated text with [fromCache = true]. An entry older than the TTL is
    reported as a miss and deleted by the lookup. *)
Theorem cache_idempotence :
  (forall deepl clock1 clock2 text text' target st translated,
      translator st = true ->
      trim text <> "" ->
      trim text' <> "" ->
      getCacheKey text' target = getCacheKey text target ->
      fst (getFromCache (atLookup clock1) (getCacheKey text target) (translationCache st)) = None ->
      deepl (backendCalls st) text target = Returns translated ->
      (atLookup clock2 - atStore clock1 <= CACHE_TTL)%Z ->
      Claims.servedFromCache deepl clock1 clock2 text text' target st) /\
  (forall text target,
      getCacheKey text target = (trim (toLowerCase text) ++ "|" ++ target)%string) /\
  (forall now at_ key (cache : Cache) cached,
      wf cache ->
      get key cache = Some cached ->
      cachedAt cached = Some at_ ->
      (now - at_ > CACHE_TTL)%Z ->
      fst (getFromCache now key cache) = None /\
      snd (getFromCache now key cache) = delete key cache /\
      get key (snd (getFromCache now key cache)) = None).
Proof.
  split; [|split].
  - intros deepl clock1 clock2 text text' target st translated
           Hready Htext Htext' Hkey Hmiss Hok Httl.
    unfold Claims.servedFromCache, translateText.
    rewrite Hready. simpl negb. cbv iota.
    rewrite (nonblank_guard text Htext).
    destruct (getFromCache (atLookup clock1) (getCacheKey text target) (translationCache st))
      as [cached cache1] eqn:Hlookup.
    simpl in Hmiss. subst cached. rewrite Hok.
    do 4 eexists. split; [reflexivity|].
    simpl translator. rewrite (nonblank_guard text' Htext'), Hkey. simpl translationCache.
    rewrite getFromCache_fresh by assumption.
    split; [reflexivity|]. simpl. auto.
  - reflexivity.
  - intros now at_ key cache cached Hwf Hget Hat Hold.
    unfold getFromCache. rewrite Hget. unfold expired. rewrite Hat.
    destruct (Z.ltb_spec CACHE_TTL (now - at_)); [|lia].
    simpl. repeat split. now apply get_delete_same.
Qed.

Lemma cache_idempotence_witness :
  Claims.servedFromCache Samples.echoDeepl Samples.sampleClock Samples.laterClock
    "Ahoj" " AHOJ " "EN-US" Samples.readyState.
Proof.
  apply (proj1 cache_idempotence) with (translated := "<Ahoj>"%string).
  - reflexivity.
  - vm_compute. discriminate.
  - vm_compute. discriminate.
  - reflexivity.
  - reflexivity.
  - reflexivity.
  - vm_compute. discriminate.
Defined.

(** The claim C6 as written quantifies over every source text. On a blank text
    [translateText] answers [''] before it looks at the cache: two calls send
    no request at all, and the second is not marked [fromCache]. *)
Lemma cache_idempotence_counterexample :
  ~ Claims.servedFromCache Samples.echoDeepl Samples.sampleClock Samples.laterClock
      " " " " "EN-US" Samples.readyState.
Proof.
  unfold Claims.servedFromCache. intros (r1 & r2 & st1 & st2 & H1 & _).
  vm_compute in H1. discriminate.
Qed.

(** C3, as amended. [translateText] never rejects. When the DeepL request
    fails, it resolves to an object that carries the input as [originalText],
    the marker [[Translation Error: <message>]] as [translatedText] and the
    message as [error], with [fromCache = false]; nothing is added to the
    cache. *)
Theorem translation_failure_is_reported :
  (forall deepl clock text target st,
      exists resolved, fst (translateText deepl clock text target st) = Returns resolved) /\
  (forall deepl clock text target st message,
      translator st = true ->
      trim text <> "" ->
      fst (getFromCache (atLookup clock) (getCacheKey text target) (translationCache st)) = None ->
      deepl (backendCalls st) text target = Throws message ->
      exists r st',
        translateText deepl clock text target st = (Returns (ResolvedObject r), st') /\
        originalText r = text /\
        translatedText r = ("[Translation Error: " ++ message ++ "]")%string /\
        error r = Some message /\
        fromCache r = false /\
        translationCache st' =
          snd (getFromCache (atLookup clock) (getCacheKey text target) (translationCache st))).
Proof.
  split.
  - intros deepl clock text target st. unfold translateText.
    destruct (negb (translator st)); [simpl; eauto|].
    destruct (negb (truthy text) || (length (trim text) =? 0)); [simpl; eauto|].
    destruct (getFromCache (atLookup clock) (getCacheKey text target) (translationCache st))
      as [[hit|] cache1]; [simpl; eauto|].
    destruct (deepl (backendCalls st) text target); simpl; eauto.
  - intros deepl clock text target st message Hready Htext Hmiss Hfail.
    unfold translateText. rewrite Hready. simpl negb. cbv iota.
    rewrite (nonblank_guard text Htext).
    destruct (getFromCache (atLookup clock) (getCacheKey text target) (translationCache st))
      as [cached cache1] eqn:Hlookup.
    simpl in Hmiss. subst cached. rewrite Hfail.
    do 2 eexists. split; [reflexivity|]. simpl. auto 6.
Qed.

Lemma translation_failure_is_reported_witness :
  exists r st',
    translateText Samples.failingDeepl Samples.sampleClock "Ahoj" "EN-US" Samples.readyState
      = (Returns (ResolvedObject r), st') /\
    originalText r = "Ahoj" /\
    translatedText r = "[Translation Error: timeout]" /\
    error r = Some "timeout" /\
    fromCache r = false /\
    translationCache st' = [].
Proof.
  apply (proj2 translation_failure_is_reported Samples.failingDeepl Samples.sampleClock
           "Ahoj" "EN-US" Samples.readyState "timeout").
  - reflexivity.
  - vm_compute. discriminate.
  - reflexivity.
  - reflexivity.
Defined.

(** The claim C3 as written has the original text come back as the
    translation. The failure path puts the error marker there instead. *)
Lemma translation_failure_counterexample :
  ~ Claims.fallsBackToOriginal Samples.failingDeepl Samples.sampleClock
      "Ahoj" "EN-US" Samples.readyState.
Proof.
  unfold Claims.fallsBackToOriginal. intros (r & st' & H & Horig & _).
  vm_compute in H. injection H as <- _. discriminate.
Qed.

End TranslationFacts.

(** ** stt-providers.js and the adapters *)

Module SttProvidersFacts.
Import JsString Recognition SttProviders.
Local Open Scope list_scope.

Lemma try_catch_returns {A} (body : outcome A) (handler : string -> A) :
  exists value, try_catch body (fun message => Returns (handler message)) = Returns value.
Proof. destruct body; simpl; eauto. Qed.

Lemma try_catch_throws {A} (body : outcome A) (handler : string -> outcome A) message :
  body = Throws message -> try_catch body handler = handler message.
Proof. intros ->. reflexivity. Qed.

Lemma small_buffer audioBuffer :
  (Buffer.byteLength audioBuffer < 16000)%Z ->
  (Buffer.byteLength audioBuffer <? 16000)%Z = true.
Proof. apply Z.ltb_lt. Qed.

Lemma large_buffer audioBuffer :
  (16000 <= Buffer.byteLength audioBuffer)%Z ->
  (Buffer.byteLength audioBuffer <? 16000)%Z = false.
Proof. apply Z.ltb_ge. Qed.

(** [transcribeBuffer] of the registry never rejects, and a failing
    recognition call shows as the failure object. *)
Lemma transcribeBuffer_failure :
  forall B currentProvider audioBuffer language,
    (exists result,
        transcribeBuffer B currentProvider audioBuffer language = Returns result) /\
    (forall message,
        BackendFails B audioBuffer language currentProvider message ->
        exists result,
          transcribeBuffer B currentProvider audioBuffer language = Returns result /\
          transcript result = "" /\
          confidence result = 0%Q /\
          error result = Some message).
Proof.
  intros B currentProvider audioBuffer language. split.
  - unfold transcribeBuffer. apply try_catch_returns.
  - intros message Hfail.
    destruct Hfail as
      [ Hsmall | message Hlarge Hpost | rest Hlarge Hpost
      | message Hlang | whisperLang Hlang Hsmall
      | whisperLang wav message Hlang Hlarge Hwav Hwrite
      | whisperLang wav message Hlang Hlarge Hwav Hwrite Hcreate
      | whisperLang wav transcription message Hlang Hlarge Hwav Hwrite Hcreate Hexists Hunlink
      | message Hlang | dgLang message Hlang Hcall | dgLang reply message Hlang Hcall Herr
      | currentProvider Hconfig ];
      unfold transcribeBuffer; simpl getProviderConfig; simpl String.eqb; cbv iota.
    + unfold googleTranscribeBuffer. rewrite (small_buffer _ Hsmall). simpl. eauto 6.
    + unfold googleTranscribeBuffer. rewrite (large_buffer _ Hlarge), Hpost. simpl. eauto 6.
    + unfold googleTranscribeBuffer. rewrite (large_buffer _ Hlarge), Hpost. simpl. eauto 6.
    + rewrite Hlang. simpl. eauto 6.
    + rewrite Hlang. simpl bind. unfold whisperTranscribeBuffer.
      rewrite (small_buffer _ Hsmall). simpl. eauto 6.
    + rewrite Hlang. simpl bind. unfold whisperTranscribeBuffer.
      rewrite (large_buffer _ Hlarge), Hwav. simpl bind. rewrite Hwrite. simpl. eauto 6.
    + rewrite Hlang. simpl bind. unfold whisperTranscribeBuffer.
      rewrite (large_buffer _ Hlarge), Hwav. simpl bind. rewrite Hwrite. simpl bind.
      rewrite Hcreate. simpl. eauto 6.
    + rewrite Hlang. simpl bind. unfold whisperTranscribeBuffer.
      rewrite (large_buffer _ Hlarge), Hwav. simpl bind. rewrite Hwrite. simpl bind.
      rewrite Hcreate. simpl bind. rewrite Hexists, Hunlink. simpl. eauto 6.
    + rewrite Hlang. simpl. eauto 6.
    + rewrite Hlang. simpl bind. unfold deepgramTranscribeBuffer.
      rewrite Hcall. simpl. eauto 6.
    + rewrite Hlang. simpl bind. unfold deepgramTranscribeBuffer.
      rewrite Hcall. simpl bind. rewrite Herr. simpl. eauto 6.
    + rewrite Hconfig. simpl. eauto 6.
Qed.

(** *** Selecting a provider *)

Lemma setSTTProvider_accepts provider current :
  fst (setSTTProvider provider current) = Returns tt <->
  In (propertyName provider) (JsMap.keys STT_PROVIDERS).
Proof.
  unfold setSTTProvider.
  destruct (JsMap.get (propertyName provider) STT_PROVIDERS) as [id|] eqn:Hget.
  - assert (Hin : In (propertyName provider) (JsMap.keys STT_PROVIDERS)).
    { destruct (in_dec string_dec (propertyName provider) (JsMap.keys STT_PROVIDERS))
        as [H|H]; [exact H|].
      apply JsMapFacts.get_None_iff in H. congruence. }
    assert (Hid : truthy id = true).
    { simpl in Hin. destruct Hin as [E|[E|[E|[]]]]; rewrite <- E in Hget;
        vm_compute in Hget; injection Hget as <-; reflexivity. }
    rewrite Hid. simpl. tauto.
  - apply JsMapFacts.get_None_iff in Hget. simpl. split; [discriminate | contradiction].
Qed.

End SttProvidersFacts.

(** ** websocket.js *)

Module WebsocketFacts.
Import JsString JsStringFacts Websocket.
Local Open Scope list_scope.

(** *** Duplicate suppression *)

Lemma longerThan_spec a b tenths :
  longerThan a b tenths = true <->
  (10 * Z.of_nat (length a) > tenths * Z.of_nat (length b))%Z.
Proof. unfold longerThan. rewrite Z.ltb_lt. lia. Qed.

Lemma shorterThan_spec a b tenths :
  shorterThan a b tenths = true <->
  (10 * Z.of_nat (length a) < tenths * Z.of_nat (length b))%Z.
Proof. unfold shorterThan. apply Z.ltb_lt. Qed.

(** The four ways a new text differs from the last one, for a growth ratio
    [up] and a shrink ratio [down] in tenths. *)
Lemma different_spec newText lastText up down :
  negb (truthy lastText)
  || longerThan newText lastText up
  || shorterThan newText lastText down
  || (negb (includes newText lastText) && negb (includes lastText newText)) = true
  <->
  lastText = ""
  \/ (10 * Z.of_nat (length newText) > up * Z.of_nat (length lastText))%Z
  \/ (10 * Z.of_nat (length newText) < down * Z.of_nat (length lastText))%Z
  \/ (~ occursIn lastText newText /\ ~ occursIn newText lastText).
Proof.
  rewrite !orb_true_iff, andb_true_iff, !negb_true_iff.
  rewrite truthy_false_iff, longerThan_spec, shorterThan_spec, !includes_false_iff.
  tauto.
Qed.

(** *** The calls of the pipeline emit nothing *)

Lemma results_app e1 e2 : results (e1 ++ e2) = results e1 ++ results e2.
Proof. unfold results. apply flat_map_app. Qed.

Lemma emitted_app e1 e2 : emitted (e1 ++ e2) = emitted e1 ++ emitted e2.
Proof. unfold emitted. apply flat_map_app. Qed.

Lemma recognitionCalls_app e1 e2 :
  recognitionCalls (e1 ++ e2) = recognitionCalls e1 ++ recognitionCalls e2.
Proof. unfold recognitionCalls. apply flat_map_app. Qed.

Section Pipeline.
Variable C : Collaborators.

Lemma punctuateTranscript_quiet conn resultTranscript rawTranscript :
  emitted (snd (punctuateTranscript C conn resultTranscript rawTranscript)) = [] /\
  recognitionCalls (snd (punctuateTranscript C conn resultTranscript rawTranscript)) = [].
Proof.
  unfold punctuateTranscript.
  destruct (aiPunctuationEnabled conn); [|split; reflexivity].
  destruct (addPunctuation C resultTranscript (translationFrom conn) (punctuationStyle conn) false)
    as [|r]; [split; reflexivity|].
  destruct (processed r); split; reflexivity.
Qed.

Lemma punctuateTranslation_quiet conn translatedText :
  emitted (snd (punctuateTranslation C conn translatedText)) = [] /\
  recognitionCalls (snd (punctuateTranslation C conn translatedText)) = [].
Proof.
  unfold punctuateTranslation.
  destruct (addPunctuation C translatedText (translationTo conn) (punctuationStyle conn) true)
    as [|r]; [split; reflexivity|].
  destruct (processed r); split; reflexivity.
Qed.

Lemma translateInterim_quiet conn punctuatedTranscript :
  emitted (snd (translateInterim C conn punctuatedTranscript)) = [] /\
  recognitionCalls (snd (translateInterim C conn punctuatedTranscript)) = [].
Proof.
  unfold translateInterim.
  destruct (translateText C punctuatedTranscript (translationFrom conn) (translationTo conn))
    as [|reply]; [split; reflexivity|].
  destruct (match reply with
            | ReplyObject text failed => (orElse text punctuatedTranscript, failed)
            | ReplyString text => (orElse text punctuatedTranscript, false)
            | ReplyNull => (punctuatedTranscript, false)
            end) as [translatedText translationFailed].
  destruct (truthy translatedText && negb (translatedText =? punctuatedTranscript)%string
            && negb translationFailed && aiPunctuationEnabled conn); [|split; reflexivity].
  pose proof (punctuateTranslation_quiet conn translatedText) as [He Hr].
  destruct (punctuateTranslation C conn translatedText) as [text calls].
  simpl in *. split; assumption.
Qed.

Lemma translateFinal_quiet conn punctuatedTranscript :
  emitted (snd (translateFinal C conn punctuatedTranscript)) = [] /\
  recognitionCalls (snd (translateFinal C conn punctuatedTranscript)) = [].
Proof.
  unfold translateFinal.
  destruct (translateText C punctuatedTranscript (translationFrom conn) (translationTo conn))
    as [|reply]; [split; reflexivity|].
  set (translatedText := match reply with
                         | ReplyObject text _ => orElse text punctuatedTranscript
                         | ReplyString text => orElse text punctuatedTranscript
                         | ReplyNull => punctuatedTranscript
                         end).
  destruct (truthy translatedText && negb (translatedText =? punctuatedTranscript)%string
            && aiPunctuationEnabled conn); [|split; reflexivity].
  pose proof (punctuateTranslation_quiet conn translatedText) as [He Hr].
  destruct (punctuateTranslation C conn translatedText) as [text calls].
  simpl in *. split; assumption.
Qed.

Lemma results_of_emitted effects : emitted effects = [] -> results effects = [].
Proof.
  induction effects as [|[[]| | |] effects IH]; simpl; intro H;
    try discriminate; auto.
Qed.

Lemma truthy_trim_false text :
  blank text -> truthy text && truthy (trim text) = false.
Proof.
  intro H. apply trim_empty_iff in H. rewrite H. apply andb_false_r.
Qed.

Lemma truthy_trim_true text :
  truthy text && truthy (trim text) = true -> ~ blank text.
Proof.
  intros H Hb. rewrite (truthy_trim_false text Hb) in H. discriminate.
Qed.

(** Every [transcription-result] of an interim run comes from a recognised
    transcript that is not blank and passed both duplicate checks. *)
Lemma interim_result_origin clock provider conn r :
  In r (results (snd (processBatchTranscription C clock provider conn))) ->
  exists result,
    SttProviders.transcribeBuffer (backends C) provider (audioBuffer conn) (speechLanguage conn)
      = Returns result /\
    ~ blank (Recognition.transcript result) /\
    isSignificantlyDifferent (trim (Recognition.transcript result)) (lastTranscript conn) = true /\
    isFinal r = false.
Proof.
  unfold processBatchTranscription.
  destruct (Buffer.int16Array (audioBuffer conn)) as [|audioArray]; [intros []|].
  destruct (hasSound audioArray); simpl negb; cbv iota; [|intros []].
  destruct (SttProviders.transcribeBuffer (backends C) provider (audioBuffer conn)
              (speechLanguage conn)) as [|result]; [intros []|].
  destruct (truthy (Recognition.transcript result)
            && truthy (trim (Recognition.transcript result))) eqn:Htext; [|intros []].
  destruct (isSignificantlyDifferent (trim (Recognition.transcript result))
              (lastTranscript conn)) eqn:Hdiff; simpl negb; cbv iota; [|intros []].
  pose proof (punctuateTranscript_quiet conn (Recognition.transcript result)
                (trim (Recognition.transcript result))) as [Hq1 _].
  destruct (punctuateTranscript C conn (Recognition.transcript result)
              (trim (Recognition.transcript result))) as [punctuatedTranscript calls1].
  pose proof (translateInterim_quiet conn punctuatedTranscript) as [Hq2 _].
  destruct (translateInterim C conn punctuatedTranscript) as [punctuatedTranslation calls2].
  simpl snd in *. intro Hin.
  change (In r (results (calls1 ++ calls2 ++
            (if isTranslationDifferent punctuatedTranslation (lastTranslation conn)
             then [Emit (transcription_result
                           (mkTranscriptionResult punctuatedTranscript punctuatedTranslation
                              (confidenceOr (Recognition.confidence result))
                              false (atEmit clock) "Speaker" true))]
             else [])))) in Hin.
  rewrite !results_app, (results_of_emitted _ Hq1), (results_of_emitted _ Hq2) in Hin.
  simpl in Hin.
  destruct (isTranslationDifferent punctuatedTranslation (lastTranslation conn));
    simpl in Hin; [|contradiction].
  destruct Hin as [<-|[]]. exists result.
  split; [reflexivity|]. split; [now apply truthy_trim_true|].
  split; [assumption | reflexivity].
Qed.

(** The same for the final run of [stop-transcription]. *)
Lemma final_result_origin clock s conn r :
  clientConnection s = Some conn ->
  In r (results (snd (onStopTranscription C clock s))) ->
  exists result,
    SttProviders.transcribeBuffer (backends C) (currentProvider s)
      (audioBuffer conn) (speechLanguage conn) = Returns result /\
    ~ blank (Recognition.transcript result) /\
    isFinalDifferent (trim (Recognition.transcript result)) (lastTranscript conn) = true /\
    isFinal r = true.
Proof.
  intro Hconn. unfold onStopTranscription. rewrite Hconn.
  change (audioBuffer (setIsTranscribing false conn)) with (audioBuffer conn).
  change (speechLanguage (setIsTranscribing false conn)) with (speechLanguage conn).
  change (lastTranscript (setIsTranscribing false conn)) with (lastTranscript conn).
  destruct (0 <? Buffer.byteLength (audioBuffer conn))%Z; [|intros []].
  destruct (SttProviders.transcribeBuffer (backends C) (currentProvider s) (audioBuffer conn)
              (speechLanguage conn)) as [|result]; [intros []|].
  destruct (truthy (Recognition.transcript result)
            && truthy (trim (Recognition.transcript result))) eqn:Htext; [|intros []].
  destruct (isFinalDifferent (trim (Recognition.transcript result))
              (lastTranscript conn)) eqn:Hdiff; simpl negb; cbv iota; [|intros []].
  pose proof (punctuateTranscript_quiet (setIsTranscribing false conn)
                (Recognition.transcript result)
                (trim (Recognition.transcript result))) as [Hq1 _].
  destruct (punctuateTranscript C (setIsTranscribing false conn) (Recognition.transcript result)
              (trim (Recognition.transcript result))) as [punctuatedTranscript calls1].
  pose proof (translateFinal_quiet (setIsTranscribing false conn) punctuatedTranscript)
    as [Hq2 _].
  destruct (translateFinal C (setIsTranscribing false conn) punctuatedTranscript)
    as [punctuatedTranslation calls2].
  simpl snd in *. intro Hin.
  change (In r (results (calls1 ++ calls2 ++
            [Emit (transcription_result
                     (mkTranscriptionResult punctuatedTranscript punctuatedTranslation
                        (confidenceOr (Recognition.confidence result))
                        true (atEmit clock) "Speaker" true))]))) in Hin.
  rewrite !results_app, (results_of_emitted _ Hq1), (results_of_emitted _ Hq2) in Hin.
  simpl in Hin. destruct Hin as [<-|[]]. exists result.
  split; [reflexivity|]. split; [now apply truthy_trim_true|].
  split; [assumption | reflexivity].
Qed.

(** *** Silence *)

Lemma hasSound_false samples :
  Forall (fun sample => (Z.abs sample <= 100)%Z) samples -> hasSound samples = false.
Proof.
  unfold hasSound. induction 1 as [|sample samples Hs _ IH]; simpl; [reflexivity|].
  rewrite IH, orb_false_r. apply Z.ltb_ge. exact Hs.
Qed.

Lemma silent_run clock provider conn samples :
  Buffer.int16Array (audioBuffer conn) = Returns samples ->
  Forall (fun sample => (Z.abs sample <= 100)%Z) samples ->
  processBatchTranscription C clock provider conn =
  (setAudioBuffer [] (setLastTranscriptionTime (atMark clock) conn), []).
Proof.
  intros Hview Hquiet. unfold processBatchTranscription.
  rewrite Hview, (hasSound_false samples Hquiet). reflexivity.
Qed.

(** *** The [audio-data] handler *)

Lemma onAudioData_step now clock audioData s conn audioChunk :
  clientConnection s = Some conn ->
  isTranscribing conn = true ->
  Buffer.writeSamples (rangeErrorMessage C) audioData = Returns audioChunk ->
  onAudioData C now clock audioData s =
  let conn1 := setAudioBuffer (audioBuffer conn ++ audioChunk) conn in
  if shouldDispatch now conn1 then
    (mkServer (Some (fst (processBatchTranscription C clock (currentProvider s) conn1)))
       (currentProvider s),
     snd (processBatchTranscription C clock (currentProvider s) conn1))
  else (mkServer (Some conn1) (currentProvider s), []).
Proof.
  intros Hconn Hon Hchunk. unfold onAudioData. rewrite Hconn, Hon, Hchunk. simpl.
  destruct (shouldDispatch now (setAudioBuffer (audioBuffer conn ++ audioChunk) conn));
    [|reflexivity].
  destruct (processBatchTranscription C clock (currentProvider s)
              (setAudioBuffer (audioBuffer conn ++ audioChunk) conn)).
  reflexivity.
Qed.

(** An interim run asks for at most one recognition, of the whole buffer. *)
Lemma interim_recognitionCalls clock provider conn :
  recognitionCalls (snd (processBatchTranscription C clock provider conn)) = [] \/
  recognitionCalls (snd (processBatchTranscription C clock provider conn)) =
    [(audioBuffer conn, speechLanguage conn)].
Proof.
  unfold processBatchTranscription.
  destruct (Buffer.int16Array (audioBuffer conn)) as [|audioArray]; [left; reflexivity|].
  destruct (hasSound audioArray); simpl negb; cbv iota; [|left; reflexivity].
  right.
  destruct (SttProviders.transcribeBuffer (backends C) provider (audioBuffer conn)
              (speechLanguage conn)) as [|result]; [reflexivity|].
  destruct (truthy (Recognition.transcript result)
            && truthy (trim (Recognition.transcript result))); [|reflexivity].
  destruct (negb (isSignificantlyDifferent (trim (Recognition.transcript result))
                    (lastTranscript conn))); [reflexivity|].
  pose proof (punctuateTranscript_quiet conn (Recognition.transcript result)
                (trim (Recognition.transcript result))) as [_ Hq1].
  destruct (punctuateTranscript C conn (Recognition.transcript result)
              (trim (Recognition.transcript result))) as [punctuatedTranscript calls1].
  pose proof (translateInterim_quiet conn punctuatedTranscript) as [_ Hq2].
  destruct (translateInterim C conn punctuatedTranscript) as [punctuatedTranslation calls2].
  simpl snd in *.
  change (recognitionCalls (Transcribe (audioBuffer conn) (speechLanguage conn)
                              :: calls1 ++ calls2 ++ ?e))
    with ((audioBuffer conn, speechLanguage conn) :: recognitionCalls (calls1 ++ calls2 ++ e)).
  rewrite !recognitionCalls_app, Hq1, Hq2. simpl.
  destruct (isTranslationDifferent punctuatedTranslation (lastTranslation conn)); reflexivity.
Qed.

Lemma sound_run_calls clock provider conn samples :
  Buffer.int16Array (audioBuffer conn) = Returns samples ->
  hasSound samples = true ->
  recognitionCalls (snd (processBatchTranscription C clock provider conn)) =
    [(audioBuffer conn, speechLanguage conn)].
Proof.
  intros Hview Hsound.
  destruct (interim_recognitionCalls clock provider conn) as [H|H]; [|exact H].
  exfalso. revert H. unfold processBatchTranscription. rewrite Hview, Hsound.
  simpl negb. cbv iota.
  destruct (SttProviders.transcribeBuffer (backends C) provider (audioBuffer conn)
              (speechLanguage conn)) as [|result]; [discriminate|].
  destruct (truthy (Recognition.transcript result)
            && truthy (trim (Recognition.transcript result))); [|discriminate].
  destruct (negb (isSignificantlyDifferent (trim (Recognition.transcript result))
                    (lastTranscript conn))); [discriminate|].
  destruct (punctuateTranscript C conn (Recognition.transcript result)
              (trim (Recognition.transcript result))) as [punctuatedTranscript calls1].
  destruct (translateInterim C conn punctuatedTranscript) as [punctuatedTranslation calls2].
  discriminate.
Qed.

End Pipeline.

(** *** Frames of 16-bit samples *)

Lemma int16_round_trip value :
  Buffer.isInt16 value = true ->
  Buffer.readInt16LE (Z.land value 255) (Z.land (Z.shiftr value 8) 255) = value.
Proof.
  unfold Buffer.isInt16. rewrite andb_true_iff, !Z.leb_le. intros [Hlow Hhigh].
  change 255%Z with (Z.ones 8).
  rewrite !Z.land_ones, Z.shiftr_div_pow2 by lia.
  change (2 ^ 8)%Z with 256%Z. unfold Buffer.readInt16LE.
  destruct (Z.leb_spec 32768 (value mod 256 + 256 * ((value / 256) mod 256)));
    Z.div_mod_to_equations; lia.
Qed.

Lemma writeSamples_ok rangeError audioData :
  forallb Buffer.isInt16 audioData = true ->
  Buffer.writeSamples rangeError audioData = Returns (flat_map Buffer.int16LE audioData).
Proof.
  induction audioData as [|sample rest IH]; simpl; [reflexivity|].
  rewrite andb_true_iff. intros [Hs Hrest]. rewrite Hs, (IH Hrest). reflexivity.
Qed.

(** The view the silence check takes of a buffer written from samples gives
    the samples back. *)
Lemma int16Array_of_samples samples :
  forallb Buffer.isInt16 samples = true ->
  Buffer.int16Array (flat_map Buffer.int16LE samples) = Returns samples.
Proof.
  induction samples as [|sample rest IH]; simpl; [reflexivity|].
  rewrite andb_true_iff. intros [Hs Hrest].
  rewrite (IH Hrest). simpl. now rewrite int16_round_trip.
Qed.

Lemma keepRecent_tail buffer :
  (16000 < Buffer.byteLength buffer)%Z ->
  exists dropped,
    buffer = dropped ++ keepRecent buffer /\
    Buffer.byteLength (keepRecent buffer) = 16000%Z.
Proof.
  intro H. unfold keepRecent. apply Z.ltb_lt in H as Hb. rewrite Hb.
  unfold Buffer.sliceLast.
  exists (firstn (Z.to_nat (Buffer.byteLength buffer - 16000)) buffer). split.
  - symmetry. apply firstn_skipn.
  - unfold Buffer.byteLength in *. rewrite length_skipn. lia.
Qed.

(** *** The claims about the pipeline *)

(** C8. When no sample of the dispatched segment exceeds the silence
    threshold of 100 in absolute value, the run makes no recognition call and
    emits no event, and it resets the buffer and the dispatch time; the same
    holds for the [audio-data] handler whose frame completes such a segment. *)
Theorem silence_is_suppressed :
  forall C clock provider conn samples,
    Buffer.int16Array (audioBuffer conn) = Returns samples ->
    Forall (fun sample => (Z.abs sample <= 100)%Z) samples ->
    processBatchTranscription C clock provider conn =
      (setAudioBuffer [] (setLastTranscriptionTime (atMark clock) conn), []) /\
    results (snd (processBatchTranscription C clock provider conn)) = [] /\
    recognitionCalls (snd (processBatchTranscription C clock provider conn)) = [] /\
    audioBuffer (fst (processBatchTranscription C clock provider conn)) = [] /\
    lastTranscriptionTime (fst (processBatchTranscription C clock provider conn)) = atMark clock /\
    (forall now audioData s conn0,
        clientConnection s = Some conn0 ->
        isTranscribing conn0 = true ->
        forallb Buffer.isInt16 audioData = true ->
        conn = setAudioBuffer (audioBuffer conn0 ++ flat_map Buffer.int16LE audioData) conn0 ->
        provider = currentProvider s ->
        shouldDispatch now conn = true ->
        onAudioData C now clock audioData s =
          (mkServer (Some (setAudioBuffer [] (setLastTranscriptionTime (atMark clock) conn)))
             (currentProvider s), [])).
Proof.
  intros C clock provider conn samples Hview Hquiet.
  rewrite (silent_run C clock provider conn samples Hview Hquiet).
  repeat (split; [reflexivity|]).
  intros now audioData s conn0 Hconn Hon Hframe -> -> Hgo.
  rewrite (onAudioData_step C now clock audioData s conn0 _ Hconn Hon
             (writeSamples_ok _ audioData Hframe)).
  cbv zeta. rewrite Hgo.
  rewrite (silent_run C clock (currentProvider s) _ samples Hview Hquiet). reflexivity.
Qed.

Lemma silence_is_suppressed_witness :
  processBatchTranscription Samples.helloCollaborators Samples.runClock
    SttProviders.GOOGLE_SPEECH (Samples.session (Samples.pcm 100) "" "") =
    (setAudioBuffer [] (setLastTranscriptionTime 7001 (Samples.session (Samples.pcm 100) "" "")),
     []).
Proof.
  apply (silence_is_suppressed Samples.helloCollaborators Samples.runClock
           SttProviders.GOOGLE_SPEECH (Samples.session (Samples.pcm 100) "" "")
           (Samples.tone 100)).
  - apply int16Array_of_samples. vm_compute. reflexivity.
  - apply Forall_forall. intros sample Hin. apply repeat_spec in Hin. subst. simpl. lia.
Defined.

Lemma shouldDispatch_spec now conn :
  shouldDispatch now conn = true <->
  (32000 <= Buffer.byteLength (audioBuffer conn))%Z /\
  (1000 <= now - lastTranscriptionTime conn)%Z.
Proof.
  unfold shouldDispatch. cbv zeta. rewrite andb_true_iff, !Z.leb_le.
  change (16000 * 2)%Z with 32000%Z. tauto.
Qed.

(** *** Stopping *)

Lemma stop_events C clock s event :
  In event (emitted (snd (onStopTranscription C clock s))) ->
  event = transcription_error "Final transcription failed" \/
  exists r, event = transcription_result r.
Proof.
  unfold onStopTranscription.
  destruct (clientConnection s) as [conn|]; [|intros []].
  destruct (0 <? Buffer.byteLength (audioBuffer (setIsTranscribing false conn)))%Z;
    [|intros []].
  destruct (SttProviders.transcribeBuffer (backends C) (currentProvider s)
              (audioBuffer (setIsTranscribing false conn))
              (speechLanguage (setIsTranscribing false conn))) as [|result].
  { simpl. intros [<-|[]]. now left. }
  destruct (truthy (Recognition.transcript result)
            && truthy (trim (Recognition.transcript result))); [|intros []].
  destruct (negb (isFinalDifferent (trim (Recognition.transcript result))
                    (lastTranscript (setIsTranscribing false conn)))); [intros []|].
  pose proof (punctuateTranscript_quiet C (setIsTranscribing false conn)
                (Recognition.transcript result)
                (trim (Recognition.transcript result))) as [Hq1 _].
  destruct (punctuateTranscript C (setIsTranscribing false conn) (Recognition.transcript result)
              (trim (Recognition.transcript result))) as [punctuatedTranscript calls1].
  pose proof (translateFinal_quiet C (setIsTranscribing false conn) punctuatedTranscript)
    as [Hq2 _].
  destruct (translateFinal C (setIsTranscribing false conn) punctuatedTranscript)
    as [punctuatedTranslation calls2].
  simpl snd in *. intro Hin.
  change (In event (emitted (calls1 ++ calls2 ++
            [Emit (transcription_result
                     (mkTranscriptionResult punctuatedTranscript punctuatedTranslation
                        (confidenceOr (Recognition.confidence result))
                        true (atEmit clock) "Speaker" true))]))) in Hin.
  rewrite !emitted_app, Hq1, Hq2 in Hin. simpl in Hin.
  destruct Hin as [<-|[]]. right. eauto.
Qed.

(** What the [stop-transcription] handler does keep of the claim C2: with a
    buffer that is not empty it asks for exactly one recognition, of the whole
    buffer, the session stops transcribing, and a result it emits is final. *)
Lemma stop_runs_once C clock s conn :
  clientConnection s = Some conn ->
  (0 < Buffer.byteLength (audioBuffer conn))%Z ->
  recognitionCalls (snd (onStopTranscription C clock s)) =
    [(audioBuffer conn, speechLanguage conn)] /\
  option_map isTranscribing (clientConnection (fst (onStopTranscription C clock s)))
    = Some false /\
  (forall r, In r (results (snd (onStopTranscription C clock s))) -> isFinal r = true).
Proof.
  intros Hconn Hbuf. split; [|split].
  - unfold onStopTranscription. rewrite Hconn.
    change (audioBuffer (setIsTranscribing false conn)) with (audioBuffer conn).
    change (speechLanguage (setIsTranscribing false conn)) with (speechLanguage conn).
    apply Z.ltb_lt in Hbuf. rewrite Hbuf.
    destruct (SttProviders.transcribeBuffer (backends C) (currentProvider s)
                (audioBuffer conn) (speechLanguage conn)) as [|result]; [reflexivity|].
    destruct (truthy (Recognition.transcript result)
              && truthy (trim (Recognition.transcript result))); [|reflexivity].
    destruct (negb (isFinalDifferent (trim (Recognition.transcript result))
                      (lastTranscript (setIsTranscribing false conn)))); [reflexivity|].
    pose proof (punctuateTranscript_quiet C (setIsTranscribing false conn)
                  (Recognition.transcript result)
                  (trim (Recognition.transcript result))) as [_ Hq1].
    destruct (punctuateTranscript C (setIsTranscribing false conn)
                (Recognition.transcript result)
                (trim (Recognition.transcript result))) as [punctuatedTranscript calls1].
    pose proof (translateFinal_quiet C (setIsTranscribing false conn) punctuatedTranscript)
      as [_ Hq2].
    destruct (translateFinal C (setIsTranscribing false conn) punctuatedTranscript)
      as [punctuatedTranslation calls2].
    simpl snd in *.
    change (recognitionCalls (Transcribe (audioBuffer conn) (speechLanguage conn)
                                :: calls1 ++ calls2 ++ ?e))
      with ((audioBuffer conn, speechLanguage conn) :: recognitionCalls (calls1 ++ calls2 ++ e)).
    rewrite !recognitionCalls_app, Hq1, Hq2. reflexivity.
  - unfold onStopTranscription. rewrite Hconn.
    destruct (0 <? Buffer.byteLength (audioBuffer (setIsTranscribing false conn)))%Z;
      [|reflexivity].
    destruct (SttProviders.transcribeBuffer (backends C) (currentProvider s)
                (audioBuffer (setIsTranscribing false conn))
                (speechLanguage (setIsTranscribing false conn))) as [|result]; [reflexivity|].
    destruct (truthy (Recognition.transcript result)
              && truthy (trim (Recognition.transcript result))); [|reflexivity].
    destruct (negb (isFinalDifferent (trim (Recognition.transcript result))
                      (lastTranscript (setIsTranscribing false conn)))); [reflexivity|].
    destruct (punctuateTranscript C (setIsTranscribing false conn)
                (Recognition.transcript result)
                (trim (Recognition.transcript result))) as [punctuatedTranscript calls1].
    destruct (translateFinal C (setIsTranscribing false conn) punctuatedTranscript)
      as [punctuatedTranslation calls2].
    reflexivity.
  - intros r Hin.
    destruct (final_result_origin C clock s conn r Hconn Hin) as (_ & _ & _ & _ & H).
    exact H.
Qed.

(** The early return of the handler: a final transcript that repeats the last
    one leaves the handler before the buffer is cleared. *)
Lemma stop_on_duplicate C clock s conn result :
  clientConnection s = Some conn ->
  (0 < Buffer.byteLength (audioBuffer conn))%Z ->
  SttProviders.transcribeBuffer (backends C) (currentProvider s)
    (audioBuffer conn) (speechLanguage conn) = Returns result ->
  ~ blank (Recognition.transcript result) ->
  isFinalDifferent (trim (Recognition.transcript result)) (lastTranscript conn) = false ->
  onStopTranscription C clock s =
    (mkServer (Some (setIsTranscribing false conn)) (currentProvider s),
     [Transcribe (audioBuffer conn) (speechLanguage conn)]).
Proof.
  intros Hconn Hbuf Hcall Hnb Hdup. unfold onStopTranscription. rewrite Hconn.
  change (audioBuffer (setIsTranscribing false conn)) with (audioBuffer conn).
  change (speechLanguage (setIsTranscribing false conn)) with (speechLanguage conn).
  change (lastTranscript (setIsTranscribing false conn)) with (lastTranscript conn).
  apply Z.ltb_lt in Hbuf. rewrite Hbuf, Hcall, Hdup.
  assert (Htext : truthy (Recognition.transcript result)
                  && truthy (trim (Recognition.transcript result)) = true).
  { apply andb_true_iff. split; apply truthy_true_iff.
    - intro E. apply Hnb. rewrite E. constructor.
    - intro E. apply Hnb. now apply trim_empty_iff. }
  rewrite Htext. reflexivity.
Qed.

(** C2, on the code. The [stop-transcription] handler never emits
    [transcription-stopped], whatever the session and the collaborators. And
    when the final transcript repeats the last interim one, the handler
    returns before it clears the buffer: here the session stops with its
    32000 bytes still buffered after one recognition call, and nothing is
    emitted. *)
Theorem stop_is_not_acknowledged :
  (forall C clock s,
      ~ In transcription_stopped (emitted (snd (onStopTranscription C clock s)))) /\
  onStopTranscription Samples.helloCollaborators Samples.runClock
    (Samples.server (Samples.session (Samples.pcm 1000) "hello world" "<hello world>")) =
  (mkServer
     (Some (setIsTranscribing false
              (Samples.session (Samples.pcm 1000) "hello world" "<hello world>")))
     SttProviders.GOOGLE_SPEECH,
   [Transcribe (Samples.pcm 1000) "cs-CZ"]) /\
  Buffer.byteLength (Samples.pcm 1000) = 32000%Z.
Proof.
  split; [|split].
  - intros C clock s Hin. apply stop_events in Hin as [H|[r H]]; discriminate.
  - apply (stop_on_duplicate Samples.helloCollaborators Samples.runClock
             (Samples.server (Samples.session (Samples.pcm 1000) "hello world" "<hello world>"))
             (Samples.session (Samples.pcm 1000) "hello world" "<hello world>")
             (Recognition.mkResult "hello world" 0.95%Q "cs-CZ" None None)).
    + reflexivity.
    + vm_compute. reflexivity.
    + vm_compute. reflexivity.
    + intro H. apply trim_empty_iff in H. vm_compute in H. discriminate.
    + vm_compute. reflexivity.
  - vm_compute. reflexivity.
Qed.

(** *** Selecting the provider *)

(** The handler on an id the registry refuses: the error event lists the
    provider ids and the active provider stays. *)
Lemma rejected_provider C provider s message :
  fst (SttProviders.setSTTProvider provider (currentProvider s)) = Throws message ->
  snd (onSetSttProvider C provider s) =
    [Emit (stt_provider_error message ["google-speech"; "openai-whisper"; "deepgram-nova-3"])] /\
  currentProvider (fst (onSetSttProvider C provider s)) = currentProvider s.
Proof.
  unfold onSetSttProvider, SttProviders.setSTTProvider.
  destruct (JsMap.get (SttProviders.propertyName provider) SttProviders.STT_PROVIDERS)
    as [id|]; [destruct (truthy id)|]; simpl; intro H; try discriminate;
    injection H as <-; split; reflexivity.
Qed.

(** C4, on the code. ['deepgram-nova-3'] is a registered provider id, and
    [setSTTProvider] refuses it: upper-casing and replacing the first hyphen
    gives [DEEPGRAM_NOVA-3], which is not a property of [STT_PROVIDERS]. The
    session gets [stt-provider-error], whose list of valid ids contains the id
    just refused, and the active provider stays. The other two ids are
    accepted, in any letter case; so is the spelling ['deepgram-nova3'], which
    is not a registered id. *)
Theorem deepgram_provider_is_rejected :
  In "deepgram-nova-3" SttProviders.providerIds /\
  (forall C s,
      snd (onSetSttProvider C "deepgram-nova-3" s) =
        [Emit (stt_provider_error "Unknown STT provider: deepgram-nova-3"
                 ["google-speech"; "openai-whisper"; "deepgram-nova-3"])] /\
      currentProvider (fst (onSetSttProvider C "deepgram-nova-3" s)) = currentProvider s) /\
  (forall C s,
      currentProvider (fst (onSetSttProvider C "google-speech" s)) = "google-speech" /\
      currentProvider (fst (onSetSttProvider C "OpenAI-Whisper" s)) = "openai-whisper" /\
      currentProvider (fst (onSetSttProvider C "deepgram-nova3" s)) = "deepgram-nova-3").
Proof.
  split; [|split].
  - vm_compute. auto.
  - intros C s. apply rejected_provider. reflexivity.
  - intros C s. repeat split.
Qed.

(** *** A failed recognition call *)

(** C9. [transcribeBuffer] of the registry never rejects, whatever provider is
    active and whatever the backends do; and when the recognition call of the
    active provider fails (the buffer is refused, the language cannot be
    mapped, the temporary file cannot be written or removed, the request
    throws, the reply is malformed, or the backend reports an error) it
    resolves to a result with an empty transcript, confidence zero and the
    message of the failure as [error]. The interim run that made the call
    then ends without any event, and the session goes on transcribing. *)
Theorem recognition_failure_is_contained :
  forall B currentProvider buffer language,
    (exists result,
        SttProviders.transcribeBuffer B currentProvider buffer language
          = Returns result) /\
    (forall message,
        SttProviders.BackendFails B buffer language currentProvider message ->
        exists result,
          SttProviders.transcribeBuffer B currentProvider buffer language
            = Returns result /\
          Recognition.transcript result = "" /\
          Recognition.confidence result = 0%Q /\
          Recognition.error result = Some message) /\
    (forall C clock conn samples message,
        backends C = B ->
        audioBuffer conn = buffer ->
        speechLanguage conn = language ->
        Buffer.int16Array buffer = Returns samples ->
        SttProviders.BackendFails B buffer language currentProvider message ->
        emitted (snd (processBatchTranscription C clock currentProvider conn)) = [] /\
        isTranscribing (fst (processBatchTranscription C clock currentProvider conn))
          = isTranscribing conn).
Proof.
  intros B currentProvider buffer language.
  destruct (SttProvidersFacts.transcribeBuffer_failure B currentProvider buffer language)
    as [Htotal Hfail].
  split; [exact Htotal|]. split; [exact Hfail|].
  intros C clock conn samples message <- <- <- Hview Hbroken.
  destruct (Hfail message Hbroken) as (result & Hcall & Hempty & _).
  unfold processBatchTranscription. rewrite Hview.
  destruct (hasSound samples); simpl negb; cbv iota; [|split; reflexivity].
  rewrite Hcall, Hempty. split; reflexivity.
Qed.

Lemma recognition_failure_is_contained_witness :
  exists result,
    SttProviders.transcribeBuffer Samples.brokenBackends SttProviders.GOOGLE_SPEECH
      (Samples.pcm 1000) "cs-CZ" = Returns result /\
    Recognition.transcript result = "" /\
    Recognition.confidence result = 0%Q /\
    Recognition.error result = Some "timeout of 30000ms exceeded".
Proof.
  apply (proj1 (proj2 (recognition_failure_is_contained
                         Samples.brokenBackends SttProviders.GOOGLE_SPEECH
                         (Samples.pcm 1000) "cs-CZ"))).
  apply SttProviders.google_request_fails.
  - vm_compute. discriminate.
  - reflexivity.
Defined.

End WebsocketFacts.

(** ** translation.js: more on the cache *)

Module TranslationMoreFacts.
Import JsString JsMap Translation TranslationMore JsStringFacts JsMapFacts TranslationFacts.
Local Open Scope list_scope.

Lemma get_set_other {V} key other (v : V) (m : JsMap.t V) :
  other <> key -> get other (set key v m) = get other m.
Proof.
  intro Hne. induction m as [|[k w] m IH]; simpl.
  - destruct (String.eqb_spec key other); [congruence | reflexivity].
  - destruct (String.eqb_spec k key) as [E|E]; simpl.
    + subst k. destruct (String.eqb_spec key other); [congruence | reflexivity].
    + destruct (String.eqb_spec k other); [reflexivity | exact IH].
Qed.

Lemma get_delete_other {V} key other (m : JsMap.t V) :
  other <> key -> get other (delete key m) = get other m.
Proof.
  intro Hne. induction m as [|[k w] m IH]; simpl; [reflexivity|].
  destruct (String.eqb_spec k key) as [E|E]; simpl.
  - subst k. destruct (String.eqb_spec key other); [congruence | reflexivity].
  - destruct (String.eqb_spec k other); [reflexivity | exact IH].
Qed.

Lemma firstKey_keys {V} (m : JsMap.t V) k : firstKey m = Some k -> exists rest, keys m = k :: rest.
Proof.
  destruct m as [|[k0 w] m]; simpl; intro H; [discriminate|].
  injection H as <-. eauto.
Qed.

Lemma wf_tl {V} (m : JsMap.t V) : wf m -> wf (tl m).
Proof.
  unfold wf. destruct m as [|[k w] m]; simpl; intro H; [assumption|].
  now inversion H.
Qed.

Lemma wf_addToCache now key r (c : Cache) : wf c -> wf (addToCache now key r c).
Proof.
  intro H. unfold addToCache. apply wf_set.
  destruct (CACHE_MAX_SIZE <=? size c); [|assumption].
  rewrite delete_firstKey. now apply wf_tl.
Qed.

Lemma wf_getFromCache now key (c : Cache) : wf c -> wf (snd (getFromCache now key c)).
Proof.
  intro H. unfold getFromCache. destruct (get key c) as [cached|]; [|assumption].
  destruct (expired now cached); simpl; [now apply wf_delete | assumption].
Qed.

Lemma existsb_In (key : string) keys : existsb (String.eqb key) keys = true -> In key keys.
Proof.
  intro H. apply existsb_exists in H as (k & Hin & E).
  apply String.eqb_eq in E. now subst.
Qed.

(** X1. An insertion touches two keys at most: the inserted key, which a
    lookup then finds, and, when the cache was full, the oldest key, which is
    gone. The lookup of every other key is as before. *)
Theorem insertion_is_local :
  forall now key r (cache : Cache) other,
    wf cache ->
    other <> key ->
    get key (addToCache now key r cache) = Some (withCachedAt now r) /\
    (firstKey cache <> Some other \/ size cache < CACHE_MAX_SIZE ->
     get other (addToCache now key r cache) = get other cache) /\
    (firstKey cache = Some other -> CACHE_MAX_SIZE <= size cache ->
     get other (addToCache now key r cache) = None).
Proof.
  intros now key r cache other Hwf Hne. split; [apply get_addToCache_same|].
  unfold addToCache. rewrite (get_set_other key other _ _ Hne). split.
  - intros Hcase. destruct (CACHE_MAX_SIZE <=? size cache) eqn:Full; [|reflexivity].
    apply Nat.leb_le in Full. destruct Hcase as [Hfirst|Hsmall]; [|lia].
    destruct (firstKey cache) as [k|] eqn:Hk; [|reflexivity].
    apply get_delete_other. congruence.
  - intros Hfirst Hfull. apply Nat.leb_le in Hfull. rewrite Hfull, Hfirst.
    now apply get_delete_same.
Qed.

Lemma insertion_is_local_witness :
  get (MoreSamples.keyOfNumber 1000)
    (addToCache 5 (MoreSamples.keyOfNumber 1000) (Samples.sampleResult "1000")
       MoreSamples.fullCache)
    = Some (withCachedAt 5 (Samples.sampleResult "1000")) /\
  (firstKey MoreSamples.fullCache <> Some (MoreSamples.keyOfNumber 0)
   \/ size MoreSamples.fullCache < CACHE_MAX_SIZE ->
   get (MoreSamples.keyOfNumber 0)
     (addToCache 5 (MoreSamples.keyOfNumber 1000) (Samples.sampleResult "1000")
        MoreSamples.fullCache)
     = get (MoreSamples.keyOfNumber 0) MoreSamples.fullCache) /\
  (firstKey MoreSamples.fullCache = Some (MoreSamples.keyOfNumber 0) ->
   CACHE_MAX_SIZE <= size MoreSamples.fullCache ->
   get (MoreSamples.keyOfNumber 0)
     (addToCache 5 (MoreSamples.keyOfNumber 1000) (Samples.sampleResult "1000")
        MoreSamples.fullCache)
     = None).
Proof.
  apply (insertion_is_local 5 (MoreSamples.keyOfNumber 1000) (Samples.sampleResult "1000")
           MoreSamples.fullCache (MoreSamples.keyOfNumber 0)).
  - apply distinct_sound. vm_compute. reflexivity.
  - vm_compute. discriminate.
Defined.

(** X2. Writing a key that is already cached into a full cache still deletes
    the oldest entry first. If the key is not the oldest one, the cache ends
    one entry short of its capacity; if it is the oldest one, it is removed
    and inserted again, and so becomes the newest. *)
Theorem overwrite_when_full :
  forall now key r (cache : Cache),
    wf cache ->
    CACHE_MAX_SIZE <= size cache ->
    In key (keys cache) ->
    (firstKey cache <> Some key ->
     size (addToCache now key r cache) = size cache - 1 /\
     keys (addToCache now key r cache) = tl (keys cache)) /\
    (firstKey cache = Some key ->
     size (addToCache now key r cache) = size cache /\
     keys (addToCache now key r cache) = tl (keys cache) ++ [key]).
Proof.
  intros now key r cache Hwf Hfull Hin.
  assert (Hadd : addToCache now key r cache = set key (withCachedAt now r) (tl cache)).
  { unfold addToCache. apply Nat.leb_le in Hfull. rewrite Hfull.
    now rewrite delete_firstKey. }
  rewrite Hadd. split; intro Hfirst.
  - assert (Htl : In key (keys (tl cache))).
    { destruct cache as [|[k w] rest]; simpl in *; [contradiction|].
      destruct Hin as [E|H]; [subst; congruence | exact H]. }
    assert (Hk : keys (set key (withCachedAt now r) (tl cache)) = tl (keys cache)).
    { rewrite keys_set_old by assumption. apply keys_tl. }
    split; [|exact Hk].
    rewrite <- !size_keys, Hk. destruct (keys cache); simpl; lia.
  - assert (Htl : ~ In key (keys (tl cache))).
    { destruct cache as [|[k w] rest]; simpl in *; [contradiction|].
      injection Hfirst as ->. unfold wf in Hwf. simpl in Hwf. now inversion Hwf. }
    assert (Hk : keys (set key (withCachedAt now r) (tl cache)) = tl (keys cache) ++ [key]).
    { rewrite keys_set_new by assumption. now rewrite keys_tl. }
    split; [|exact Hk].
    rewrite <- !size_keys, Hk, length_app. simpl.
    destruct cache as [|[k w] rest]; simpl in *; [contradiction | lia].
Qed.

Lemma overwrite_when_full_witness :
  (firstKey MoreSamples.fullCache <> Some (MoreSamples.keyOfNumber 7) ->
   size (addToCache 5 (MoreSamples.keyOfNumber 7) (Samples.sampleResult "7")
           MoreSamples.fullCache)
     = size MoreSamples.fullCache - 1 /\
   keys (addToCache 5 (MoreSamples.keyOfNumber 7) (Samples.sampleResult "7")
           MoreSamples.fullCache)
     = tl (keys MoreSamples.fullCache)) /\
  (firstKey MoreSamples.fullCache = Some (MoreSamples.keyOfNumber 7) ->
   size (addToCache 5 (MoreSamples.keyOfNumber 7) (Samples.sampleResult "7")
           MoreSamples.fullCache)
     = size MoreSamples.fullCache /\
   keys (addToCache 5 (MoreSamples.keyOfNumber 7) (Samples.sampleResult "7")
           MoreSamples.fullCache)
     = tl (keys MoreSamples.fullCache) ++ [MoreSamples.keyOfNumber 7]).
Proof.
  apply (overwrite_when_full 5 (MoreSamples.keyOfNumber 7) (Samples.sampleResult "7")
           MoreSamples.fullCache).
  - apply distinct_sound. vm_compute. reflexivity.
  - vm_compute. repeat constructor.
  - apply existsb_In. vm_compute. reflexivity.
Defined.

(** *** Successive calls of [translateText] *)

Lemma translateText_step deepl clock text target st :
  wf (translationCache st) ->
  size (translationCache st) <= CACHE_MAX_SIZE ->
  let st' := snd (translateText deepl clock text target st) in
  wf (translationCache st') /\
  size (translationCache st') <= CACHE_MAX_SIZE /\
  translator st' = translator st /\
  backendCalls st <= backendCalls st' <= S (backendCalls st).
Proof.
  intros Hwf Hsize. unfold translateText.
  destruct (negb (translator st)); [simpl; repeat split; auto with arith|].
  destruct (negb (truthy text) || (length (trim text) =? 0));
    [simpl; repeat split; auto with arith|].
  pose proof (wf_getFromCache (atLookup clock) (getCacheKey text target) _ Hwf) as Hwf1.
  pose proof (getFromCache_size (atLookup clock) (getCacheKey text target)
                (translationCache st)) as Hsize1.
  destruct (getFromCache (atLookup clock) (getCacheKey text target) (translationCache st))
    as [[hit|] cache1]; simpl in Hwf1, Hsize1.
  - simpl. repeat split; auto with arith; lia.
  - destruct (deepl (backendCalls st) text target) as [message|translated]; simpl.
    + repeat split; auto with arith; lia.
    + repeat split; auto with arith.
      * now apply wf_addToCache.
      * apply addToCache_size. lia.
Qed.

(** X3. Whatever texts are translated one after the other, and whatever the
    backend answers, the cache keeps its keys unique and never exceeds
    [CACHE_MAX_SIZE]; the translator stays as it is; and the calls send at
    most one request each. *)
Theorem translate_calls_keep_the_cache :
  forall deepl calls st,
    wf (translationCache st) ->
    size (translationCache st) <= CACHE_MAX_SIZE ->
    wf (translationCache (translateAll deepl calls st)) /\
    size (translationCache (translateAll deepl calls st)) <= CACHE_MAX_SIZE /\
    translator (translateAll deepl calls st) = translator st /\
    backendCalls st <= backendCalls (translateAll deepl calls st)
      <= backendCalls st + List.length calls.
Proof.
  intros deepl calls. unfold translateAll.
  induction calls as [|call calls IH]; intros st Hwf Hsize; simpl.
  - repeat split; auto with arith; lia.
  - destruct (translateText_step deepl (callClock call) (callText call) (callTarget call)
                st Hwf Hsize) as (Hwf1 & Hsize1 & Htr1 & Hcalls1).
    destruct (IH _ Hwf1 Hsize1) as (Hwf2 & Hsize2 & Htr2 & Hcalls2).
    repeat split; try assumption; try congruence; lia.
Qed.

Lemma translate_calls_keep_the_cache_witness :
  let calls :=
    [mkCall Samples.sampleClock "Ahoj" "EN-US";
     mkCall Samples.laterClock " AHOJ " "EN-US";
     mkCall Samples.laterClock "Dobry den" "EN-US"] in
  wf (translationCache (translateAll Samples.echoDeepl calls Samples.readyState)) /\
  size (translationCache (translateAll Samples.echoDeepl calls Samples.readyState))
    <= CACHE_MAX_SIZE /\
  translator (translateAll Samples.echoDeepl calls Samples.readyState)
    = translator Samples.readyState /\
  backendCalls Samples.readyState
    <= backendCalls (translateAll Samples.echoDeepl calls Samples.readyState)
    <= backendCalls Samples.readyState + List.length calls.
Proof.
  apply (translate_calls_keep_the_cache Samples.echoDeepl).
  - constructor.
  - vm_compute. repeat constructor.
Defined.

(** X4. A text whose cache entry is older than the TTL is translated again:
    the call sends one request, resolves to the fresh translation with
    [fromCache = false], and stores it under the same key with the new time,
    as the newest entry of the cache. *)
Theorem expired_entry_is_refreshed :
  forall deepl clock text target st cached at_ translated,
    translator st = true ->
    trim text <> "" ->
    wf (translationCache st) ->
    get (getCacheKey text target) (translationCache st) = Some cached ->
    cachedAt cached = Some at_ ->
    (atLookup clock - at_ > CACHE_TTL)%Z ->
    deepl (backendCalls st) text target = Returns translated ->
    exists r st',
      translateText deepl clock text target st = (Returns (ResolvedObject r), st') /\
      translatedText r = translated /\
      fromCache r = false /\
      backendCalls st' = S (backendCalls st) /\
      get (getCacheKey text target) (translationCache st')
        = Some (withCachedAt (atStore clock) r) /\
      exists older, keys (translationCache st') = older ++ [getCacheKey text target].
Proof.
  intros deepl clock text target st cached at_ translated
         Hready Htext Hwf Hget Hat Hold Hok.
  unfold translateText. rewrite Hready. simpl negb. cbv iota.
  rewrite (nonblank_guard text Htext).
  unfold getFromCache. rewrite Hget. unfold expired. rewrite Hat.
  destruct (Z.ltb_spec CACHE_TTL (atLookup clock - at_)); [|lia].
  rewrite Hok. do 2 eexists. split; [reflexivity|]. simpl.
  split; [reflexivity|]. split; [reflexivity|]. split; [reflexivity|].
  split; [apply get_addToCache_same|].
  set (key := getCacheKey text target).
  set (cache1 := delete key (translationCache st)).
  assert (Hgone : ~ In key (keys cache1)).
  { apply get_None_iff. now apply get_delete_same. }
  unfold addToCache.
  destruct (CACHE_MAX_SIZE <=? size cache1).
  - rewrite delete_firstKey. exists (keys (tl cache1)).
    apply keys_set_new. rewrite keys_tl. intro Hin. apply Hgone.
    destruct (keys cache1); simpl in *; auto.
  - exists (keys cache1). now apply keys_set_new.
Qed.

Lemma expired_entry_is_refreshed_witness :
  exists r st',
    translateText Samples.echoDeepl MoreSamples.twoDaysLater "Ahoj" "EN-US"
      MoreSamples.staleState = (Returns (ResolvedObject r), st') /\
    translatedText r = "<Ahoj>" /\
    fromCache r = false /\
    backendCalls st' = S (backendCalls MoreSamples.staleState) /\
    get (getCacheKey "Ahoj" "EN-US") (translationCache st')
      = Some (withCachedAt (atStore MoreSamples.twoDaysLater) r) /\
    exists older, keys (translationCache st') = older ++ [getCacheKey "Ahoj" "EN-US"].
Proof.
  apply (expired_entry_is_refreshed Samples.echoDeepl MoreSamples.twoDaysLater "Ahoj" "EN-US"
           MoreSamples.staleState (withCachedAt 0 (Samples.sampleResult "Ahoj")) 0%Z
           "<Ahoj>"%string).
  - reflexivity.
  - vm_compute. discriminate.
  - apply distinct_sound. vm_compute. reflexivity.
  - reflexivity.
  - reflexivity.
  - vm_compute. reflexivity.
  - reflexivity.
Defined.

(** *** [translateBatch] *)

Lemma assign_at {A} (prefix : list (option A)) slot rest (value : A) :
  assign (List.length prefix) value (prefix ++ slot :: rest) = prefix ++ Some value :: rest.
Proof. induction prefix as [|p prefix IH]; simpl; [reflexivity | now rewrite IH]. Qed.

Lemma lookupTexts_cons clock target index text rest (cache : Cache) :
  lookupTexts clock target index (text :: rest) cache =
  let looked := getFromCache (lookupAt clock index) (getCacheKey text target) cache in
  let later := lookupTexts clock target (S index) rest (snd looked) in
  match fst looked with
  | Some hit =>
      (Some (markHit (hitStampAt clock index) hit) :: fst (fst (fst later)),
       snd (fst (fst later)), snd (fst later), snd later)
  | None =>
      (None :: fst (fst (fst later)), text :: snd (fst (fst later)),
       index :: snd (fst later), snd later)
  end.
Proof.
  simpl.
  destruct (getFromCache (lookupAt clock index) (getCacheKey text target) cache)
    as [cached cache1].
  simpl. destruct (lookupTexts clock target (S index) rest cache1) as [[[r n] i] c].
  destruct cached; reflexivity.
Qed.

(** The first loop: one slot per text, as many texts to translate as indices,
    and a cache that only lost entries. *)
Lemma lookupTexts_shape clock target texts : forall index (cache : Cache),
  let looked := lookupTexts clock target index texts cache in
  List.length (fst (fst (fst looked))) = List.length texts /\
  List.length (snd (fst (fst looked))) = List.length (snd (fst looked)) /\
  size (snd looked) <= size cache /\
  (wf cache -> wf (snd looked)).
Proof.
  induction texts as [|text rest IH]; intros index cache.
  - simpl. repeat split; auto.
  - cbv zeta. rewrite lookupTexts_cons. cbv zeta.
    pose proof (getFromCache_size (lookupAt clock index) (getCacheKey text target) cache)
      as Hsize.
    pose proof (wf_getFromCache (lookupAt clock index) (getCacheKey text target) cache)
      as Hwf.
    destruct (getFromCache (lookupAt clock index) (getCacheKey text target) cache)
      as [cached cache1].
    simpl fst in *. simpl snd in *.
    destruct (IH (S index) cache1) as (Hl & Hn & Hs & Hw).
    destruct cached; simpl; repeat split; auto; lia.
Qed.

Lemma nth_error_after {A} (done : list A) x rest n :
  List.length done = n -> nth_error (done ++ x :: rest) n = Some x.
Proof. intros <-. induction done as [|d done IH]; simpl; [reflexivity | exact IH]. Qed.

Lemma assign_after {A} (prefix : list (option A)) slot rest (value : A) n :
  List.length prefix = n ->
  assign n value (prefix ++ slot :: rest) = prefix ++ Some value :: rest.
Proof. intros <-. apply assign_at. Qed.

Lemma Forall2_map_l {A B C} (P : B -> C -> Prop) (g : A -> B) l l' :
  Forall2 (fun a c => P (g a) c) l l' -> Forall2 P (map g l) l'.
Proof. induction 1; simpl; constructor; assumption. Qed.

Lemma Forall2_length_eq {A B} (P : A -> B -> Prop) l l' :
  Forall2 P l l' -> List.length l = List.length l'.
Proof. induction 1; simpl; congruence. Qed.

(** An entry that is expired stays expired while the clock does not go
    back. *)
Lemma expired_later now later cached :
  expired now cached = true -> (now <= later)%Z -> expired later cached = true.
Proof.
  unfold expired. destruct (cachedAt cached) as [at_|]; [|discriminate].
  rewrite !Z.ltb_lt. lia.
Qed.

(** Two caches that give the same live entries from time [now] on still do
    after a lookup in the first one at that time. *)
Lemma lookup_keeps_live_entries now key (c cache0 : Cache) :
  wf c ->
  sameLiveEntries now c cache0 ->
  sameLiveEntries now (snd (getFromCache now key c)) cache0.
Proof.
  intros Hwf Hagree later k Hlater. rewrite <- (Hagree later k Hlater).
  unfold getFromCache at 2. destruct (get key c) as [cached|] eqn:Hget; [|reflexivity].
  destruct (expired now cached) eqn:Hexp; [|reflexivity]. simpl snd.
  unfold getFromCache. destruct (String.eqb_spec k key) as [->|Hne].
  - rewrite (get_delete_same key c Hwf), Hget, (expired_later now later cached Hexp Hlater).
    reflexivity.
  - rewrite (get_delete_other key k c Hne).
    destruct (get k c) as [other|]; [destruct (expired later other)|]; reflexivity.
Qed.

Lemma sameLiveEntries_later now later (c cache0 : Cache) :
  (now <= later)%Z -> sameLiveEntries now c cache0 -> sameLiveEntries later c cache0.
Proof. intros Hle H t k Ht. apply H. lia. Qed.

(** A lookup adds nothing to the cache and changes no entry. *)
Lemma lookup_adds_nothing now key (c : Cache) k cached :
  wf c -> get k (snd (getFromCache now key c)) = Some cached -> get k c = Some cached.
Proof.
  intro Hwf. unfold getFromCache. destruct (get key c) as [found|] eqn:Hget; [|auto].
  destruct (expired now found); [|auto]. simpl snd.
  destruct (String.eqb_spec k key) as [->|Hne].
  - now rewrite (get_delete_same key c Hwf).
  - now rewrite (get_delete_other key k c Hne).
Qed.

Lemma lookupTexts_adds_nothing clock target texts : forall index (cache : Cache) k cached,
  wf cache ->
  get k (snd (lookupTexts clock target index texts cache)) = Some cached ->
  get k cache = Some cached.
Proof.
  induction texts as [|text rest IH]; intros index cache k cached Hwf; [auto|].
  rewrite lookupTexts_cons. cbv zeta.
  pose proof (wf_getFromCache (lookupAt clock index) (getCacheKey text target) cache Hwf)
    as Hwf1.
  pose proof (lookup_adds_nothing (lookupAt clock index) (getCacheKey text target) cache
                k cached Hwf) as Hstep.
  destruct (getFromCache (lookupAt clock index) (getCacheKey text target) cache)
    as [found cache1]. simpl fst in *. simpl snd in *.
  destruct found; simpl snd; intro H; apply Hstep; now apply (IH (S index) cache1).
Qed.

Section Batches.

Variable clock : BatchClock.
Variable target : string.
Variable cache0 : Cache.

(** The clock does not go back between the lookups of a batch. *)
Hypothesis clock_goes_on :
  forall i j, i <= j -> (lookupAt clock i <= lookupAt clock j)%Z.

(** The first loop finds, for each text, the live entry of the cache before
    the call, and collects the texts without one. *)
Lemma lookupTexts_misses texts : forall index (cache : Cache),
  wf cache ->
  sameLiveEntries (lookupAt clock index) cache cache0 ->
  snd (fst (fst (lookupTexts clock target index texts cache)))
  = misses clock target cache0 index texts.
Proof.
  induction texts as [|text rest IH]; intros index cache Hwf Hsame; [reflexivity|].
  rewrite lookupTexts_cons. cbv zeta. simpl misses. unfold liveEntry.
  rewrite <- (Hsame (lookupAt clock index) (getCacheKey text target) (Z.le_refl _)).
  pose proof (wf_getFromCache (lookupAt clock index) (getCacheKey text target) cache Hwf)
    as Hwf1.
  pose proof (lookup_keeps_live_entries (lookupAt clock index) (getCacheKey text target)
                cache cache0 Hwf Hsame) as Hsame1.
  apply (sameLiveEntries_later _ (lookupAt clock (S index))) in Hsame1;
    [|apply clock_goes_on; lia].
  destruct (getFromCache (lookupAt clock index) (getCacheKey text target) cache)
    as [found cache1]. simpl fst in *. simpl snd in *.
  specialize (IH (S index) cache1 Hwf1 Hsame1).
  destruct found; simpl; now rewrite IH.
Qed.

Lemma markFailed_fills message texts :
  forall index (cache : Cache) prefix i,
    wf cache ->
    sameLiveEntries (lookupAt clock index) cache cache0 ->
    List.length prefix = index ->
    let looked := lookupTexts clock target index texts cache in
    exists filled,
      markFailed clock target message (snd (fst (fst looked))) (snd (fst looked)) i
        (prefix ++ fst (fst (fst looked))) = prefix ++ filled /\
      Forall2 (fun slot position =>
                 failedSlot clock target message cache0 (option_map ResolvedObject slot)
                   position)
        filled (combine (seq index (List.length texts)) texts).
Proof.
  induction texts as [|text rest IH]; intros index cache prefix i Hwf Hsame Hlen.
  - simpl. exists []. split; [reflexivity | constructor].
  - cbv zeta. rewrite lookupTexts_cons. cbv zeta.
    pose proof (Hsame (lookupAt clock index) (getCacheKey text target) (Z.le_refl _))
      as Hlive.
    pose proof (wf_getFromCache (lookupAt clock index) (getCacheKey text target) cache Hwf)
      as Hwf1.
    pose proof (lookup_keeps_live_entries (lookupAt clock index) (getCacheKey text target)
                  cache cache0 Hwf Hsame) as Hsame1.
    apply (sameLiveEntries_later _ (lookupAt clock (S index))) in Hsame1;
      [|apply clock_goes_on; lia].
    destruct (getFromCache (lookupAt clock index) (getCacheKey text target) cache)
      as [[hit|] cache1]; simpl fst in *; simpl snd in *.
    + destruct (IH (S index) cache1 (prefix ++ [Some (markHit (hitStampAt clock index) hit)]) i
                  Hwf1 Hsame1)
        as (filled & Heq & Hall).
      { rewrite length_app. simpl. lia. }
      cbv zeta in Heq. rewrite <- app_assoc in Heq. simpl in Heq.
      exists (Some (markHit (hitStampAt clock index) hit) :: filled). split.
      * rewrite Heq, <- app_assoc. reflexivity.
      * simpl. constructor; [|exact Hall].
        unfold failedSlot, liveEntry. rewrite <- Hlive. reflexivity.
    + subst index. simpl markFailed. rewrite assign_at.
      set (marker := mkResult text ("[Translation Error: " ++ message ++ "]")%string "cs"
                              target (Some message) (failedStampAt clock i) false None).
      destruct (IH (S (List.length prefix)) cache1 (prefix ++ [Some marker]) (S i)
                  Hwf1 Hsame1)
        as (filled & Heq & Hall).
      { rewrite length_app. simpl. lia. }
      cbv zeta in Heq. rewrite <- app_assoc in Heq. simpl in Heq.
      exists (Some marker :: filled). split.
      * transitivity ((prefix ++ [Some marker]) ++ filled); [exact Heq|].
        now rewrite <- app_assoc.
      * simpl. constructor; [|exact Hall].
        unfold failedSlot, liveEntry. rewrite <- Hlive.
        exists (failedStampAt clock i). reflexivity.
Qed.

Lemma storeFresh_fills f texts :
  forall index (cache : Cache) prefix doneTexts doneIndices i (c : Cache),
    wf cache ->
    sameLiveEntries (lookupAt clock index) cache cache0 ->
    List.length prefix = index ->
    List.length doneTexts = i ->
    List.length doneIndices = i ->
    let looked := lookupTexts clock target index texts cache in
    exists filled c',
      storeFresh clock target (doneTexts ++ snd (fst (fst looked)))
        (doneIndices ++ snd (fst looked)) i (map f (snd (fst (fst looked))))
        (prefix ++ fst (fst (fst looked))) c = (Returns tt, prefix ++ filled, c') /\
      Forall2 (fun slot position =>
                 translatedSlot clock target f cache0 (option_map ResolvedObject slot)
                   position)
        filled (combine (seq index (List.length texts)) texts).
Proof.
  induction texts as [|text rest IH];
    intros index cache prefix doneTexts doneIndices i c Hwf Hsame Hlen HdT HdI.
  - simpl. exists [], c. split; [reflexivity | constructor].
  - cbv zeta. rewrite lookupTexts_cons. cbv zeta.
    pose proof (Hsame (lookupAt clock index) (getCacheKey text target) (Z.le_refl _))
      as Hlive.
    pose proof (wf_getFromCache (lookupAt clock index) (getCacheKey text target) cache Hwf)
      as Hwf1.
    pose proof (lookup_keeps_live_entries (lookupAt clock index) (getCacheKey text target)
                  cache cache0 Hwf Hsame) as Hsame1.
    apply (sameLiveEntries_later _ (lookupAt clock (S index))) in Hsame1;
      [|apply clock_goes_on; lia].
    destruct (getFromCache (lookupAt clock index) (getCacheKey text target) cache)
      as [[hit|] cache1]; simpl fst in *; simpl snd in *.
    + destruct (IH (S index) cache1 (prefix ++ [Some (markHit (hitStampAt clock index) hit)])
                  doneTexts doneIndices i c Hwf1 Hsame1)
        as (filled & c' & Heq & Hall); try assumption.
      { rewrite length_app. simpl. lia. }
      cbv zeta in Heq. rewrite <- app_assoc in Heq. simpl in Heq.
      exists (Some (markHit (hitStampAt clock index) hit) :: filled), c'. split.
      * rewrite Heq, <- app_assoc. reflexivity.
      * simpl. constructor; [|exact Hall].
        unfold translatedSlot, liveEntry. rewrite <- Hlive. reflexivity.
    + rewrite map_cons. simpl storeFresh.
      rewrite (nth_error_after doneTexts text _ i HdT).
      rewrite (nth_error_after doneIndices index _ i HdI).
      rewrite (assign_after prefix None _ _ index Hlen).
      set (fresh := mkResult text (f text) "cs" target None (freshStampAt clock i) false None).
      destruct (IH (S index) cache1 (prefix ++ [Some fresh])
                  (doneTexts ++ [text]) (doneIndices ++ [index]) (S i)
                  (addToCache (storeAt clock i) (getCacheKey text target) fresh c)
                  Hwf1 Hsame1)
        as (filled & c' & Heq & Hall).
      { rewrite length_app. simpl. lia. }
      { rewrite length_app. simpl. lia. }
      { rewrite length_app. simpl. lia. }
      cbv zeta in Heq. rewrite <- !app_assoc in Heq. simpl in Heq.
      exists (Some fresh :: filled), c'. split.
      * rewrite Heq. reflexivity.
      * simpl. constructor; [|exact Hall].
        unfold translatedSlot, liveEntry. rewrite <- Hlive.
        exists (freshStampAt clock i). reflexivity.
Qed.

End Batches.

Lemma sameLiveEntries_refl now (cache : Cache) : sameLiveEntries now cache cache.
Proof. intros later key _. reflexivity. Qed.

(** X5. When the request of a batch fails, [translateBatch] still resolves to
    one entry per text, in order. With a clock that does not go back, the
    entry of a text is the translation the cache held for it before the call
    (the object stored under its key, marked as a hit) if that was not
    expired when its turn came; for every other text it is the error marker
    with that text as [originalText]. A request was sent exactly if some
    text had no live entry, and nothing was added to the cache or changed in
    it. *)
Theorem failed_batch_is_marked :
  forall deeplBatch clock texts target st message,
    translator st = true ->
    wf (translationCache st) ->
    (forall i j, i <= j -> (lookupAt clock i <= lookupAt clock j)%Z) ->
    (forall needTranslation,
        deeplBatch (backendCalls st) needTranslation target = Throws message) ->
    Forall2 (failedSlot clock target message (translationCache st))
      (fst (translateBatch deeplBatch clock texts target st)) (indexed texts) /\
    backendCalls (snd (translateBatch deeplBatch clock texts target st))
      = match misses clock target (translationCache st) 0 texts with
        | [] => backendCalls st
        | _ :: _ => S (backendCalls st)
        end /\
    (forall key cached,
        get key (translationCache (snd (translateBatch deeplBatch clock texts target st)))
          = Some cached ->
        get key (translationCache st) = Some cached).
Proof.
  intros deeplBatch clock texts target st message Hready Hwf Hclock Hfail.
  unfold translateBatch. rewrite Hready. simpl negb. cbv iota.
  destruct (markFailed_fills clock target (translationCache st) Hclock message texts 0
              (translationCache st) [] 0 Hwf (sameLiveEntries_refl _ _) eq_refl)
    as (filled & Heq & Hall).
  pose proof (lookupTexts_shape clock target texts 0 (translationCache st))
    as (Hlen & Hneed & _ & _).
  pose proof (lookupTexts_misses clock target (translationCache st) Hclock texts 0
                (translationCache st) Hwf (sameLiveEntries_refl _ _)) as Hmiss.
  pose proof (lookupTexts_adds_nothing clock target texts 0 (translationCache st)) as Hkeep.
  cbv zeta in Heq, Hlen, Hneed. simpl app in Heq.
  destruct (lookupTexts clock target 0 texts (translationCache st))
    as [[[results needTranslation] translationIndices] cache1].
  simpl fst in *. simpl snd in *. rewrite <- Hmiss.
  destruct (0 <? List.length needTranslation) eqn:Hsome.
  - rewrite Hfail. simpl. rewrite Heq.
    split; [now apply Forall2_map_l|]. split.
    + destruct needTranslation; [discriminate | reflexivity].
    + intros key cached. now apply Hkeep.
  - apply Nat.ltb_ge in Hsome. simpl.
    destruct needTranslation; [|simpl in Hsome; lia].
    destruct translationIndices; [|discriminate].
    simpl in Heq. rewrite Heq.
    split; [now apply Forall2_map_l|]. split; [reflexivity|].
    intros key cached. now apply Hkeep.
Qed.

Lemma failed_batch_is_marked_witness :
  let run :=
    translateBatch (fun _ _ _ => Throws "timeout") MoreSamples.batchClock
      ["Ahoj"; "Dobry den"] "EN-US" MoreSamples.staleState in
  Forall2 (failedSlot MoreSamples.batchClock "EN-US" "timeout"
             (translationCache MoreSamples.staleState))
    (fst run) (indexed ["Ahoj"; "Dobry den"]) /\
  backendCalls (snd run)
    = match misses MoreSamples.batchClock "EN-US" (translationCache MoreSamples.staleState)
              0 ["Ahoj"; "Dobry den"] with
      | [] => backendCalls MoreSamples.staleState
      | _ :: _ => S (backendCalls MoreSamples.staleState)
      end /\
  (forall key cached,
      get key (translationCache (snd run)) = Some cached ->
      get key (translationCache MoreSamples.staleState) = Some cached).
Proof.
  apply (failed_batch_is_marked (fun _ _ _ => Throws "timeout") MoreSamples.batchClock
           ["Ahoj"; "Dobry den"] "EN-US" MoreSamples.staleState "timeout").
  - reflexivity.
  - vm_compute. repeat constructor. intros [].
  - intros i j Hij. unfold MoreSamples.batchClock. cbn [lookupAt]. lia.
  - reflexivity.
Defined.

(** X6. When the backend answers a batch with one translation per text it was
    sent, [translateBatch] resolves to one entry per text, in order. With a
    clock that does not go back, the entry of a text is the translation the
    cache held for it before the call (the object stored under its key,
    marked as a hit) if that was not expired when its turn came; for every
    other text it is its fresh translation, with that text as [originalText]
    and no [error]. A request was sent exactly if some text had no live
    entry, and it asked for these texts, in order. *)
Theorem batch_is_translated_in_order :
  forall deeplBatch clock texts target st f,
    translator st = true ->
    wf (translationCache st) ->
    (forall i j, i <= j -> (lookupAt clock i <= lookupAt clock j)%Z) ->
    deeplBatch (backendCalls st) (misses clock target (translationCache st) 0 texts) target
      = Returns (map f (misses clock target (translationCache st) 0 texts)) ->
    Forall2 (translatedSlot clock target f (translationCache st))
      (fst (translateBatch deeplBatch clock texts target st)) (indexed texts) /\
    backendCalls (snd (translateBatch deeplBatch clock texts target st))
      = match misses clock target (translationCache st) 0 texts with
        | [] => backendCalls st
        | _ :: _ => S (backendCalls st)
        end.
Proof.
  intros deeplBatch clock texts target st f Hready Hwf Hclock Hok.
  unfold translateBatch. rewrite Hready. simpl negb. cbv iota.
  destruct (storeFresh_fills clock target (translationCache st) Hclock f texts 0
              (translationCache st) [] [] [] 0
              (snd (lookupTexts clock target 0 texts (translationCache st)))
              Hwf (sameLiveEntries_refl _ _) eq_refl eq_refl eq_refl)
    as (filled & c' & Heq & Hall).
  pose proof (lookupTexts_misses clock target (translationCache st) Hclock texts 0
                (translationCache st) Hwf (sameLiveEntries_refl _ _)) as Hmiss.
  cbv zeta in Heq. simpl app in Heq.
  destruct (lookupTexts clock target 0 texts (translationCache st))
    as [[[results needTranslation] translationIndices] cache1].
  simpl fst in *. simpl snd in *. rewrite <- Hmiss in *.
  destruct (0 <? List.length needTranslation) eqn:Hsome.
  - rewrite Hok, Heq. simpl.
    split; [now apply Forall2_map_l|].
    destruct needTranslation; [discriminate | reflexivity].
  - apply Nat.ltb_ge in Hsome. simpl.
    destruct needTranslation; [|simpl in Hsome; lia].
    simpl in Heq. injection Heq as <- _.
    split; [now apply Forall2_map_l | reflexivity].
Qed.

Lemma batch_is_translated_in_order_witness :
  let run :=
    translateBatch
      (fun _ texts _ => Returns (map (fun text => "<" ++ text ++ ">")%string texts))
      MoreSamples.batchClock ["Ahoj"; "Dobry den"; "ahoj "] "EN-US" MoreSamples.staleState in
  Forall2 (translatedSlot MoreSamples.batchClock "EN-US"
             (fun text => "<" ++ text ++ ">")%string
             (translationCache MoreSamples.staleState))
    (fst run) (indexed ["Ahoj"; "Dobry den"; "ahoj "]) /\
  backendCalls (snd run)
    = match misses MoreSamples.batchClock "EN-US" (translationCache MoreSamples.staleState)
              0 ["Ahoj"; "Dobry den"; "ahoj "] with
      | [] => backendCalls MoreSamples.staleState
      | _ :: _ => S (backendCalls MoreSamples.staleState)
      end.
Proof.
  apply (batch_is_translated_in_order
           (fun _ texts _ => Returns (map (fun text => "<" ++ text ++ ">")%string texts))
           MoreSamples.batchClock ["Ahoj"; "Dobry den"; "ahoj "] "EN-US"
           MoreSamples.staleState (fun text => "<" ++ text ++ ">")%string).
  - reflexivity.
  - vm_compute. repeat constructor. intros [].
  - intros i j Hij. unfold MoreSamples.batchClock. cbn [lookupAt]. lia.
  - reflexivity.
Defined.

Lemma assign_length {A} index (value : A) : forall array,
  index < List.length array -> List.length (assign index value array) = List.length array.
Proof.
  induction index as [|index IH]; intros [|slot rest]; simpl; intro H; try lia.
  rewrite IH; lia.
Qed.

Lemma lookupTexts_indices clock target texts : forall index (cache : Cache),
  Forall (fun k => k < index + List.length texts)
    (snd (fst (lookupTexts clock target index texts cache))).
Proof.
  induction texts as [|text rest IH]; intros index cache; [constructor|].
  rewrite lookupTexts_cons. cbv zeta.
  specialize (IH (S index) (snd (getFromCache (lookupAt clock index)
                                   (getCacheKey text target) cache))).
  assert (Hweak : Forall (fun k => k < index + List.length (text :: rest))
                    (snd (fst (lookupTexts clock target (S index) rest
                                 (snd (getFromCache (lookupAt clock index)
                                         (getCacheKey text target) cache)))))).
  { eapply Forall_impl; [|exact IH]. simpl. intros k Hk. lia. }
  destruct (fst (getFromCache (lookupAt clock index) (getCacheKey text target) cache));
    simpl; [exact Hweak|].
  constructor; [lia | exact Hweak].
Qed.

Lemma storeFresh_keeps clock target needTranslation translationIndices translated :
  forall i results (cache : Cache),
    Forall (fun k => k < List.length results) translationIndices ->
    let stored := storeFresh clock target needTranslation translationIndices i translated
                    results cache in
    List.length (snd (fst stored)) = List.length results /\
    (wf cache -> wf (snd stored)) /\
    (size cache <= CACHE_MAX_SIZE -> size (snd stored) <= CACHE_MAX_SIZE).
Proof.
  induction translated as [|text rest IH]; intros i results cache Hidx; simpl.
  - repeat split; auto.
  - destruct (nth_error needTranslation i) as [originalText|]; [|simpl; repeat split; auto].
    destruct (nth_error translationIndices i) as [originalIndex|] eqn:Hnth;
      [|simpl; repeat split; auto].
    assert (Hin : originalIndex < List.length results).
    { apply nth_error_In in Hnth. rewrite Forall_forall in Hidx. now apply Hidx. }
    set (fresh := mkResult originalText text "cs" target None (freshStampAt clock i) false None).
    destruct (IH (S i) (assign originalIndex fresh results)
                (addToCache (storeAt clock i) (getCacheKey originalText target) fresh cache))
      as (Hl & Hw & Hs).
    { now rewrite assign_length. }
    cbv zeta in Hl, Hw, Hs. rewrite assign_length in Hl by assumption.
    split; [exact Hl|]. split; intro H.
    + apply Hw. now apply wf_addToCache.
    + apply Hs. now apply addToCache_size.
Qed.

Lemma markFailed_length clock target message : forall translationIndices needTranslation i results,
  Forall (fun k => k < List.length results) translationIndices ->
  List.length (markFailed clock target message needTranslation translationIndices i results)
    = List.length results.
Proof.
  induction translationIndices as [|index indices IH];
    intros [|text texts] i results Hidx; simpl; try reflexivity.
  inversion Hidx as [|? ? Hk Hrest]; subst.
  rewrite IH; [now apply assign_length|].
  now rewrite assign_length.
Qed.

(** X7. [translateBatch] resolves to exactly one slot per text, whatever the
    backend does, also when it answers with too few or too many results; it
    sends at most one request; and it leaves the cache with unique keys and
    at most [CACHE_MAX_SIZE] entries. *)
Theorem batch_has_one_slot_per_text :
  forall deeplBatch clock texts target st,
    List.length (fst (translateBatch deeplBatch clock texts target st)) = List.length texts /\
    backendCalls st <= backendCalls (snd (translateBatch deeplBatch clock texts target st))
      <= S (backendCalls st) /\
    (wf (translationCache st) ->
     wf (translationCache (snd (translateBatch deeplBatch clock texts target st)))) /\
    (size (translationCache st) <= CACHE_MAX_SIZE ->
     size (translationCache (snd (translateBatch deeplBatch clock texts target st)))
       <= CACHE_MAX_SIZE).
Proof.
  intros deeplBatch clock texts target st. unfold translateBatch.
  destruct (negb (translator st)).
  { simpl. rewrite length_map. repeat split; auto with arith. }
  pose proof (lookupTexts_shape clock target texts 0 (translationCache st))
    as (Hlen & _ & Hsize & Hwf).
  pose proof (lookupTexts_indices clock target texts 0 (translationCache st)) as Hidx.
  cbv zeta in Hlen, Hsize, Hwf.
  destruct (lookupTexts clock target 0 texts (translationCache st))
    as [[[results needTranslation] translationIndices] cache1].
  simpl fst in *. simpl snd in *. rewrite <- Hlen in Hidx.
  destruct (0 <? List.length needTranslation).
  - destruct (deeplBatch (backendCalls st) needTranslation target)
      as [message|translated].
    + simpl. rewrite length_map, markFailed_length by assumption.
      repeat split; auto with arith. intro H. lia.
    + pose proof (storeFresh_keeps clock target needTranslation translationIndices
                    translated 0 results cache1 Hidx) as (Hl & Hw & Hs).
      cbv zeta in Hl, Hw, Hs.
      destruct (storeFresh clock target needTranslation translationIndices 0 translated
                  results cache1) as [[[message|u] results1] cache2];
        simpl fst in *; simpl snd in *.
      * rewrite length_map, markFailed_length by (now rewrite Hl).
        rewrite Hl. simpl. repeat split; auto with arith.
        intro H. apply Hs. lia.
      * rewrite length_map, Hl. simpl. repeat split; auto with arith.
        intro H. apply Hs. lia.
  - simpl. rewrite length_map. repeat split; auto with arith. intro H. lia.
Qed.

Lemma batch_has_one_slot_per_text_witness :
  let run :=
    translateBatch (fun _ texts _ => Returns (firstn 1 texts))
      MoreSamples.batchClock ["Ahoj"; "Dobry den"; "ahoj "] "EN-US" MoreSamples.staleState in
  List.length (fst run) = 3 /\
  wf (translationCache (snd run)) /\
  size (translationCache (snd run)) <= CACHE_MAX_SIZE.
Proof.
  pose proof (batch_has_one_slot_per_text (fun _ texts _ => Returns (firstn 1 texts))
                MoreSamples.batchClock ["Ahoj"; "Dobry den"; "ahoj "] "EN-US"
                MoreSamples.staleState) as (Hlen & _ & Hwf & Hsize).
  split; [exact Hlen|]. split.
  - apply Hwf. vm_compute. repeat constructor. intros [].
  - apply Hsize. vm_compute. repeat constructor.
Defined.

(** *** Statistics *)

(** X25. The statistics list the entries that are next in line for eviction.
    [getCacheStats] reports the ten oldest keys, the first of them being the
    key that the next insertion of a new key into a full cache deletes: after
    such an insertion the cache is still full and the report has moved on by
    one key. A lookup that hits changes nothing in the report. *)
Theorem statistics_list_the_oldest_entries :
  forall now key r (cache : Cache),
    wf cache ->
    size cache = CACHE_MAX_SIZE ->
    ~ In key (keys cache) ->
    hd_error (statsEntries (getCacheStats cache)) = firstKey cache /\
    statsEntries (getCacheStats (addToCache now key r cache)) = firstn 10 (tl (keys cache)) /\
    statsSize (getCacheStats (addToCache now key r cache)) = CACHE_MAX_SIZE /\
    (forall at_ other hit,
        fst (getFromCache at_ other cache) = Some hit ->
        getCacheStats (snd (getFromCache at_ other cache)) = getCacheStats cache).
Proof.
  intros now key r cache Hwf Hsize Hnew.
  destruct cache as [|[k v] rest]; [discriminate|].
  assert (Hrest : List.length (keys rest) = 999).
  { rewrite size_keys. unfold size in *. simpl in Hsize. unfold CACHE_MAX_SIZE in Hsize. lia. }
  assert (Hadd : addToCache now key r ((k, v) :: rest) = set key (withCachedAt now r) rest).
  { unfold addToCache. rewrite Hsize, Nat.leb_refl. simpl. now rewrite String.eqb_refl. }
  assert (Hkeys : keys (set key (withCachedAt now r) rest) = keys rest ++ [key]).
  { apply keys_set_new. intro Hin. apply Hnew. now right. }
  split; [reflexivity|]. split; [|split].
  - rewrite Hadd.
    change (firstn 10 (keys (set key (withCachedAt now r) rest)) = firstn 10 (keys rest)).
    rewrite Hkeys, firstn_app, Hrest.
    change (10 - 999) with 0. rewrite firstn_O. apply app_nil_r.
  - rewrite Hadd.
    change (size (set key (withCachedAt now r) rest) = CACHE_MAX_SIZE).
    rewrite <- size_keys, Hkeys, length_app, Hrest. reflexivity.
  - intros at_ other hit Hhit. unfold getFromCache in *.
    destruct (get other ((k, v) :: rest)) as [cached|]; [|discriminate].
    destruct (expired at_ cached); [discriminate | reflexivity].
Qed.

Lemma statistics_list_the_oldest_entries_witness :
  hd_error (statsEntries (getCacheStats MoreSamples.fullCache))
    = firstKey MoreSamples.fullCache /\
  statsEntries (getCacheStats
                  (addToCache 5000 (MoreSamples.keyOfNumber 1000)
                     (Samples.sampleResult (ofNat 1000)) MoreSamples.fullCache))
    = firstn 10 (tl (keys MoreSamples.fullCache)) /\
  statsSize (getCacheStats
               (addToCache 5000 (MoreSamples.keyOfNumber 1000)
                  (Samples.sampleResult (ofNat 1000)) MoreSamples.fullCache))
    = CACHE_MAX_SIZE.
Proof.
  pose proof (statistics_list_the_oldest_entries 5000 (MoreSamples.keyOfNumber 1000)
                (Samples.sampleResult (ofNat 1000)) MoreSamples.fullCache)
    as H.
  assert (Hwf : wf MoreSamples.fullCache).
  { apply distinct_sound. vm_compute. reflexivity. }
  assert (Hsize : size MoreSamples.fullCache = CACHE_MAX_SIZE) by (vm_compute; reflexivity).
  assert (Hnew : ~ In (MoreSamples.keyOfNumber 1000) (keys MoreSamples.fullCache)).
  { apply get_None_iff. vm_compute. reflexivity. }
  destruct (H Hwf Hsize Hnew) as (H1 & H2 & H3 & _).
  split; [exact H1|]. split; [exact H2 | exact H3].
Defined.

End TranslationMoreFacts.

(** ** stt-providers.js and the adapters: more *)

Module ConnectivityFacts.
Import JsString JsStringFacts Recognition SttProviders Connectivity SttProvidersFacts.
Local Open Scope list_scope.

(** *** The active provider *)

Lemma get_In_values {V} key (m : JsMap.t V) v :
  JsMap.get key m = Some v -> In v (map snd m).
Proof.
  induction m as [|[k w] m IH]; simpl; [discriminate|].
  destruct (k =? key)%string; intro H; [injection H as <-; now left | right; auto].
Qed.

Lemma setSTTProvider_registered provider current :
  In current providerIds -> In (snd (setSTTProvider provider current)) providerIds.
Proof.
  intro Hcur. unfold setSTTProvider.
  destruct (JsMap.get (propertyName provider) STT_PROVIDERS) as [id|] eqn:Hget;
    [|exact Hcur].
  destruct (truthy id); [|exact Hcur].
  simpl snd. now apply get_In_values in Hget.
Qed.

Lemma registered_has_config id :
  In id providerIds -> JsMap.get id PROVIDER_CONFIG <> None.
Proof.
  simpl. intros [<-|[<-|[<-|[]]]]; discriminate.
Qed.

(** X8. Starting from the default provider, whatever ids are requested and in
    whatever order, the active provider is always one of the three registered
    ids and has an entry in [PROVIDER_CONFIG]: [getProviderConfig] is never
    undefined, and [transcribeBuffer] always finds an adapter. *)
Theorem active_provider_is_registered :
  forall requests,
    In (switchAll requests GOOGLE_SPEECH) providerIds /\
    getProviderConfig (switchAll requests GOOGLE_SPEECH) <> None /\
    (switchAll requests GOOGLE_SPEECH = GOOGLE_SPEECH
     \/ switchAll requests GOOGLE_SPEECH = OPENAI_WHISPER
     \/ switchAll requests GOOGLE_SPEECH = DEEPGRAM_NOVA3).
Proof.
  intro requests.
  assert (Hreg : forall current, In current providerIds ->
                   In (switchAll requests current) providerIds).
  { unfold switchAll. induction requests as [|provider requests IH]; simpl; intros current H;
      [exact H|]. apply IH. now apply setSTTProvider_registered. }
  specialize (Hreg GOOGLE_SPEECH (or_introl eq_refl)).
  split; [exact Hreg|]. split; [now apply registered_has_config|].
  simpl in Hreg. destruct Hreg as [H|[H|[H|[]]]]; rewrite <- H; auto.
Qed.

(** *** Ids with two hyphens *)

Lemma occurrences_app c a b : occurrences c (a ++ b) = occurrences c a + occurrences c b.
Proof. induction a as [|d a IH]; simpl; [reflexivity | rewrite IH; lia]. Qed.

Lemma toUpperCase_cons c s :
  occurrences "-" (toUpperCase (String c s)) =
  (if Ascii.eqb c "-" then 1 else 0) + occurrences "-" (toUpperCase s).
Proof.
  destruct c as [[] [] [] [] [] [] [] []]; reflexivity.
Qed.

Lemma toUpperCase_hyphens s : occurrences "-" (toUpperCase s) = occurrences "-" s.
Proof.
  induction s as [|c s IH]; [reflexivity|].
  rewrite toUpperCase_cons. simpl. now rewrite IH.
Qed.

Lemma replace_hyphen s :
  occurrences "-" (replace s "-" "_") = occurrences "-" s - 1.
Proof.
  induction s as [|c s IH]; [reflexivity|].
  simpl replace. destruct (Ascii.eqb c "-") eqn:E.
  - apply Ascii.eqb_eq in E. subst c.
    change (startsWith s "") with true. simpl andb. cbv iota.
    unfold length. fold (length s). simpl.
    replace (length s - 0) with (length s) by lia.
    assert (Hsub : forall t, substring 0 (length t) t = t).
    { induction t; simpl; congruence. }
    rewrite Hsub. lia.
  - simpl andb. cbv iota. simpl occurrences. rewrite E, IH. simpl. reflexivity.
Qed.

Lemma property_names_have_no_hyphen key id :
  JsMap.get key STT_PROVIDERS = Some id -> occurrences "-" key = 0.
Proof.
  intro Hget.
  destruct (in_dec string_dec key (JsMap.keys STT_PROVIDERS)) as [Hin|Hout].
  - simpl in Hin. destruct Hin as [<-|[<-|[<-|[]]]]; reflexivity.
  - apply JsMapFacts.get_None_iff in Hout. congruence.
Qed.

(** X9. An id with two or more hyphens is always refused by [setSTTProvider],
    and the active provider stays: [replace('-', '_')] turns only the first
    hyphen into an underscore, and no property name of [STT_PROVIDERS]
    contains a hyphen. ['deepgram-nova-3'] is such an id. *)
Theorem two_hyphens_are_refused :
  forall provider currentProvider,
    2 <= occurrences "-" provider ->
    setSTTProvider provider currentProvider =
      (Throws ("Unknown STT provider: " ++ provider), currentProvider).
Proof.
  intros provider current Hcount. unfold setSTTProvider.
  destruct (JsMap.get (propertyName provider) STT_PROVIDERS) as [id|] eqn:Hget;
    [|reflexivity].
  exfalso. apply property_names_have_no_hyphen in Hget.
  unfold propertyName in Hget. rewrite replace_hyphen, toUpperCase_hyphens in Hget. lia.
Qed.

Lemma two_hyphens_are_refused_witness :
  setSTTProvider "deepgram-nova-3" OPENAI_WHISPER =
    (Throws "Unknown STT provider: deepgram-nova-3", OPENAI_WHISPER).
Proof.
  apply (two_hyphens_are_refused "deepgram-nova-3" OPENAI_WHISPER).
  vm_compute. repeat constructor.
Defined.

(** *** Connection tests *)

Lemma adapter_test_is_true {A} (body : outcome A) (handler : string -> A) :
  try_catch
    (_ <- try_catch body (fun message => Returns (handler message)) ;; Returns true)
    (fun _ => Returns false) = Returns true.
Proof. destruct body; reflexivity. Qed.

(** The tests of the two adapters, on any buffer. *)
Lemma google_test_any axiosPost buffer language :
  try_catch (_ <- googleTranscribeBuffer axiosPost buffer language ;; Returns true)
    (fun _ => Returns false) = Returns true.
Proof. unfold googleTranscribeBuffer. apply adapter_test_is_true. Qed.

Lemma whisper_test_any io buffer language :
  try_catch (_ <- whisperTranscribeBuffer io buffer language ;; Returns true)
    (fun _ => Returns false) = Returns true.
Proof. unfold whisperTranscribeBuffer. apply adapter_test_is_true. Qed.

Lemma google_test_is_true axiosPost : googleTestConnection axiosPost = Returns true.
Proof. exact (google_test_any axiosPost silence "en-US"). Qed.

Lemma whisper_test_is_true io : whisperTestConnection io = Returns true.
Proof. exact (whisper_test_any io silence "en"). Qed.

(** X10. [testConnection] of the registry never rejects. For Google Speech and
    for Whisper it resolves to [true] whatever the backend does, also when the
    request fails: their adapters catch the failure, so the test cannot see
    it. For a provider that is not configured it resolves to [false]. For
    Deepgram it resolves to [false] without a request when the API key is
    missing, empty or the placeholder. *)
Theorem connection_test_outcomes :
  forall E provider currentProvider,
    (exists connected, testConnection E provider currentProvider = Returns connected) /\
    (targetOf provider currentProvider = GOOGLE_SPEECH
     \/ targetOf provider currentProvider = OPENAI_WHISPER ->
     testConnection E provider currentProvider = Returns true) /\
    (JsMap.get (targetOf provider currentProvider) PROVIDER_CONFIG = None ->
     testConnection E provider currentProvider = Returns false) /\
    (targetOf provider currentProvider = DEEPGRAM_NOVA3 ->
     deepgramApiKey E = None \/ deepgramApiKey E = Some ""
     \/ deepgramApiKey E = Some "your_deepgram_api_key_here" ->
     testConnection E provider currentProvider = Returns false).
Proof.
  intros E provider current. split; [|split; [|split]].
  - unfold testConnection. apply try_catch_returns.
  - intros [H|H]; unfold testConnection;
      rewrite H, google_test_is_true, whisper_test_is_true; reflexivity.
  - intro H. unfold testConnection. rewrite H. reflexivity.
  - intros H Hkey. unfold testConnection.
    rewrite H, google_test_is_true, whisper_test_is_true.
    unfold validateApiKey. destruct Hkey as [-> | [-> | ->]]; reflexivity.
Qed.

Lemma connection_test_outcomes_witness :
  testConnection
    (mkEnvironment Samples.brokenBackends None (fun _ => Throws "unreachable"))
    None GOOGLE_SPEECH = Returns true.
Proof.
  apply (proj1 (proj2 (connection_test_outcomes
                         (mkEnvironment Samples.brokenBackends None
                            (fun _ => Throws "unreachable"))
                         None GOOGLE_SPEECH))).
  left. reflexivity.
Defined.

(** *** The WAV wrapper of whisper.js *)

Lemma uint32_round_trip n :
  (0 <= n <= 4294967295)%Z ->
  uint32LE (n mod 256) ((n / 256) mod 256) ((n / 65536) mod 256) ((n / 16777216) mod 256) = n.
Proof.
  intro H. unfold uint32LE. Z.div_mod_to_equations. lia.
Qed.

(** X11. [createWavFile] puts a 44-byte header in front of the samples and
    changes none of them: the result is 44 bytes longer, the samples follow
    the header as they were, the header starts with [RIFF], and its size
    fields read back as the data size plus 36 and the data size. It throws
    exactly when the file size does not fit 32 bits. *)
Theorem wav_wraps_the_samples :
  forall pcmBuffer,
    ((36 + Buffer.byteLength pcmBuffer <= 4294967295)%Z ->
     exists wav,
       createWavFile pcmBuffer = Returns wav /\
       List.length wav = 44 + List.length pcmBuffer /\
       skipn 44 wav = pcmBuffer /\
       firstn 4 wav = bytes "RIFF" /\
       readUInt32LE 4 wav = Returns (36 + Buffer.byteLength pcmBuffer)%Z /\
       readUInt32LE 24 wav = Returns 16000%Z /\
       readUInt32LE 40 wav = Returns (Buffer.byteLength pcmBuffer)) /\
    ((36 + Buffer.byteLength pcmBuffer > 4294967295)%Z ->
     createWavFile pcmBuffer = Throws "ERR_OUT_OF_RANGE").
Proof.
  intro pcmBuffer. unfold createWavFile, writeUInt32LE. cbv zeta.
  assert (Hpos : (0 <= Buffer.byteLength pcmBuffer)%Z) by (unfold Buffer.byteLength; lia).
  assert (Hlen : Z.of_nat (List.length pcmBuffer) = Buffer.byteLength pcmBuffer)
    by reflexivity.
  rewrite Hlen. clear Hlen.
  generalize dependent (Buffer.byteLength pcmBuffer). intros n Hpos.
  remember (36 + n)%Z as m eqn:Hm.
  split; intro Hfit.
  - destruct (Z.leb_spec m 4294967295); [|lia].
    destruct (Z.leb_spec n 4294967295); [|lia].
    eexists. split; [reflexivity|].
    split; [reflexivity|]. split; [reflexivity|]. split; [reflexivity|].
    split; [|split].
    + unfold readUInt32LE, le32. simpl skipn. cbv iota.
      now rewrite uint32_round_trip by lia.
    + reflexivity.
    + unfold readUInt32LE, le32. simpl skipn. cbv iota.
      now rewrite uint32_round_trip by lia.
  - destruct (Z.leb_spec m 4294967295); [lia | reflexivity].
Qed.

Lemma wav_wraps_the_samples_witness :
  exists wav,
    createWavFile [1; 2; 3; 4]%Z = Returns wav /\
    List.length wav = 44 + 4 /\
    skipn 44 wav = [1; 2; 3; 4]%Z /\
    firstn 4 wav = bytes "RIFF" /\
    readUInt32LE 4 wav = Returns 40%Z /\
    readUInt32LE 24 wav = Returns 16000%Z /\
    readUInt32LE 40 wav = Returns 4%Z.
Proof.
  apply (proj1 (wav_wraps_the_samples [1; 2; 3; 4]%Z)).
  vm_compute. discriminate.
Defined.

(** *** Trimmed transcripts *)

Lemma trimEnd_cons c s :
  trimEnd (String c s) =
  match trimEnd s with
  | EmptyString => if isWhiteSpace c then EmptyString else String c EmptyString
  | String d kept => String c (String d kept)
  end.
Proof. reflexivity. Qed.

Lemma trimEnd_idempotent s : trimEnd (trimEnd s) = trimEnd s.
Proof.
  induction s as [|c s IH]; [reflexivity|]. rewrite trimEnd_cons.
  destruct (trimEnd s) as [|d kept] eqn:Hs.
  - destruct (isWhiteSpace c) eqn:W; [reflexivity|].
    rewrite trimEnd_cons. simpl. now rewrite W.
  - rewrite trimEnd_cons, IH. reflexivity.
Qed.

Lemma trimEnd_keeps_head c s :
  isWhiteSpace c = false -> exists rest, trimEnd (String c s) = String c rest.
Proof.
  intro W. simpl. destruct (trimEnd s); [rewrite W|]; eauto.
Qed.

Lemma trimStart_head s :
  trimStart s = "" \/ exists c rest, trimStart s = String c rest /\ isWhiteSpace c = false.
Proof.
  induction s as [|c s IH]; [now left|]. simpl.
  destruct (isWhiteSpace c) eqn:W; [exact IH|]. right. eauto.
Qed.

Lemma trim_idempotent s : trim (trim s) = trim s.
Proof.
  unfold trim. destruct (trimStart_head s) as [E|(c & rest & E & W)]; rewrite E.
  - reflexivity.
  - destruct (trimEnd_keeps_head c rest W) as (kept & Hk).
    rewrite Hk. simpl trimStart. rewrite W. rewrite <- Hk. apply trimEnd_idempotent.
Qed.

(** X12. Trimming is idempotent, and the transcript that the Google adapter and
    the Whisper adapter resolve to is already trimmed, on every path: the
    [trim()] the pipeline applies to it changes nothing. *)
Theorem adapters_return_trimmed_text :
  (forall s, trim (trim s) = trim s) /\
  (forall axiosPost audioBuffer language result,
      googleTranscribeBuffer axiosPost audioBuffer language = Returns result ->
      trim (transcript result) = transcript result) /\
  (forall io audioBuffer language result,
      whisperTranscribeBuffer io audioBuffer language = Returns result ->
      trim (transcript result) = transcript result).
Proof.
  split; [exact trim_idempotent|]. split.
  - intros axiosPost audioBuffer language result. unfold googleTranscribeBuffer.
    destruct (Buffer.byteLength audioBuffer <? 16000)%Z.
    { simpl. intro H. injection H as <-. reflexivity. }
    destruct (axiosPost audioBuffer language) as [message|data].
    { simpl. intro H. injection H as <-. reflexivity. }
    destruct data as [[|[[|alternative more]|] rest]|]; simpl; intro H;
      injection H as <-; simpl; try reflexivity.
    apply trim_idempotent.
  - intros io audioBuffer language result. unfold whisperTranscribeBuffer.
    destruct (Buffer.byteLength audioBuffer <? 16000)%Z.
    { simpl. intro H. injection H as <-. reflexivity. }
    destruct (createWavFile audioBuffer) as [message|wav].
    { simpl. intro H. injection H as <-. reflexivity. }
    simpl bind. destruct (writeFileSync io wav) as [message|u].
    { simpl. intro H. injection H as <-. reflexivity. }
    simpl bind. destruct (transcriptionsCreate io wav language) as [message|transcription].
    { simpl. intro H. injection H as <-. reflexivity. }
    simpl bind.
    destruct (if existsSync io then unlinkSync io else Returns tt) as [message|u'].
    { simpl. intro H. injection H as <-. reflexivity. }
    simpl. intro H. injection H as <-. simpl.
    destruct (whisperText transcription) as [text|]; simpl; [|reflexivity].
    unfold orElse. destruct (truthy (trim text)); [apply trim_idempotent | reflexivity].
Qed.

Lemma adapters_return_trimmed_text_witness :
  trim (transcript (mkResult "hello world" 0.95%Q "cs-CZ" None None)) =
  transcript (mkResult "hello world" 0.95%Q "cs-CZ" None None).
Proof.
  apply (proj1 (proj2 adapters_return_trimmed_text)
           (fun _ _ => Returns (Some [Some [mkAlternative "  hello world " (Some 0.95%Q)]]))
           (Samples.pcm 1000) "cs-CZ").
  vm_compute. reflexivity.
Defined.

End ConnectivityFacts.

(** ** websocket.js: sequences of events *)

Module SessionsFacts.
Import JsString JsStringFacts Websocket Sessions WebsocketFacts.
Local Open Scope list_scope.

(** *** Buffers of whole samples *)

Lemma int16Array_pairs n : forall buffer,
  List.length buffer = 2 * n -> exists samples, Buffer.int16Array buffer = Returns samples.
Proof.
  induction n as [|n IH]; intros buffer Hlen.
  - destruct buffer; [|discriminate]. exists []. reflexivity.
  - destruct buffer as [|low [|high rest]]; simpl in Hlen; try lia.
    destruct (IH rest) as (samples & Hs); [lia|].
    exists (Buffer.readInt16LE low high :: samples). simpl. now rewrite Hs.
Qed.

Lemma even_buffer_has_view buffer :
  Z.even (Buffer.byteLength buffer) = true ->
  exists samples, Buffer.int16Array buffer = Returns samples.
Proof.
  intro H. apply Z.even_spec in H as [m Hm]. unfold Buffer.byteLength in Hm.
  apply (int16Array_pairs (Z.to_nat m)). lia.
Qed.

Lemma writeSamples_inv rangeError audioData chunk :
  Buffer.writeSamples rangeError audioData = Returns chunk ->
  forallb Buffer.isInt16 audioData = true /\
  chunk = flat_map Buffer.int16LE audioData /\
  List.length chunk = 2 * List.length audioData.
Proof.
  revert chunk. induction audioData as [|sample rest IH]; simpl; intros chunk H.
  - injection H as <-. repeat split.
  - destruct (Buffer.isInt16 sample); [|discriminate].
    destruct (Buffer.writeSamples rangeError rest) as [|tail]; [discriminate|].
    simpl in H. injection H as <-.
    destruct (IH tail eq_refl) as (Hall & Htail & Hlen).
    repeat split; [exact Hall | now rewrite Htail | simpl; lia].
Qed.

Lemma writeSamples_fails rangeError audioData value :
  Buffer.firstOutOfRange audioData = Some value ->
  Buffer.writeSamples rangeError audioData = Throws (rangeError value).
Proof.
  induction audioData as [|sample rest IH]; simpl; [discriminate|].
  destruct (Buffer.isInt16 sample); simpl.
  - intro H. now rewrite (IH H).
  - now intros [= <-].
Qed.

Lemma firstOutOfRange_spec audioData :
  match Buffer.firstOutOfRange audioData with
  | Some value => In value audioData /\ Buffer.isInt16 value = false
  | None => forallb Buffer.isInt16 audioData = true
  end.
Proof.
  induction audioData as [|sample rest IH]; simpl; [reflexivity|].
  destruct (Buffer.isInt16 sample) eqn:Hs; [|now split; [left|]].
  destruct (Buffer.firstOutOfRange rest); [|exact IH].
  destruct IH as [Hin Hout]. split; [now right | exact Hout].
Qed.

(** X13. A frame and its bytes: [audio-data] writes a frame of samples within
    the 16-bit range as two bytes per sample, and the view the silence check
    takes of these bytes gives the samples back. A frame with a sample
    outside the range is refused as a whole: the handler emits one
    [transcription-error], whose text ends with the message of the
    [RangeError] for the first such sample, and the session is as before. *)
Theorem frames_round_trip :
  forall C audioData,
    match Buffer.firstOutOfRange audioData with
    | None =>
        exists chunk,
          Buffer.writeSamples (rangeErrorMessage C) audioData = Returns chunk /\
          List.length chunk = 2 * List.length audioData /\
          Buffer.int16Array chunk = Returns audioData
    | Some value =>
        In value audioData /\
        Buffer.isInt16 value = false /\
        forall now clock s conn,
          clientConnection s = Some conn ->
          isTranscribing conn = true ->
          onAudioData C now clock audioData s =
            (s, [Emit (transcription_error
                         ("Audio processing failed: " ++ rangeErrorMessage C value))])
    end.
Proof.
  intros C audioData. pose proof (firstOutOfRange_spec audioData) as Hspec.
  destruct (Buffer.firstOutOfRange audioData) as [value|] eqn:Hfirst.
  - destruct Hspec as [Hin Hout]. split; [exact Hin|]. split; [exact Hout|].
    intros now clock s conn Hconn Hon. unfold onAudioData.
    rewrite Hconn, Hon, (writeSamples_fails _ audioData value Hfirst). reflexivity.
  - exists (flat_map Buffer.int16LE audioData).
    pose proof (writeSamples_ok (rangeErrorMessage C) audioData Hspec) as Hw.
    split; [exact Hw|]. split.
    + now destruct (writeSamples_inv _ _ _ Hw) as (_ & _ & Hlen).
    + now apply int16Array_of_samples.
Qed.

Lemma frames_round_trip_witness :
  onAudioData Samples.helloCollaborators 20 Samples.runClock [1; 40000; -70000]%Z
    (Samples.server (Samples.session [] "" "")) =
  (Samples.server (Samples.session [] "" ""),
   [Emit (transcription_error
            ("Audio processing failed: "
             ++ rangeErrorMessage Samples.helloCollaborators 40000))]).
Proof.
  apply (proj2 (proj2 (frames_round_trip Samples.helloCollaborators [1; 40000; -70000]%Z))
           20%Z Samples.runClock (Samples.server (Samples.session [] "" ""))
           (Samples.session [] "" "")); reflexivity.
Defined.

(** *** What the handlers leave alone *)

Section Handlers.
Variable C : Collaborators.
Variable L : Languages.

(** An interim run changes the buffer, the time and the two tracked texts,
    and nothing else; the buffer it leaves is empty, the old one, or its
    recent part. *)
Lemma interim_run_frame clock provider conn :
  let conn' := fst (processBatchTranscription C clock provider conn) in
  isTranscribing conn' = isTranscribing conn /\
  speechLanguage conn' = speechLanguage conn /\
  translationFrom conn' = translationFrom conn /\
  translationTo conn' = translationTo conn /\
  aiPunctuationEnabled conn' = aiPunctuationEnabled conn /\
  punctuationStyle conn' = punctuationStyle conn /\
  (audioBuffer conn' = [] \/ audioBuffer conn' = audioBuffer conn
   \/ audioBuffer conn' = keepRecent (audioBuffer conn)).
Proof.
  cbv zeta. unfold processBatchTranscription.
  destruct (Buffer.int16Array (audioBuffer conn)) as [|audioArray]; [simpl; tauto|].
  destruct (hasSound audioArray); simpl negb; cbv iota; [|simpl; tauto].
  destruct (SttProviders.transcribeBuffer (backends C) provider (audioBuffer conn)
              (speechLanguage conn)) as [|result]; [simpl; tauto|].
  destruct (truthy (Recognition.transcript result)
            && truthy (trim (Recognition.transcript result))); [|simpl; tauto].
  destruct (negb (isSignificantlyDifferent (trim (Recognition.transcript result))
                    (lastTranscript conn))); [simpl; tauto|].
  destruct (punctuateTranscript C conn (Recognition.transcript result)
              (trim (Recognition.transcript result))) as [punctuatedTranscript calls1].
  destruct (translateInterim C conn punctuatedTranscript) as [punctuatedTranslation calls2].
  simpl. tauto.
Qed.

Lemma keepRecent_even buffer :
  Z.even (Buffer.byteLength buffer) = true ->
  Z.even (Buffer.byteLength (keepRecent buffer)) = true.
Proof.
  intro H. destruct (Z.ltb_spec 16000 (Buffer.byteLength buffer)) as [Hlong|Hshort].
  - destruct (keepRecent_tail buffer Hlong) as (_ & _ & Hlen). now rewrite Hlen.
  - unfold keepRecent. apply Z.ltb_ge in Hshort. now rewrite Hshort.
Qed.

Lemma errors_app o1 o2 : errors (o1 ++ o2) = errors o1 ++ errors o2.
Proof. unfold errors. apply flat_map_app. Qed.

Lemma errors_of_emitted effects : emitted effects = [] -> errors (map Pipeline effects) = [].
Proof.
  induction effects as [|[[]| | |] effects IH]; simpl; intro H;
    try discriminate; auto.
Qed.

(** With a buffer of whole samples an interim run reports no error. *)
Lemma interim_run_no_error clock provider conn :
  Z.even (Buffer.byteLength (audioBuffer conn)) = true ->
  errors (map Pipeline (snd (processBatchTranscription C clock provider conn))) = [].
Proof.
  intro Heven. unfold processBatchTranscription.
  destruct (even_buffer_has_view _ Heven) as (audioArray & ->).
  destruct (hasSound audioArray); simpl negb; cbv iota; [|reflexivity].
  destruct (SttProvidersFacts.transcribeBuffer_failure (backends C) provider
              (audioBuffer conn) (speechLanguage conn)) as [(result & ->) _].
  destruct (truthy (Recognition.transcript result)
            && truthy (trim (Recognition.transcript result))); [|reflexivity].
  destruct (negb (isSignificantlyDifferent (trim (Recognition.transcript result))
                    (lastTranscript conn))); [reflexivity|].
  pose proof (punctuateTranscript_quiet C conn (Recognition.transcript result)
                (trim (Recognition.transcript result))) as [Hq1 _].
  destruct (punctuateTranscript C conn (Recognition.transcript result)
              (trim (Recognition.transcript result))) as [punctuatedTranscript calls1].
  pose proof (translateInterim_quiet C conn punctuatedTranscript) as [Hq2 _].
  destruct (translateInterim C conn punctuatedTranscript) as [punctuatedTranslation calls2].
  simpl snd in *.
  change (errors (map Pipeline (calls1 ++ calls2 ++
            (if isTranslationDifferent punctuatedTranslation (lastTranslation conn)
             then [Emit (transcription_result
                           (mkTranscriptionResult punctuatedTranscript punctuatedTranslation
                              (confidenceOr (Recognition.confidence result))
                              false (atEmit clock) "Speaker" true))]
             else []))) = []).
  rewrite !map_app, !errors_app, (errors_of_emitted _ Hq1), (errors_of_emitted _ Hq2).
  destruct (isTranslationDifferent punctuatedTranslation (lastTranslation conn)); reflexivity.
Qed.

(** The [stop-transcription] handler reports no error either, and leaves the
    session not transcribing, with the buffer emptied or untouched. *)
Lemma stop_frame clock s conn :
  clientConnection s = Some conn ->
  let s' := fst (onStopTranscription C clock s) in
  errors (map Pipeline (snd (onStopTranscription C clock s))) = [] /\
  currentProvider s' = currentProvider s /\
  exists conn',
    clientConnection s' = Some conn' /\
    isTranscribing conn' = false /\
    speechLanguage conn' = speechLanguage conn /\
    translationFrom conn' = translationFrom conn /\
    translationTo conn' = translationTo conn /\
    punctuationStyle conn' = punctuationStyle conn /\
    (audioBuffer conn' = [] \/ audioBuffer conn' = audioBuffer conn).
Proof.
  intro Hconn. cbv zeta. unfold onStopTranscription. rewrite Hconn.
  change (audioBuffer (setIsTranscribing false conn)) with (audioBuffer conn).
  change (speechLanguage (setIsTranscribing false conn)) with (speechLanguage conn).
  change (lastTranscript (setIsTranscribing false conn)) with (lastTranscript conn).
  destruct (0 <? Buffer.byteLength (audioBuffer conn))%Z;
    [|simpl; split; [reflexivity|]; split; [reflexivity|]; eexists; split; [reflexivity|];
      simpl; tauto].
  destruct (SttProvidersFacts.transcribeBuffer_failure (backends C) (currentProvider s)
              (audioBuffer conn) (speechLanguage conn)) as [(result & ->) _].
  destruct (truthy (Recognition.transcript result)
            && truthy (trim (Recognition.transcript result)));
    [|simpl; split; [reflexivity|]; split; [reflexivity|]; eexists; split; [reflexivity|];
      simpl; tauto].
  destruct (negb (isFinalDifferent (trim (Recognition.transcript result))
                    (lastTranscript conn)));
    [simpl; split; [reflexivity|]; split; [reflexivity|]; eexists; split; [reflexivity|];
     simpl; tauto|].
  pose proof (punctuateTranscript_quiet C (setIsTranscribing false conn)
                (Recognition.transcript result)
                (trim (Recognition.transcript result))) as [Hq1 _].
  destruct (punctuateTranscript C (setIsTranscribing false conn) (Recognition.transcript result)
              (trim (Recognition.transcript result))) as [punctuatedTranscript calls1].
  pose proof (translateFinal_quiet C (setIsTranscribing false conn) punctuatedTranscript)
    as [Hq2 _].
  destruct (translateFinal C (setIsTranscribing false conn) punctuatedTranscript)
    as [punctuatedTranslation calls2].
  simpl snd in *. simpl fst. split.
  - change (errors (map Pipeline (calls1 ++ calls2 ++
              [Emit (transcription_result
                       (mkTranscriptionResult punctuatedTranscript punctuatedTranslation
                          (confidenceOr (Recognition.confidence result))
                          true (atEmit clock) "Speaker" true))])) = []).
    now rewrite !map_app, !errors_app, (errors_of_emitted _ Hq1), (errors_of_emitted _ Hq2).
  - split; [reflexivity|]. eexists. split; [reflexivity|]. simpl. tauto.
Qed.

End Handlers.

(** *** The state of a session *)

Lemma accepted_valid valid value code :
  accepted valid value = Some code -> valid code = true.
Proof.
  destruct value as [c|]; simpl; [|discriminate].
  destruct (truthy c); simpl; [|discriminate].
  destruct (valid c) eqn:H; [|discriminate]. now intros [= <-].
Qed.

Lemma byteLength_app a b :
  Buffer.byteLength (a ++ b) = (Buffer.byteLength a + Buffer.byteLength b)%Z.
Proof. unfold Buffer.byteLength. rewrite length_app. lia. Qed.

Lemma chunk_even rangeError audioData chunk :
  Buffer.writeSamples rangeError audioData = Returns chunk ->
  Z.even (Buffer.byteLength chunk) = true.
Proof.
  intro H. destruct (writeSamples_inv _ _ _ H) as (_ & _ & Hlen).
  unfold Buffer.byteLength. rewrite Hlen, Nat2Z.inj_mul. now rewrite Z.even_mul.
Qed.

Lemma errors_configuration events : errors (map Configuration events) = [].
Proof. induction events; simpl; auto. Qed.

Section Runs.
Variable C : Collaborators.
Variable L : Languages.

Lemma set_languages_sound config s :
  Sound L s -> Sound L (fst (onSetLanguages L config s)).
Proof.
  intros [Hp Hb Hs Hl Hf Ht]. unfold onSetLanguages.
  destruct (clientConnection s) as [conn|] eqn:Hconn;
    [destruct config as [config|]|]; simpl;
    try (constructor; rewrite ?Hconn; assumption).
  specialize (Hb _ eq_refl). specialize (Hs _ eq_refl). specialize (Hl _ eq_refl).
  specialize (Hf _ eq_refl). specialize (Ht _ eq_refl).
  destruct (accepted (isValidSpeechLanguage L) (configSpeechLanguage config)) eqn:E1,
           (accepted (isValidTranslationLanguage L) (configTranslationFrom config)) eqn:E2,
           (accepted (isValidTranslationLanguage L) (configTranslationTo config)) eqn:E3;
    simpl; constructor; simpl; try assumption; intros c [= <-]; simpl;
    try assumption; right; eapply accepted_valid; eassumption.
Qed.

Lemma set_punctuation_sound config s :
  Sound L s -> Sound L (fst (onSetPunctuationPreferences config s)).
Proof.
  intros [Hp Hb Hs Hl Hf Ht]. unfold onSetPunctuationPreferences.
  destruct (clientConnection s) as [conn|] eqn:Hconn;
    [destruct config as [config|]|]; cbn [fst];
    try (constructor; rewrite ?Hconn; assumption).
  specialize (Hb _ eq_refl). specialize (Hs _ eq_refl). specialize (Hl _ eq_refl).
  specialize (Hf _ eq_refl). specialize (Ht _ eq_refl).
  destruct (configEnabled config) as [flag|];
    destruct (accepted (fun style => existsb (String.eqb style) punctuationStyles)
                (configStyle config)) as [style|] eqn:E;
    try (apply accepted_valid in E; apply TranslationMoreFacts.existsb_In in E);
    constructor; try assumption; intros c Hc; simpl in Hc; injection Hc as <-; assumption.
Qed.

Lemma set_provider_sound provider s :
  Sound L s -> Sound L (fst (onSetSttProvider C provider s)).
Proof.
  intros [Hp Hb Hs Hl Hf Ht]. unfold onSetSttProvider.
  pose proof (ConnectivityFacts.setSTTProvider_registered provider _ Hp) as Hreg.
  destruct (SttProviders.setSTTProvider provider (currentProvider s)) as [[message|u] current];
    simpl in *; constructor; simpl; assumption.
Qed.

Lemma start_sound now s : Sound L s -> Sound L (fst (onStartTranscription now s)).
Proof.
  intros [Hp Hb Hs Hl Hf Ht]. unfold onStartTranscription.
  destruct (clientConnection s) as [conn|] eqn:Hconn; cbn [fst];
    [|constructor; rewrite ?Hconn; assumption].
  specialize (Hs _ eq_refl). specialize (Hl _ eq_refl).
  specialize (Hf _ eq_refl). specialize (Ht _ eq_refl).
  constructor; try assumption; intros c Hc; simpl in Hc; injection Hc as <-;
    first [assumption | reflexivity].
Qed.

Lemma interim_run_sound clock s conn :
  Sound L s ->
  clientConnection s = Some conn ->
  forall buffer,
    Z.even (Buffer.byteLength buffer) = true ->
    Sound L (mkServer
               (Some (fst (processBatchTranscription C clock (currentProvider s)
                             (setAudioBuffer buffer conn))))
               (currentProvider s)).
Proof.
  intros [Hp Hb Hs Hl Hf Ht] Hconn buffer Heven.
  destruct (interim_run_frame C clock (currentProvider s) (setAudioBuffer buffer conn))
    as (_ & Hl' & Hf' & Ht' & _ & Hs' & Hbuf).
  constructor; try assumption; intros c Hc; cbn [clientConnection] in Hc;
    injection Hc as <-.
  - destruct Hbuf as [-> | [-> | ->]]; [reflexivity | exact Heven |].
    now apply keepRecent_even.
  - rewrite Hs'. exact (Hs _ Hconn).
  - rewrite Hl'. exact (Hl _ Hconn).
  - rewrite Hf'. exact (Hf _ Hconn).
  - rewrite Ht'. exact (Ht _ Hconn).
Qed.

Lemma audio_data_sound now clock audioData s :
  Sound L s -> Sound L (fst (onAudioData C now clock audioData s)).
Proof.
  intro Hsound. unfold onAudioData.
  destruct (clientConnection s) as [conn|] eqn:Hconn; [|exact Hsound].
  destruct (isTranscribing conn); simpl negb; cbv iota; [|exact Hsound].
  destruct (Buffer.writeSamples (rangeErrorMessage C) audioData) as [message|audioChunk] eqn:Hw;
    [exact Hsound|].
  assert (Heven : Z.even (Buffer.byteLength (audioBuffer conn ++ audioChunk)) = true).
  { rewrite byteLength_app, Z.even_add, (bufferEven L s Hsound conn Hconn),
      (chunk_even _ _ _ Hw). reflexivity. }
  destruct (shouldDispatch now (setAudioBuffer (audioBuffer conn ++ audioChunk) conn)).
  - pose proof (interim_run_sound clock s conn Hsound Hconn _ Heven) as H.
    destruct (processBatchTranscription C clock (currentProvider s)
                (setAudioBuffer (audioBuffer conn ++ audioChunk) conn)) as [conn2 effects].
    exact H.
  - destruct Hsound as [Hp Hb Hs Hl Hf Ht].
    specialize (Hs _ Hconn). specialize (Hl _ Hconn).
    specialize (Hf _ Hconn). specialize (Ht _ Hconn).
    constructor; try assumption; intros c Hc; simpl in Hc; injection Hc as <-; assumption.
Qed.

Lemma stop_sound clock s : Sound L s -> Sound L (fst (onStopTranscription C clock s)).
Proof.
  intro Hsound.
  destruct (clientConnection s) as [conn|] eqn:Hconn.
  - destruct (stop_frame C clock s conn Hconn)
      as (_ & Hprov & conn' & Hconn' & _ & Hl' & Hf' & Ht' & Hs' & Hbuf).
    destruct Hsound as [Hp Hb Hs Hl Hf Ht].
    constructor; try (rewrite Hprov; assumption);
      intros c Hc; rewrite Hconn' in Hc; injection Hc as <-.
    + destruct Hbuf as [-> | ->]; [reflexivity | exact (Hb _ Hconn)].
    + rewrite Hs'. exact (Hs _ Hconn).
    + rewrite Hl'. exact (Hl _ Hconn).
    + rewrite Hf'. exact (Hf _ Hconn).
    + rewrite Ht'. exact (Ht _ Hconn).
  - unfold onStopTranscription. rewrite Hconn. exact Hsound.
Qed.

Lemma handle_sound input s : Sound L s -> Sound L (fst (handle C L input s)).
Proof.
  intro Hsound. destruct input; simpl.
  - pose proof (set_languages_sound config s Hsound) as H.
    now destruct (onSetLanguages L config s).
  - pose proof (set_provider_sound provider s Hsound) as H.
    now destruct (onSetSttProvider C provider s).
  - pose proof (set_punctuation_sound config s Hsound) as H.
    now destruct (onSetPunctuationPreferences config s).
  - pose proof (start_sound now s Hsound) as H.
    now destruct (onStartTranscription now s).
  - pose proof (audio_data_sound now clock audioData s Hsound) as H.
    now destruct (onAudioData C now clock audioData s).
  - unfold onUnusableAudioData. destruct (clientConnection s) as [conn|]; [|exact Hsound].
    destruct (negb (isTranscribing conn)); exact Hsound.
  - pose proof (stop_sound clock s Hsound) as H.
    now destruct (onStopTranscription C clock s).
  - destruct Hsound as [Hp Hb Hs Hl Hf Ht]. constructor; simpl; try assumption; discriminate.
Qed.

Lemma connected_sound : Sound L connected.
Proof.
  constructor; try (intros c Hc; injection Hc as <-); simpl; auto.
Qed.

Lemma run_sound inputs : forall s, Sound L s -> Sound L (fst (run C L inputs s)).
Proof.
  induction inputs as [|input rest IH]; intros s Hsound; [exact Hsound|].
  simpl. pose proof (handle_sound input s Hsound) as H1.
  destruct (handle C L input s) as [s1 outputs1]. specialize (IH s1 H1).
  now destruct (run C L rest s1).
Qed.

End Runs.

(** *** Frames outside a session *)

Lemma idle_run C L frames : forall s,
  (forall input, In input frames ->
     exists now clock audioData, input = AudioData now clock audioData) ->
  (forall conn, clientConnection s = Some conn -> isTranscribing conn = false) ->
  run C L frames s = (s, []).
Proof.
  induction frames as [|input rest IH]; intros s Hframes Hidle; [reflexivity|].
  destruct (Hframes input (or_introl eq_refl)) as (now & clock & audioData & ->).
  simpl. unfold onAudioData.
  destruct (clientConnection s) as [conn|] eqn:Hconn.
  - rewrite (Hidle conn eq_refl). simpl.
    rewrite (IH s); [reflexivity | | now rewrite Hconn].
    intros input Hin. apply Hframes. now right.
  - rewrite (IH s); [reflexivity | | now rewrite Hconn].
    intros input Hin. apply Hframes. now right.
Qed.

(** X16. Audio frames that arrive outside a session are dropped without a
    trace: right after the connection, after [stop-transcription] (also when
    that handler returned before clearing the buffer) and after [disconnect],
    any number of [audio-data] events leaves the state as it is, emits nothing
    and calls no backend. *)
Theorem frames_outside_a_session_are_dropped :
  forall C L frames s,
    (forall input, In input frames ->
       exists now clock audioData, input = AudioData now clock audioData) ->
    (s = connected
     \/ (exists clock s0, s = fst (onStopTranscription C clock s0))
     \/ (exists s0, s = fst (onDisconnect s0))) ->
    run C L frames s = (s, []).
Proof.
  intros C L frames s Hframes Hstate. apply idle_run; [exact Hframes|].
  destruct Hstate as [-> | [(clock & s0 & ->) | (s0 & ->)]].
  - intros conn [= <-]. reflexivity.
  - destruct (clientConnection s0) as [conn0|] eqn:Hconn0.
    + destruct (stop_frame C clock s0 conn0 Hconn0) as (_ & _ & conn' & Hconn' & Hoff & _).
      intros conn Hconn. rewrite Hconn' in Hconn. now injection Hconn as <-.
    + unfold onStopTranscription. rewrite Hconn0. simpl. intros conn Hconn.
      rewrite Hconn0 in Hconn. discriminate.
  - intros conn. discriminate.
Qed.

Lemma frames_outside_a_session_are_dropped_witness :
  run Samples.helloCollaborators
      (mkLanguages (fun _ => true) (fun _ => true) (fun code _ => code))
      [AudioData 5 Samples.runClock [1; 2; 3]%Z; AudioData 9 Samples.runClock [40000]%Z]
      connected
  = (connected, []).
Proof.
  apply frames_outside_a_session_are_dropped.
  - intros input [<- | [<- | []]]; eauto.
  - left. reflexivity.
Defined.

(** *** Interim results *)



Lemma keepRecent_short buffer : (Buffer.byteLength (keepRecent buffer) <= 16000)%Z.
Proof.
  destruct (Z.ltb_spec 16000 (Buffer.byteLength buffer)) as [Hlong|Hshort].
  - destruct (keepRecent_tail buffer Hlong) as (_ & _ & Hlen). lia.
  - unfold keepRecent. rewrite (proj2 (Z.ltb_ge _ _) Hshort). exact Hshort.
Qed.

Lemma confidenceOr_nonzero c : Qeq_bool (confidenceOr c) 0 = false.
Proof.
  unfold confidenceOr. destruct (Qeq_bool c 0) eqn:H; [reflexivity | exact H].
Qed.

(** *** Punctuation switched off *)








(** *** Failed recognition calls *)

(** X20. When the final recognition call of [stop-transcription] fails, the
    handler emits nothing, not even an error: the session stops, the buffer
    is cleared and the audio is lost. The Google adapter refuses every buffer
    under 16000 bytes, so with Google Speech active a remainder shorter than
    that never gives a final result. *)
Theorem failed_final_recognition_is_silent :
  forall C clock s conn,
    clientConnection s = Some conn ->
    (0 < Buffer.byteLength (audioBuffer conn))%Z ->
    (forall message,
        SttProviders.BackendFails (backends C) (audioBuffer conn) (speechLanguage conn)
          (currentProvider s) message ->
        onStopTranscription C clock s =
          (mkServer (Some (setAudioBuffer [] (setIsTranscribing false conn))) (currentProvider s),
           [Transcribe (audioBuffer conn) (speechLanguage conn)])) /\
    (currentProvider s = SttProviders.GOOGLE_SPEECH ->
     (Buffer.byteLength (audioBuffer conn) < 16000)%Z ->
     onStopTranscription C clock s =
       (mkServer (Some (setAudioBuffer [] (setIsTranscribing false conn))) (currentProvider s),
        [Transcribe (audioBuffer conn) (speechLanguage conn)])).
Proof.
  intros C clock s conn Hconn Hbuf.
  assert (Hfail : forall message,
             SttProviders.BackendFails (backends C) (audioBuffer conn) (speechLanguage conn)
               (currentProvider s) message ->
             onStopTranscription C clock s =
               (mkServer (Some (setAudioBuffer [] (setIsTranscribing false conn)))
                  (currentProvider s),
                [Transcribe (audioBuffer conn) (speechLanguage conn)])).
  { intros message Hbroken.
    destruct (SttProvidersFacts.transcribeBuffer_failure (backends C) (currentProvider s)
                (audioBuffer conn) (speechLanguage conn)) as [_ Hresult].
    destruct (Hresult message Hbroken) as (result & Hcall & Hempty & _).
    unfold onStopTranscription. rewrite Hconn.
    change (audioBuffer (setIsTranscribing false conn)) with (audioBuffer conn).
    change (speechLanguage (setIsTranscribing false conn)) with (speechLanguage conn).
    apply Z.ltb_lt in Hbuf. rewrite Hbuf, Hcall, Hempty. reflexivity. }
  split; [exact Hfail|].
  intros Hgoogle Hsmall. apply (Hfail (Recognition.tooSmall (List.length (audioBuffer conn)))).
  rewrite Hgoogle. now apply SttProviders.google_too_small.
Qed.

Lemma failed_final_recognition_is_silent_witness :
  onStopTranscription Samples.helloCollaborators Samples.runClock
    (Samples.server (Samples.session [1; 0; 2; 0]%Z "" "")) =
  (mkServer (Some (setAudioBuffer [] (setIsTranscribing false
                                        (Samples.session [1; 0; 2; 0]%Z "" ""))))
     SttProviders.GOOGLE_SPEECH,
   [Transcribe [1; 0; 2; 0]%Z "cs-CZ"]).
Proof.
  apply (proj2 (failed_final_recognition_is_silent Samples.helloCollaborators Samples.runClock
                  (Samples.server (Samples.session [1; 0; 2; 0]%Z "" ""))
                  (Samples.session [1; 0; 2; 0]%Z "" "") eq_refl eq_refl)).
  - reflexivity.
  - reflexivity.
Defined.

Lemma int16Array_app a : forall samples b more,
  Buffer.int16Array a = Returns samples ->
  Buffer.int16Array b = Returns more ->
  Buffer.int16Array (a ++ b) = Returns (samples ++ more).
Proof.
  assert (H : forall n a, List.length a <= n -> forall samples b more,
             Buffer.int16Array a = Returns samples ->
             Buffer.int16Array b = Returns more ->
             Buffer.int16Array (a ++ b) = Returns (samples ++ more)).
  { induction n as [|n IH]; intros a0 Hlen samples b more Ha Hb.
    - destruct a0; [|simpl in Hlen; lia]. simpl in Ha. injection Ha as <-. exact Hb.
    - destruct a0 as [|low [|high rest]].
      + simpl in Ha. injection Ha as <-. exact Hb.
      + discriminate.
      + simpl in Ha. destruct (Buffer.int16Array rest) as [|tail] eqn:Hrest; [discriminate|].
        simpl in Ha. injection Ha as <-.
        change (Buffer.int16Array ((low :: high :: rest) ++ b))
          with (bind (Buffer.int16Array (rest ++ b))
                  (fun samples => Returns (Buffer.readInt16LE low high :: samples))).
        rewrite (IH rest) with (samples := tail) (more := more); auto.
        simpl in Hlen. lia. }
  intros samples b more. apply (H (List.length a) a). lia.
Qed.

Lemma hasSound_app a b : hasSound (a ++ b) = hasSound a || hasSound b.
Proof. unfold hasSound. apply existsb_app. Qed.

(** X21. A failed recognition call is retried with more audio. When the call
    of a dispatched interim run fails, the run leaves the session exactly as
    the frame made it: the buffer is not cleared and the time of the last
    transcription is not moved. So the next frame, whenever it arrives, is
    dispatched too, and its recognition call gets the whole buffer again with
    the new frame at its end: as long as the backend fails, the buffer only
    grows. *)
Theorem failed_run_is_retried :
  forall C now later clock clock' s conn audioData audioData' samples message,
    clientConnection s = Some conn ->
    isTranscribing conn = true ->
    forallb Buffer.isInt16 audioData = true ->
    forallb Buffer.isInt16 audioData' = true ->
    Buffer.int16Array (audioBuffer conn) = Returns samples ->
    hasSound (samples ++ audioData) = true ->
    let conn1 := setAudioBuffer (audioBuffer conn ++ flat_map Buffer.int16LE audioData) conn in
    shouldDispatch now conn1 = true ->
    SttProviders.BackendFails (backends C) (audioBuffer conn1) (speechLanguage conn)
      (currentProvider s) message ->
    (now <= later)%Z ->
    onAudioData C now clock audioData s =
      (mkServer (Some conn1) (currentProvider s),
       [Transcribe (audioBuffer conn1) (speechLanguage conn)]) /\
    recognitionCalls
      (snd (onAudioData C later clock' audioData' (mkServer (Some conn1) (currentProvider s))))
      = [(audioBuffer conn1 ++ flat_map Buffer.int16LE audioData', speechLanguage conn)].
Proof.
  intros C now later clock clock' s conn audioData audioData' samples message
         Hconn Hon Hframe Hframe' Hview Hsound conn1 Hdispatch Hbroken Hlater.
  assert (Hview1 : Buffer.int16Array (audioBuffer conn1) = Returns (samples ++ audioData)).
  { apply int16Array_app; [exact Hview | now apply int16Array_of_samples]. }
  destruct (SttProvidersFacts.transcribeBuffer_failure (backends C) (currentProvider s)
              (audioBuffer conn1) (speechLanguage conn)) as [_ Hresult].
  destruct (Hresult message Hbroken) as (result & Hcall & Hempty & _).
  split.
  - rewrite (onAudioData_step C now clock audioData s conn _ Hconn Hon
               (writeSamples_ok _ audioData Hframe)).
    cbv zeta. fold conn1. rewrite Hdispatch.
    unfold processBatchTranscription. rewrite Hview1, Hsound.
    change (speechLanguage conn1) with (speechLanguage conn).
    rewrite Hcall, Hempty. reflexivity.
  - rewrite (onAudioData_step C later clock' audioData'
               (mkServer (Some conn1) (currentProvider s)) conn1 _ eq_refl Hon
               (writeSamples_ok _ audioData' Hframe')).
    cbv zeta.
    set (conn2 := setAudioBuffer (audioBuffer conn1 ++ flat_map Buffer.int16LE audioData') conn1).
    assert (Hagain : shouldDispatch later conn2 = true).
    { apply shouldDispatch_spec in Hdispatch as [Hsize Htime].
      apply shouldDispatch_spec. split.
      - unfold conn2. simpl audioBuffer. rewrite byteLength_app.
        simpl audioBuffer in Hsize.
        assert (0 <= Buffer.byteLength (flat_map Buffer.int16LE audioData'))%Z
          by (unfold Buffer.byteLength; lia).
        lia.
      - change (lastTranscriptionTime conn2) with (lastTranscriptionTime conn).
        change (lastTranscriptionTime conn1) with (lastTranscriptionTime conn) in Htime. lia. }
    rewrite Hagain. simpl snd.
    apply (sound_run_calls C clock' (currentProvider s) conn2
             ((samples ++ audioData) ++ audioData')).
    + apply int16Array_app; [exact Hview1 | now apply int16Array_of_samples].
    + rewrite hasSound_app, Hsound. reflexivity.
Qed.

Lemma failed_run_is_retried_witness :
  let conn := Samples.session [] "" "" in
  let conn1 := setAudioBuffer (audioBuffer conn ++ Samples.pcm 1000) conn in
  let C :=
    mkCollaborators Samples.brokenBackends (addPunctuation Samples.helloCollaborators)
      (translateText Samples.helloCollaborators) Samples.received in
  onAudioData C 6999 Samples.runClock (Samples.tone 1000) (Samples.server conn) =
    (mkServer (Some conn1) SttProviders.GOOGLE_SPEECH,
     [Transcribe (audioBuffer conn1) "cs-CZ"]) /\
  recognitionCalls
    (snd (onAudioData C 7005 Samples.runClock [7; 8]%Z
            (mkServer (Some conn1) SttProviders.GOOGLE_SPEECH)))
    = [(audioBuffer conn1 ++ flat_map Buffer.int16LE [7; 8]%Z, "cs-CZ")].
Proof.
  apply (failed_run_is_retried
           (mkCollaborators Samples.brokenBackends (addPunctuation Samples.helloCollaborators)
              (translateText Samples.helloCollaborators) Samples.received)
           6999 7005 Samples.runClock Samples.runClock
           (Samples.server (Samples.session [] "" "")) (Samples.session [] "" "")
           (Samples.tone 1000) [7; 8]%Z [] "timeout of 30000ms exceeded").
  - reflexivity.
  - reflexivity.
  - vm_compute. reflexivity.
  - reflexivity.
  - reflexivity.
  - vm_compute. reflexivity.
  - vm_compute. reflexivity.
  - apply SttProviders.google_request_fails.
    + vm_compute. discriminate.
    + reflexivity.
  - lia.
Defined.

(** *** Changing the configuration during a session *)

(** X22. A language change applies to audio that is already buffered.
    [set-languages] with an accepted speech language leaves the buffer as it
    is, so the next dispatched recognition call sends the audio recorded
    under the old language together with the new frame, all of it under the
    new language code. *)
Theorem language_change_applies_to_buffered_audio :
  forall C L now clock s conn code audioData samples,
    clientConnection s = Some conn ->
    isTranscribing conn = true ->
    truthy code = true ->
    isValidSpeechLanguage L code = true ->
    forallb Buffer.isInt16 audioData = true ->
    Buffer.int16Array (audioBuffer conn) = Returns samples ->
    hasSound (samples ++ audioData) = true ->
    shouldDispatch now
      (setAudioBuffer (audioBuffer conn ++ flat_map Buffer.int16LE audioData) conn) = true ->
    let s1 := fst (onSetLanguages L (Some (mkLanguageConfig (Some code) None None)) s) in
    clientConnection s1 = Some (setSpeechLanguage code conn) /\
    recognitionCalls (snd (onAudioData C now clock audioData s1))
      = [(audioBuffer conn ++ flat_map Buffer.int16LE audioData, code)].
Proof.
  intros C L now clock s conn code audioData samples
         Hconn Hon Hcode Hvalid Hframe Hview Hsound Hdispatch.
  cbv zeta.
  assert (Hs1 : fst (onSetLanguages L (Some (mkLanguageConfig (Some code) None None)) s)
                = mkServer (Some (setSpeechLanguage code conn)) (currentProvider s)).
  { unfold onSetLanguages. rewrite Hconn. simpl. rewrite Hcode, Hvalid. reflexivity. }
  rewrite Hs1. split; [reflexivity|].
  rewrite (onAudioData_step C now clock audioData
             (mkServer (Some (setSpeechLanguage code conn)) (currentProvider s))
             (setSpeechLanguage code conn) _ eq_refl Hon
             (writeSamples_ok _ audioData Hframe)).
  cbv zeta.
  change (shouldDispatch now
            (setAudioBuffer
               (audioBuffer (setSpeechLanguage code conn) ++ flat_map Buffer.int16LE audioData)
               (setSpeechLanguage code conn)))
    with (shouldDispatch now
            (setAudioBuffer (audioBuffer conn ++ flat_map Buffer.int16LE audioData) conn)).
  rewrite Hdispatch. simpl snd.
  apply (sound_run_calls C clock _
           (setAudioBuffer
              (audioBuffer (setSpeechLanguage code conn) ++ flat_map Buffer.int16LE audioData)
              (setSpeechLanguage code conn))
           (samples ++ audioData)).
  - apply int16Array_app; [exact Hview | now apply int16Array_of_samples].
  - exact Hsound.
Qed.

Lemma language_change_applies_to_buffered_audio_witness :
  let L := mkLanguages (fun _ => true) (fun _ => true) (fun code _ => code) in
  let conn := Samples.session [] "" "" in
  let s1 :=
    fst (onSetLanguages L (Some (mkLanguageConfig (Some "en-US") None None))
           (Samples.server conn)) in
  clientConnection s1 = Some (setSpeechLanguage "en-US" conn) /\
  recognitionCalls
    (snd (onAudioData Samples.helloCollaborators 6999 Samples.runClock (Samples.tone 1000) s1))
    = [(audioBuffer conn ++ flat_map Buffer.int16LE (Samples.tone 1000), "en-US")].
Proof.
  apply (language_change_applies_to_buffered_audio Samples.helloCollaborators
           (mkLanguages (fun _ => true) (fun _ => true) (fun code _ => code))
           6999 Samples.runClock (Samples.server (Samples.session [] "" ""))
           (Samples.session [] "" "") "en-US" (Samples.tone 1000) []).
  - reflexivity.
  - reflexivity.
  - reflexivity.
  - reflexivity.
  - vm_compute. reflexivity.
  - reflexivity.
  - vm_compute. reflexivity.
  - vm_compute. reflexivity.
Defined.

(** *** The two ways to switch the provider *)

(** X23. The route [POST /api/stt/provider/switch] and the socket event
    [set-stt-provider] decide alike and leave the same active provider. A
    name is accepted exactly when its upper-cased form with the first hyphen
    replaced is a property of [STT_PROVIDERS]; the answer then echoes the
    name as it was requested, with the configuration of the registered id
    that became active. Otherwise both answer with the same error and the
    list of ids, and the active provider stays. *)
Theorem switch_route_agrees_with_socket :
  forall C provider s,
    truthy provider = true ->
    let route := Connectivity.switchProviderRoute (Some provider) (currentProvider s) in
    let socket := onSetSttProvider C provider s in
    snd route = currentProvider (fst socket) /\
    ((In (SttProviders.propertyName provider) (JsMap.keys SttProviders.STT_PROVIDERS) /\
      In (snd route) SttProviders.providerIds /\
      exists config,
        SttProviders.getProviderConfig (snd route) = Some config /\
        fst route =
          Connectivity.SwitchOk provider config ("Switched to " ++ SttProviders.name config) /\
        emitted (snd socket) =
          [stt_provider_updated provider (Some config)
             (SttProviders.getSupportedLanguages (backends C) (snd route))])
     \/
     (~ In (SttProviders.propertyName provider) (JsMap.keys SttProviders.STT_PROVIDERS) /\
      snd route = currentProvider s /\
      fst route =
        Connectivity.SwitchBadRequest ("Unknown STT provider: " ++ provider)
          SttProviders.providerIds /\
      emitted (snd socket) =
        [stt_provider_error ("Unknown STT provider: " ++ provider) SttProviders.providerIds])).
Proof.
  intros C provider s Hname. cbv zeta.
  unfold Connectivity.switchProviderRoute, onSetSttProvider. rewrite Hname. simpl negb. cbv iota.
  pose proof (SttProvidersFacts.setSTTProvider_accepts provider (currentProvider s)) as Hacc.
  unfold SttProviders.setSTTProvider in *.
  destruct (JsMap.get (SttProviders.propertyName provider) SttProviders.STT_PROVIDERS)
    as [id|] eqn:Hget.
  - pose proof (ConnectivityFacts.get_In_values _ _ _ Hget) as Hreg.
    assert (Hid : truthy id = true).
    { simpl in Hreg. destruct Hreg as [<- | [<- | [<- | []]]]; reflexivity. }
    rewrite Hid in *. simpl fst in Hacc.
    pose proof (ConnectivityFacts.registered_has_config id Hreg) as Hconfig.
    unfold SttProviders.getProviderConfig.
    destruct (JsMap.get id SttProviders.PROVIDER_CONFIG) as [config|] eqn:Hcfg;
      [|contradiction].
    split; [reflexivity|]. left. split; [now apply Hacc|]. split; [exact Hreg|].
    exists config. split; [exact Hcfg|]. split; reflexivity.
  - split; [reflexivity|]. right. split.
    + intro Hin. apply Hacc in Hin. discriminate.
    + repeat split.
Qed.

Lemma switch_route_agrees_with_socket_witness :
  let route := Connectivity.switchProviderRoute (Some "OpenAI-Whisper") "google-speech" in
  let socket :=
    onSetSttProvider Samples.helloCollaborators "OpenAI-Whisper"
      (Samples.server (Samples.session [] "" "")) in
  snd route = currentProvider (fst socket) /\
  ((In (SttProviders.propertyName "OpenAI-Whisper") (JsMap.keys SttProviders.STT_PROVIDERS) /\
    In (snd route) SttProviders.providerIds /\
    exists config,
      SttProviders.getProviderConfig (snd route) = Some config /\
      fst route =
        Connectivity.SwitchOk "OpenAI-Whisper" config
          ("Switched to " ++ SttProviders.name config) /\
      emitted (snd socket) =
        [stt_provider_updated "OpenAI-Whisper" (Some config)
           (SttProviders.getSupportedLanguages (backends Samples.helloCollaborators)
              (snd route))])
   \/
   (~ In (SttProviders.propertyName "OpenAI-Whisper") (JsMap.keys SttProviders.STT_PROVIDERS) /\
    snd route = "google-speech" /\
    fst route =
      Connectivity.SwitchBadRequest ("Unknown STT provider: " ++ "OpenAI-Whisper")
        SttProviders.providerIds /\
    emitted (snd socket) =
      [stt_provider_error ("Unknown STT provider: " ++ "OpenAI-Whisper")
         SttProviders.providerIds])).
Proof.
  apply (switch_route_agrees_with_socket Samples.helloCollaborators "OpenAI-Whisper"
           (Samples.server (Samples.session [] "" ""))).
  reflexivity.
Defined.

(** *** The two duplicate checks *)

Lemma occursIn_refl s : occursIn s s.
Proof. exists "", "". simpl. now rewrite append_empty_r. Qed.

(** X24. The check of the final transcript is the weaker of the two duplicate
    checks: a text that passes the interim check against the last transcript
    also passes the final one, so whatever [stop-transcription] suppresses as
    a repetition an interim run would have suppressed too. And a text equal
    to the last transcript, which is not empty, passes neither. *)
Theorem final_check_is_weaker :
  (forall newText lastText,
      isSignificantlyDifferent newText lastText = true ->
      isFinalDifferent newText lastText = true) /\
  (forall text,
      text <> "" ->
      isSignificantlyDifferent text text = false /\ isFinalDifferent text text = false).
Proof.
  split.
  - intros newText lastText H.
    apply (different_spec newText lastText 12%Z 8%Z) in H.
    apply (different_spec newText lastText 11%Z 9%Z).
    destruct H as [H | [H | [H | H]]]; [now left | right; left; lia | right; right; left; lia |].
    right. right. right. exact H.
  - intros text Hne.
    assert (Hnot : forall up down, (10 <= up)%Z -> (down <= 10)%Z ->
               negb (truthy text) || longerThan text text up || shorterThan text text down
               || (negb (includes text text) && negb (includes text text)) = false).
    { intros up down Hup Hdown.
      destruct (negb (truthy text) || longerThan text text up || shorterThan text text down
                || (negb (includes text text) && negb (includes text text))) eqn:E;
        [|reflexivity].
      apply different_spec in E. destruct E as [E | [E | [E | [E _]]]].
      - contradiction.
      - nia.
      - nia.
      - exfalso. apply E, occursIn_refl. }
    split; [apply (Hnot 12%Z 8%Z) | apply (Hnot 11%Z 9%Z)]; lia.
Qed.

Lemma final_check_is_weaker_witness :
  isFinalDifferent "good morning everyone" "good morning" = true /\
  isSignificantlyDifferent "hello" "hello" = false /\
  isFinalDifferent "hello" "hello" = false.
Proof.
  split.
  - apply (proj1 final_check_is_weaker). reflexivity.
  - apply (proj2 final_check_is_weaker). discriminate.
Defined.

End SessionsFacts.

(** ** websocket.js: runs that overlap *)

Module InterleavingFacts.
Import JsString JsStringFacts Websocket Sessions Interleaving WebsocketFacts SessionsFacts.
Local Open Scope list_scope.

Ltac break_matches :=
  repeat match goal with
         | |- context [match ?x with _ => _ end] => destruct x eqn:?
         end.

(** *** What a piece leaves alone *)

(** A piece of a run changes the buffer, the time and the two tracked texts
    of the entry, and nothing else; the buffer it leaves is empty, the one it
    found, or the recent part of that. *)
Lemma resume_frame C clock run conn :
  let conn' := fst (fst (resume C clock run conn)) in
  conn' = mkConnection (audioBuffer conn') (isTranscribing conn) (lastTranscriptionTime conn')
            (lastTranscript conn') (lastTranslation conn') (speechLanguage conn)
            (translationFrom conn) (translationTo conn) (aiPunctuationEnabled conn)
            (punctuationStyle conn) /\
  (audioBuffer conn' = [] \/ audioBuffer conn' = audioBuffer conn
   \/ audioBuffer conn' = keepRecent (audioBuffer conn)).
Proof.
  cbv zeta.
  destruct run as [kind provider audio language | kind result text language style'
                  | kind result pt source target | kind result pt tt language style'];
    destruct kind;
    unfold resume, afterRecognition, afterPunctuation, afterTranslation,
      afterTranslationPunctuation, startTranslation, finish;
    break_matches; destruct conn; cbn in *; subst; auto.
Qed.

Lemma receiveAudioData_frame C now clock provider audioData conn :
  let conn' := fst (fst (receiveAudioData C now clock provider audioData conn)) in
  conn' = mkConnection (audioBuffer conn') (isTranscribing conn) (lastTranscriptionTime conn')
            (lastTranscript conn) (lastTranslation conn) (speechLanguage conn)
            (translationFrom conn) (translationTo conn) (aiPunctuationEnabled conn)
            (punctuationStyle conn) /\
  (audioBuffer conn' = [] \/ audioBuffer conn' = audioBuffer conn
   \/ exists audioChunk,
        Buffer.writeSamples (rangeErrorMessage C) audioData = Returns audioChunk /\
        audioBuffer conn' = audioBuffer conn ++ audioChunk).
Proof.
  cbv zeta. unfold receiveAudioData, startInterim.
  destruct (negb (isTranscribing conn)); [destruct conn; cbn; auto|].
  destruct (Buffer.writeSamples (rangeErrorMessage C) audioData) as [message|audioChunk];
    [destruct conn; cbn; auto|].
  break_matches; destruct conn; cbn in *; subst; eauto 6.
Qed.

Lemma receiveStop_frame provider conn :
  let conn' := fst (fst (receiveStop provider conn)) in
  conn' = mkConnection (audioBuffer conn') false (lastTranscriptionTime conn)
            (lastTranscript conn) (lastTranslation conn) (speechLanguage conn)
            (translationFrom conn) (translationTo conn) (aiPunctuationEnabled conn)
            (punctuationStyle conn) /\
  (audioBuffer conn' = [] \/ audioBuffer conn' = audioBuffer conn).
Proof.
  cbv zeta. unfold receiveStop. break_matches; destruct conn; cbn in *; subst; auto.
Qed.

(** *** The state stays sound *)

Section Soundness.

Variable C : Collaborators.
Variable L : Languages.

Lemma sound_entry conn provider conn' provider' :
  Sound L (mkServer (Some conn) provider) ->
  In provider' SttProviders.providerIds ->
  Z.even (Buffer.byteLength (audioBuffer conn')) = true ->
  punctuationStyle conn' = punctuationStyle conn ->
  speechLanguage conn' = speechLanguage conn ->
  translationFrom conn' = translationFrom conn ->
  translationTo conn' = translationTo conn ->
  Sound L (mkServer (Some conn') provider').
Proof.
  intros [Hp Hb Hs Hl Hf Ht] Hp' Heven Hstyle Hspeech Hfrom Hto.
  constructor; cbn [clientConnection currentProvider] in *;
    try exact Hp'; intros c Hc; injection Hc as <-.
  - exact Heven.
  - rewrite Hstyle. exact (Hs _ eq_refl).
  - rewrite Hspeech. exact (Hl _ eq_refl).
  - rewrite Hfrom. exact (Hf _ eq_refl).
  - rewrite Hto. exact (Ht _ eq_refl).
Qed.

Lemma sound_buffer conn provider :
  Sound L (mkServer (Some conn) provider) ->
  Z.even (Buffer.byteLength (audioBuffer conn)) = true.
Proof. intros [_ Hb _ _ _ _]. exact (Hb _ eq_refl). Qed.

Lemma sound_provider conn provider :
  Sound L (mkServer (Some conn) provider) -> In provider SttProviders.providerIds.
Proof. intros [Hp _ _ _ _ _]. exact Hp. Qed.

Lemma resume_sound clock run conn provider :
  Sound L (mkServer (Some conn) provider) ->
  Sound L (mkServer (Some (fst (fst (resume C clock run conn)))) provider).
Proof.
  intro Hsound. destruct (resume_frame C clock run conn) as [Heq Hbuffer].
  set (conn' := fst (fst (resume C clock run conn))) in *.
  apply (sound_entry conn provider); try exact Hsound.
  - exact (sound_provider _ _ Hsound).
  - destruct Hbuffer as [-> | [-> | ->]].
    + reflexivity.
    + exact (sound_buffer _ _ Hsound).
    + apply keepRecent_even. exact (sound_buffer _ _ Hsound).
  - now rewrite Heq.
  - now rewrite Heq.
  - now rewrite Heq.
  - now rewrite Heq.
Qed.

Lemma receiveAudioData_sound now clock audioData conn provider :
  Sound L (mkServer (Some conn) provider) ->
  Sound L (mkServer
             (Some (fst (fst (receiveAudioData C now clock provider audioData conn))))
             provider).
Proof.
  intro Hsound.
  destruct (receiveAudioData_frame C now clock provider audioData conn) as [Heq Hbuffer].
  set (conn' := fst (fst (receiveAudioData C now clock provider audioData conn))) in *.
  apply (sound_entry conn provider); try exact Hsound.
  - exact (sound_provider _ _ Hsound).
  - destruct Hbuffer as [-> | [-> | (audioChunk & Hchunk & ->)]].
    + reflexivity.
    + exact (sound_buffer _ _ Hsound).
    + rewrite byteLength_app, Z.even_add, (sound_buffer _ _ Hsound),
        (chunk_even _ _ _ Hchunk). reflexivity.
  - now rewrite Heq.
  - now rewrite Heq.
  - now rewrite Heq.
  - now rewrite Heq.
Qed.

Lemma receiveStop_sound conn provider :
  Sound L (mkServer (Some conn) provider) ->
  Sound L (mkServer (Some (fst (fst (receiveStop provider conn)))) provider).
Proof.
  intro Hsound. destruct (receiveStop_frame provider conn) as [Heq Hbuffer].
  set (conn' := fst (fst (receiveStop provider conn))) in *.
  apply (sound_entry conn provider); try exact Hsound.
  - exact (sound_provider _ _ Hsound).
  - destruct Hbuffer as [-> | ->]; [reflexivity | exact (sound_buffer _ _ Hsound)].
  - now rewrite Heq.
  - now rewrite Heq.
  - now rewrite Heq.
  - now rewrite Heq.
Qed.

Lemma after_entry (w : Socket) (piece : Piece) :
  entry (fst (after w piece)) = fst (fst piece) /\
  listed (fst (after w piece)) = listed w /\
  activeProvider (fst (after w piece)) = activeProvider w /\
  snd (after w piece) = map Pipeline (snd (fst piece)).
Proof. destruct piece as [[conn effects] next]. cbn. auto. Qed.

Lemma serverOf_sound w :
  Sound L (mkServer (Some (entry w)) (activeProvider w)) -> Sound L (serverOf w).
Proof.
  intro Hsound. unfold serverOf. destruct (listed w); [exact Hsound|].
  constructor; cbn; try discriminate. exact (sound_provider _ _ Hsound).
Qed.

Lemma afterHandler_sound w s outputs :
  Sound L (mkServer (Some (entry w)) (activeProvider w)) ->
  Sound L s ->
  let w' := fst (afterHandler w (s, outputs)) in
  Sound L (mkServer (Some (entry w')) (activeProvider w')).
Proof.
  intros Hw Hs. destruct s as [[conn|] provider]; cbn.
  - exact Hs.
  - destruct Hs as [Hp _ _ _ _ _]. cbn in Hp.
    apply (sound_entry (entry w) (activeProvider w)); auto.
    exact (sound_buffer _ _ Hw).
Qed.

Lemma step_sound action w :
  Sound L (mkServer (Some (entry w)) (activeProvider w)) ->
  let w' := fst (step C L action w) in
  Sound L (mkServer (Some (entry w')) (activeProvider w')).
Proof.
  intro Hsound. cbv zeta.
  assert (Hhandler : forall input,
             let w' := fst (afterHandler w (handle C L input (serverOf w))) in
             Sound L (mkServer (Some (entry w')) (activeProvider w'))).
  { intro input.
    pose proof (handle_sound C L input (serverOf w) (serverOf_sound w Hsound)) as Hs.
    destruct (handle C L input (serverOf w)) as [s outputs].
    exact (afterHandler_sound w s outputs Hsound Hs). }
  destruct action as [input | index clock]; cbn [step].
  - destruct input; try exact (Hhandler _); cbn [arrive].
    + destruct (listed w); [|exact Hsound].
      destruct (after_entry w (receiveAudioData C now clock (activeProvider w) audioData
                                 (entry w))) as (-> & _ & -> & _).
      now apply receiveAudioData_sound.
    + destruct (listed w); [|exact Hsound].
      destruct (after_entry w (receiveStop (activeProvider w) (entry w)))
        as (-> & _ & -> & _).
      now apply receiveStop_sound.
  - unfold resolve. destruct (nth_error (waiting w) index) as [run|]; [|exact Hsound].
    match goal with
    | |- context [after ?w0 ?piece] =>
        destruct (after_entry w0 piece) as (-> & _ & -> & _)
    end.
    cbn [entry activeProvider]. now apply resume_sound.
Qed.

Lemma opened_sound : Sound L (mkServer (Some (entry opened)) (activeProvider opened)).
Proof. exact (connected_sound L). Qed.

Lemma schedule_sound actions : forall w,
  Sound L (mkServer (Some (entry w)) (activeProvider w)) ->
  let w' := fst (schedule C L actions w) in
  Sound L (mkServer (Some (entry w')) (activeProvider w')).
Proof.
  induction actions as [|action rest IH]; intros w Hsound; cbn [schedule]; [exact Hsound|].
  pose proof (step_sound action w Hsound) as Hstep.
  destruct (step C L action w) as [w1 outputs1]. cbn [fst] in Hstep.
  pose proof (IH w1 Hstep) as Hrest.
  destruct (schedule C L rest w1) as [w2 outputs2]. exact Hrest.
Qed.

End Soundness.

(** X14. Whatever arrives on a socket and in whatever order the awaited calls
    resolve, also while other runs are suspended, the entry of the socket
    stays sound: the active provider is registered, the buffer holds whole
    16-bit samples, so that the view the silence check takes of it is
    defined, the punctuation style is one of the three known ones, and each
    language code is the default or one the languages module accepted. *)
Theorem session_stays_sound :
  forall C L actions,
    let w := fst (schedule C L actions opened) in
    Sound L (mkServer (Some (entry w)) (activeProvider w)) /\
    exists samples, Buffer.int16Array (audioBuffer (entry w)) = Returns samples.
Proof.
  intros C L actions. cbv zeta.
  pose proof (schedule_sound C L actions opened (opened_sound L)) as Hsound.
  split; [exact Hsound|].
  apply even_buffer_has_view. exact (sound_buffer L _ _ Hsound).
Qed.

(** *** The errors that are reported *)

Section Errors.

Variable C : Collaborators.
Variable L : Languages.

Lemma writeSamples_outcome rangeError audioData :
  Buffer.writeSamples rangeError audioData =
  match Buffer.firstOutOfRange audioData with
  | Some value => Throws (rangeError value)
  | None => Returns (flat_map Buffer.int16LE audioData)
  end.
Proof.
  pose proof (firstOutOfRange_spec audioData) as Hspec.
  destruct (Buffer.firstOutOfRange audioData) as [value|] eqn:Hfirst.
  - now apply writeSamples_fails.
  - now apply writeSamples_ok.
Qed.

(** A suspended run that goes on reports no error: the registry turns a
    failure of the backend into an empty result. *)
Lemma resume_no_error clock run conn :
  errors (map Pipeline (snd (fst (resume C clock run conn)))) = [].
Proof.
  destruct run as [kind provider audio language | kind result text language style'
                  | kind result pt source target | kind result pt tt language style'];
    unfold resume.
  - destruct (SttProvidersFacts.transcribeBuffer_failure (backends C) provider audio language)
      as [(result & ->) _].
    unfold afterRecognition, startTranslation. destruct kind; break_matches; reflexivity.
  - unfold afterPunctuation, startTranslation. reflexivity.
  - unfold afterTranslation, finish. destruct kind; break_matches; reflexivity.
  - unfold afterTranslationPunctuation, finish. destruct kind; break_matches; reflexivity.
Qed.

Lemma receiveAudioData_errors now clock provider audioData conn :
  Z.even (Buffer.byteLength (audioBuffer conn)) = true ->
  errors (map Pipeline (snd (fst (receiveAudioData C now clock provider audioData conn)))) =
  if isTranscribing conn
  then map (append "Audio processing failed: ")
         (conversionError C (Arrives (AudioData now clock audioData)))
  else [].
Proof.
  intro Heven. unfold receiveAudioData, conversionError.
  destruct (isTranscribing conn); [|reflexivity]. cbn [negb].
  rewrite writeSamples_outcome.
  pose proof (firstOutOfRange_spec audioData) as Hspec.
  destruct (Buffer.firstOutOfRange audioData) as [value|]; [reflexivity|].
  destruct (shouldDispatch now _); [|reflexivity].
  unfold startInterim. cbn [audioBuffer setAudioBuffer].
  destruct (even_buffer_has_view (audioBuffer conn ++ flat_map Buffer.int16LE audioData))
    as [samples ->].
  { rewrite byteLength_app, Z.even_add, Heven.
    now rewrite (chunk_even (rangeErrorMessage C) audioData _
                   (writeSamples_ok _ audioData Hspec)). }
  destruct (negb (hasSound samples)); reflexivity.
Qed.

Lemma step_errors action w :
  Sound L (mkServer (Some (entry w)) (activeProvider w)) ->
  errors (snd (step C L action w)) =
  if listed w && isTranscribing (entry w)
  then map (append "Audio processing failed: ") (conversionError C action)
  else [].
Proof.
  intro Hsound.
  assert (Hnone : (if listed w && isTranscribing (entry w)
                   then map (append "Audio processing failed: ") []
                   else []) = @nil string) by now destruct (listed w && isTranscribing (entry w)).
  destruct action as [input | index clock]; cbn [step].
  - destruct input; cbn [arrive conversionError]; try rewrite Hnone.
    + cbn [handle]. destruct (onSetLanguages L config (serverOf w)) as [s events].
      cbn. apply errors_configuration.
    + cbn [handle]. unfold onSetSttProvider.
      destruct (SttProviders.setSTTProvider provider (currentProvider (serverOf w)))
        as [[message|value] current];
        [reflexivity | destruct (SttProviders.getProviderConfig current); reflexivity].
    + cbn [handle]. destruct (onSetPunctuationPreferences config (serverOf w)) as [s events].
      cbn. apply errors_configuration.
    + cbn [handle]. unfold onStartTranscription.
      destruct (clientConnection (serverOf w)); reflexivity.
    + destruct (listed w); [|reflexivity]. cbn [andb].
      destruct (after_entry w (receiveAudioData C now clock (activeProvider w) audioData
                                 (entry w))) as (_ & _ & _ & ->).
      apply receiveAudioData_errors. exact (sound_buffer L _ _ Hsound).
    + cbn [handle]. unfold onUnusableAudioData, serverOf.
      destruct (listed w); cbn; [|reflexivity].
      destruct (isTranscribing (entry w)); reflexivity.
    + destruct (listed w); [|reflexivity].
      destruct (after_entry w (receiveStop (activeProvider w) (entry w)))
        as (_ & _ & _ & ->).
      unfold receiveStop. break_matches; reflexivity.
    + cbn [handle]. reflexivity.
  - cbn [conversionError]. rewrite Hnone. unfold resolve.
    destruct (nth_error (waiting w) index) as [run|]; [|reflexivity].
    match goal with
    | |- context [after ?w0 ?piece] =>
        destruct (after_entry w0 piece) as (_ & _ & _ & ->)
    end.
    apply resume_no_error.
Qed.

Lemma schedule_errors actions : forall w error,
  Sound L (mkServer (Some (entry w)) (activeProvider w)) ->
  In error (errors (snd (schedule C L actions w))) ->
  exists message,
    In message (flat_map (conversionError C) actions) /\
    error = ("Audio processing failed: " ++ message)%string.
Proof.
  induction actions as [|action rest IH]; intros w error Hsound; cbn [schedule flat_map].
  - intros [].
  - pose proof (step_sound C L action w Hsound) as Hnext.
    pose proof (step_errors action w Hsound) as Hstep.
    destruct (step C L action w) as [w1 outputs1]. cbn [fst snd] in Hnext, Hstep.
    specialize (IH w1 error Hnext).
    destruct (schedule C L rest w1) as [w2 outputs2]. cbn [snd] in *.
    rewrite errors_app, Hstep. intro Hin. apply in_app_or in Hin as [Hin|Hin].
    + destruct (listed w && isTranscribing (entry w)); [|destruct Hin].
      apply in_map_iff in Hin as (message & <- & Hin).
      exists message. split; [apply in_or_app; now left | reflexivity].
    + destruct (IH Hin) as (message & Hin' & ->).
      exists message. split; [apply in_or_app; now right | reflexivity].
Qed.

End Errors.

(** X15. The only [transcription-error] a socket ever gets is the one of
    [audio-data] for a payload on which the conversion throws, and its text
    is "Audio processing failed: " followed by the message of what was
    thrown: at every state a socket can reach, whatever runs are suspended,
    a step reports exactly that error when such a payload arrives while the
    entry is listed and transcribing, and no error otherwise. So the catch of
    [processBatchTranscription] and the catch around the final recognition
    are never entered. *)
Theorem only_conversion_errors_are_reported :
  forall C L actions,
    let w := fst (schedule C L actions opened) in
    (forall action,
        errors (snd (step C L action w)) =
        if listed w && isTranscribing (entry w)
        then map (append "Audio processing failed: ") (conversionError C action)
        else []) /\
    (forall error,
        In error (errors (snd (schedule C L actions opened))) ->
        exists message,
          In message (flat_map (conversionError C) actions) /\
          error = ("Audio processing failed: " ++ message)%string).
Proof.
  intros C L actions. cbv zeta. split.
  - intro action. apply step_errors.
    exact (schedule_sound C L actions opened (opened_sound L)).
  - intros error Hin. exact (schedule_errors C L actions opened error (opened_sound L) Hin).
Qed.

(** *** What a piece emits *)

Lemma confidence_of_event clock kind result pt ptr r :
  resultEvent clock kind result pt ptr = transcription_result r ->
  transcript r = pt /\ translation r = ptr /\
  isFinal r = match kind with Interim => false | Final => true end /\
  Qeq_bool (confidence r) 0 = false.
Proof.
  unfold resultEvent. intros [= <-]. cbn. repeat split. apply confidenceOr_nonzero.
Qed.

Lemma isTranslationDifferent_spec punctuatedTranslation lastTranslation :
  isTranslationDifferent punctuatedTranslation lastTranslation = true <->
  lastTranslation = "" \/ punctuatedTranslation <> lastTranslation.
Proof.
  unfold isTranslationDifferent.
  rewrite orb_true_iff, !negb_true_iff, truthy_false_iff, String.eqb_neq. tauto.
Qed.

(** The end of a run, as the entry and the events show it. *)
Lemma finish_spec clock kind result pt ptr conn :
  let piece := finish clock kind result pt ptr conn in
  let conn' := fst (fst piece) in
  snd piece = None /\
  match kind with
  | Interim =>
      conn' = setAudioBuffer (keepRecent (audioBuffer conn))
                (setLastTexts pt ptr (setLastTranscriptionTime (atMark clock) conn)) /\
      snd (fst piece) =
        (if isTranslationDifferent ptr (lastTranslation conn)
         then [Emit (resultEvent clock Interim result pt ptr)] else [])
  | Final =>
      conn' = setAudioBuffer [] conn /\
      snd (fst piece) = [Emit (resultEvent clock Final result pt ptr)]
  end.
Proof. destruct kind; cbn; auto. Qed.

(** Every piece that ends a run past the translation is [finish] for the
    punctuated transcript of the run and some translation. *)
Lemma resume_finishes C clock run conn result pt source target tt language style :
  run = AwaitsTranslation (kindOf run) result pt source target
  \/ run = AwaitsTranslationPunctuation (kindOf run) result pt tt language style ->
  snd (resume C clock run conn) = None ->
  exists ptr, resume C clock run conn = finish clock (kindOf run) result pt ptr conn.
Proof.
  intros [Hrun | Hrun] Hnext; rewrite Hrun in Hnext |- *; cbn [kindOf resume] in *.
  - unfold afterTranslation in *.
    destruct (translateText C pt source target) as [message|reply]; [now eexists|].
    destruct (match reply with
              | ReplyObject text failed =>
                  (orElse text pt, match kindOf run with Interim => failed | Final => false end)
              | ReplyString text => (orElse text pt, false)
              | ReplyNull => (pt, false)
              end) as [translatedText translationFailed].
    destruct (truthy translatedText && negb (translatedText =? pt)%string
              && negb translationFailed && aiPunctuationEnabled conn);
      [discriminate | now eexists].
  - unfold afterTranslationPunctuation. now eexists.
Qed.

(** X17. What the pieces of a run emit. The piece with which an [audio-data]
    handler starts emits no result and at most one event, the one with which
    [stop-transcription] starts emits nothing. A piece that follows an
    [await] emits nothing or exactly one [transcription-result], and then it
    ends its run; the confidence sent is never 0 and at most 16000 bytes stay
    buffered. After the result of an interim run, which is not final, the
    tracked texts of the entry are the texts sent, the time is the one read
    in this piece, the buffer is the recent part of the one the piece found,
    and no translation was tracked when the piece began or the translation
    sent is another one. After the result of a final run, which is final,
    the buffer is empty and the tracked texts are as the piece found them. *)
Theorem pieces_emit_at_most_one_result :
  forall C now clock provider audioData run conn,
    (results (snd (fst (receiveAudioData C now clock provider audioData conn))) = [] /\
     List.length (emitted (snd (fst (receiveAudioData C now clock provider audioData conn))))
       <= 1 /\
     emitted (snd (fst (receiveStop provider conn))) = []) /\
    let piece := resume C clock run conn in
    let conn' := fst (fst piece) in
    (emitted (snd (fst piece)) = [] \/
     exists r,
       emitted (snd (fst piece)) = [transcription_result r] /\
       snd piece = None /\
       Qeq_bool (confidence r) 0 = false /\
       (Buffer.byteLength (audioBuffer conn') <= 16000)%Z /\
       match kindOf run with
       | Interim =>
           isFinal r = false /\
           lastTranscript conn' = transcript r /\
           lastTranslation conn' = translation r /\
           (lastTranslation conn = "" \/ translation r <> lastTranslation conn) /\
           lastTranscriptionTime conn' = atMark clock /\
           audioBuffer conn' = keepRecent (audioBuffer conn)
       | Final =>
           isFinal r = true /\
           audioBuffer conn' = [] /\
           lastTranscript conn' = lastTranscript conn /\
           lastTranslation conn' = lastTranslation conn
       end).
Proof.
  intros C now clock provider audioData run conn. split.
  - unfold receiveAudioData, receiveStop, startInterim.
    repeat split; break_matches; cbn; auto.
  - cbv zeta.
    assert (Hend : forall kind result pt ptr,
               kindOf run = kind ->
               resume C clock run conn = finish clock kind result pt ptr conn ->
               emitted (snd (fst (resume C clock run conn))) = [] \/
               exists r,
                 emitted (snd (fst (resume C clock run conn))) = [transcription_result r] /\
                 snd (resume C clock run conn) = None /\
                 Qeq_bool (confidence r) 0 = false /\
                 (Buffer.byteLength (audioBuffer (fst (fst (resume C clock run conn))))
                  <= 16000)%Z /\
                 match kindOf run with
                 | Interim =>
                     isFinal r = false /\
                     lastTranscript (fst (fst (resume C clock run conn))) = transcript r /\
                     lastTranslation (fst (fst (resume C clock run conn))) = translation r /\
                     (lastTranslation conn = "" \/ translation r <> lastTranslation conn) /\
                     lastTranscriptionTime (fst (fst (resume C clock run conn))) = atMark clock /\
                     audioBuffer (fst (fst (resume C clock run conn)))
                     = keepRecent (audioBuffer conn)
                 | Final =>
                     isFinal r = true /\
                     audioBuffer (fst (fst (resume C clock run conn))) = [] /\
                     lastTranscript (fst (fst (resume C clock run conn))) = lastTranscript conn /\
                     lastTranslation (fst (fst (resume C clock run conn)))
                     = lastTranslation conn
                 end).
    { intros kind result pt ptr Hkind ->. rewrite Hkind. destruct kind; cbn [finish fst snd].
      - destruct (isTranslationDifferent ptr (lastTranslation conn)) eqn:Hdiff;
          [right | now left].
        eexists. split; [reflexivity|]. cbn.
        repeat split; try apply confidenceOr_nonzero; try apply keepRecent_short.
        now apply isTranslationDifferent_spec.
      - right. eexists. split; [reflexivity|]. cbn.
        repeat split; try apply confidenceOr_nonzero. unfold Buffer.byteLength. cbn. lia. }
    destruct run as [kind provider' audio language | kind result text language style'
                    | kind result pt source target | kind result pt tt language style'].
    + left. cbn [resume].
      destruct (SttProvidersFacts.transcribeBuffer_failure (backends C) provider' audio language)
        as [(result & ->) _].
      unfold afterRecognition, startTranslation. destruct kind; break_matches; reflexivity.
    + left. reflexivity.
    + destruct (snd (resume C clock (AwaitsTranslation kind result pt source target) conn))
        as [next|] eqn:Hnext.
      * left. cbn [resume] in *. unfold afterTranslation in *.
        revert Hnext. break_matches; cbn; try reflexivity;
          destruct kind; cbn; try discriminate;
          destruct (isTranslationDifferent _ _); discriminate.
      * destruct (resume_finishes C clock (AwaitsTranslation kind result pt source target)
                    conn result pt source target "" "" "" (or_introl eq_refl) Hnext)
          as [ptr Hfinish].
        exact (Hend kind result pt ptr eq_refl Hfinish).
    + apply (Hend kind result pt
               (match addPunctuation C tt language style' true with
                | Returns p => if processed p then punctuatedText p else tt
                | Throws _ => tt
                end) eq_refl).
      reflexivity.
Qed.

(** *** When a frame is dispatched *)

Lemma receiveAudioData_appends C now clock provider audioData conn :
  isTranscribing conn = true ->
  forallb Buffer.isInt16 audioData = true ->
  let conn1 := setAudioBuffer (audioBuffer conn ++ flat_map Buffer.int16LE audioData) conn in
  shouldDispatch now conn1 = false ->
  receiveAudioData C now clock provider audioData conn = (conn1, [], None).
Proof.
  intros Hon Hframe conn1 Hwait. unfold receiveAudioData.
  rewrite Hon, (writeSamples_ok _ audioData Hframe). cbn [negb]. fold conn1.
  now rewrite Hwait.
Qed.

Lemma receiveAudioData_dispatches C now clock provider audioData conn samples :
  isTranscribing conn = true ->
  forallb Buffer.isInt16 audioData = true ->
  Buffer.int16Array (audioBuffer conn) = Returns samples ->
  hasSound (samples ++ audioData) = true ->
  let conn1 := setAudioBuffer (audioBuffer conn ++ flat_map Buffer.int16LE audioData) conn in
  shouldDispatch now conn1 = true ->
  receiveAudioData C now clock provider audioData conn =
    (conn1,
     [Transcribe (audioBuffer conn1) (speechLanguage conn)],
     Some (AwaitsRecognition Interim provider (audioBuffer conn1) (speechLanguage conn))).
Proof.
  intros Hon Hframe Hview Hsound conn1 Hgo. unfold receiveAudioData.
  rewrite Hon, (writeSamples_ok _ audioData Hframe). cbn [negb]. fold conn1.
  rewrite Hgo. unfold startInterim.
  assert (Hview1 : Buffer.int16Array (audioBuffer conn1) = Returns (samples ++ audioData)).
  { apply int16Array_app; [exact Hview | now apply int16Array_of_samples]. }
  rewrite Hview1, Hsound. reflexivity.
Qed.

(** C7. When a frame is dispatched. For a frame the handler accepts, the
    buffer with the frame appended is handed to recognition exactly when it
    holds at least 32000 bytes and at least 1000 ms have passed since
    [lastTranscriptionTime]; otherwise the frame is only appended, with no
    call and no event. The dispatch itself does not move
    [lastTranscriptionTime]: a frame that arrives while the recognition call
    is still awaited, however soon, is dispatched too, and a second
    recognition call is made on the longer buffer while the first is
    pending. *)
Theorem dispatch_does_not_wait_for_the_pending_call :
  forall C L now clock audioData w,
    listed w = true ->
    isTranscribing (entry w) = true ->
    forallb Buffer.isInt16 audioData = true ->
    let conn1 :=
      setAudioBuffer (audioBuffer (entry w) ++ flat_map Buffer.int16LE audioData) (entry w) in
    (shouldDispatch now conn1 = true <->
     (32000 <= Buffer.byteLength (audioBuffer conn1))%Z /\
     (1000 <= now - lastTranscriptionTime (entry w))%Z) /\
    (shouldDispatch now conn1 = false ->
     step C L (Arrives (AudioData now clock audioData)) w =
       (mkSocket conn1 true (activeProvider w) (waiting w), [])) /\
    (shouldDispatch now conn1 = true ->
     forall samples,
       Buffer.int16Array (audioBuffer (entry w)) = Returns samples ->
       hasSound (samples ++ audioData) = true ->
       let first :=
         AwaitsRecognition Interim (activeProvider w) (audioBuffer conn1)
           (speechLanguage (entry w)) in
       let w1 := mkSocket conn1 true (activeProvider w) (waiting w ++ [first]) in
       step C L (Arrives (AudioData now clock audioData)) w =
         (w1, [Pipeline (Transcribe (audioBuffer conn1) (speechLanguage (entry w)))]) /\
       forall later clock' audioData',
         (now <= later)%Z ->
         forallb Buffer.isInt16 audioData' = true ->
         let conn2 :=
           setAudioBuffer (audioBuffer conn1 ++ flat_map Buffer.int16LE audioData') conn1 in
         step C L (Arrives (AudioData later clock' audioData')) w1 =
           (mkSocket conn2 true (activeProvider w)
              (waiting w
               ++ [first;
                   AwaitsRecognition Interim (activeProvider w) (audioBuffer conn2)
                     (speechLanguage (entry w))]),
            [Pipeline (Transcribe (audioBuffer conn2) (speechLanguage (entry w)))])).
Proof.
  intros C L now clock audioData w Hlisted Hon Hframe conn1.
  split; [|split].
  - exact (shouldDispatch_spec now conn1).
  - intro Hwait. cbn [step arrive]. rewrite Hlisted.
    rewrite (receiveAudioData_appends C now clock (activeProvider w) audioData (entry w)
               Hon Hframe Hwait).
    cbn. fold conn1. now rewrite Hlisted, app_nil_r.
  - intros Hgo samples Hview Hsound first w1. split.
    + cbn [step arrive]. rewrite Hlisted.
      rewrite (receiveAudioData_dispatches C now clock (activeProvider w) audioData (entry w)
                 samples Hon Hframe Hview Hsound Hgo).
      cbn. now rewrite Hlisted.
    + intros later clock' audioData' Hlater Hframe' conn2.
      cbn [step arrive listed w1 entry activeProvider].
      assert (Hview1 : Buffer.int16Array (audioBuffer conn1) = Returns (samples ++ audioData)).
      { apply int16Array_app; [exact Hview | now apply int16Array_of_samples]. }
      assert (Hagain : shouldDispatch later conn2 = true).
      { apply shouldDispatch_spec in Hgo as [Hsize Htime].
        apply shouldDispatch_spec. split.
        - unfold conn2. cbn [audioBuffer setAudioBuffer]. rewrite byteLength_app.
          assert (0 <= Buffer.byteLength (flat_map Buffer.int16LE audioData'))%Z
            by (unfold Buffer.byteLength; lia).
          lia.
        - change (lastTranscriptionTime conn2) with (lastTranscriptionTime (entry w)).
          change (lastTranscriptionTime conn1) with (lastTranscriptionTime (entry w)) in Htime.
          lia. }
      rewrite (receiveAudioData_dispatches C later clock' (activeProvider w) audioData' conn1
                 (samples ++ audioData) Hon Hframe' Hview1
                 ltac:(rewrite hasSound_app, Hsound; reflexivity) Hagain).
      cbn. now rewrite <- (app_assoc (waiting w)).
Qed.

Lemma dispatch_does_not_wait_for_the_pending_call_witness :
  let w := mkSocket (Samples.session [] "" "") true SttProviders.GOOGLE_SPEECH [] in
  let conn1 :=
    setAudioBuffer (audioBuffer (entry w) ++ flat_map Buffer.int16LE (Samples.tone 1000))
      (entry w) in
  let first :=
    AwaitsRecognition Interim (activeProvider w) (audioBuffer conn1)
      (speechLanguage (entry w)) in
  let w1 := mkSocket conn1 true (activeProvider w) (waiting w ++ [first]) in
  let conn2 :=
    setAudioBuffer (audioBuffer conn1 ++ flat_map Buffer.int16LE [7; 8]%Z) conn1 in
  step Samples.helloCollaborators Samples.anyLanguages
    (Arrives (AudioData 6999 Samples.runClock (Samples.tone 1000))) w =
    (w1, [Pipeline (Transcribe (audioBuffer conn1) (speechLanguage (entry w)))]) /\
  step Samples.helloCollaborators Samples.anyLanguages
    (Arrives (AudioData 7005 Samples.laterRunClock [7; 8]%Z)) w1 =
    (mkSocket conn2 true (activeProvider w)
       (waiting w
        ++ [first;
            AwaitsRecognition Interim (activeProvider w) (audioBuffer conn2)
              (speechLanguage (entry w))]),
     [Pipeline (Transcribe (audioBuffer conn2) (speechLanguage (entry w)))]).
Proof.
  cbv zeta.
  assert (Hframe : forallb Buffer.isInt16 (Samples.tone 1000) = true)
    by (vm_compute; reflexivity).
  assert (Hgo : shouldDispatch 6999
                  (setAudioBuffer
                     (audioBuffer (Samples.session [] "" "")
                      ++ flat_map Buffer.int16LE (Samples.tone 1000))
                     (Samples.session [] "" "")) = true)
    by (vm_compute; reflexivity).
  assert (Hsound : hasSound ([] ++ Samples.tone 1000) = true) by (vm_compute; reflexivity).
  destruct (proj2 (proj2 (dispatch_does_not_wait_for_the_pending_call
                            Samples.helloCollaborators Samples.anyLanguages 6999%Z
                            Samples.runClock (Samples.tone 1000)
                            (mkSocket (Samples.session [] "" "") true
                               SttProviders.GOOGLE_SPEECH [])
                            eq_refl eq_refl Hframe))
              Hgo [] eq_refl Hsound) as [Hfirst Hsecond].
  split; [exact Hfirst|].
  exact (Hsecond 7005%Z Samples.laterRunClock [7; 8]%Z ltac:(lia) eq_refl).
Defined.

(** *** A translation that was sent before *)




(** *** Duplicates *)

Section Duplicates.

Variable C : Collaborators.









End Duplicates.




(** *** Runs that are not interrupted *)

Section Uninterrupted.

Variable C : Collaborators.


Lemma uninterrupted_end clock fuel conn effects :
  uninterrupted C clock fuel (conn, effects, None) = (conn, effects).
Proof. now destruct fuel. Qed.





End Uninterrupted.

(** *** Before the first result of a session *)

Section FirstResult.

Variable C : Collaborators.
Variable L : Languages.

(** A handler without [await] leaves the tracked texts of the entry, or
    empties both. *)
Lemma handle_texts input w :
  (forall now clock audioData, input <> AudioData now clock audioData) ->
  (forall clock, input <> StopTranscription clock) ->
  let w' := fst (afterHandler w (handle C L input (serverOf w))) in
  (lastTranscript (entry w') = lastTranscript (entry w) /\
   lastTranslation (entry w') = lastTranslation (entry w))
  \/ (lastTranscript (entry w') = "" /\ lastTranslation (entry w') = "").
Proof.
  intros Haudio Hstop. cbv zeta. unfold serverOf.
  destruct input; cbn [handle];
    try (exfalso; now eapply Haudio); try (exfalso; now eapply Hstop).
  - unfold onSetLanguages. cbn [clientConnection].
    destruct (listed w); [destruct config as [config|]|]; cbn; auto.
    destruct (accepted (isValidSpeechLanguage L) (configSpeechLanguage config)),
             (accepted (isValidTranslationLanguage L) (configTranslationFrom config)),
             (accepted (isValidTranslationLanguage L) (configTranslationTo config));
      cbn; auto.
  - unfold onSetSttProvider. cbn [currentProvider clientConnection].
    destruct (SttProviders.setSTTProvider provider (activeProvider w))
      as [[message|value] current];
      [|destruct (SttProviders.getProviderConfig current)];
      destruct (listed w); cbn; auto.
  - unfold onSetPunctuationPreferences. cbn [clientConnection].
    destruct (listed w); [destruct config as [config|]|]; cbn; auto.
    unfold applyIf. break_matches; cbn; auto.
  - unfold onStartTranscription. cbn [clientConnection].
    destruct (listed w); cbn; auto.
  - unfold onUnusableAudioData. cbn [clientConnection].
    destruct (listed w); [destruct (negb (isTranscribing (entry w)))|]; cbn; auto.
  - cbn. auto.
Qed.

(** A piece that follows an [await] on an entry with no last translation
    leaves the tracked texts, or emits a result. *)
Lemma resume_texts clock run conn :
  lastTranslation conn = "" ->
  let piece := resume C clock run conn in
  (lastTranscript (fst (fst piece)) = lastTranscript conn /\
   lastTranslation (fst (fst piece)) = lastTranslation conn)
  \/ exists r, In (Emit (transcription_result r)) (snd (fst piece)).
Proof.
  intro Hnone. cbv zeta.
  assert (Hfinish : forall kind result pt ptr,
             (lastTranscript (fst (fst (finish clock kind result pt ptr conn)))
              = lastTranscript conn /\
              lastTranslation (fst (fst (finish clock kind result pt ptr conn)))
              = lastTranslation conn)
             \/ exists r,
                 In (Emit (transcription_result r))
                   (snd (fst (finish clock kind result pt ptr conn)))).
  { intros kind result pt ptr. right. destruct kind; cbn [finish fst snd].
    - unfold isTranslationDifferent. rewrite Hnone. cbn. eexists. left. reflexivity.
    - eexists. left. reflexivity. }
  destruct run as [kind provider audio language | kind result text language style'
                  | kind result pt source target | kind result pt tt language style'];
    cbn [resume].
  - left. unfold afterRecognition, startTranslation. destruct kind; break_matches; auto.
  - left. unfold afterPunctuation, startTranslation. auto.
  - unfold afterTranslation.
    destruct (translateText C pt source target) as [message|reply]; [apply Hfinish|].
    destruct (match reply with
              | ReplyObject text failed =>
                  (orElse text pt, match kind with Interim => failed | Final => false end)
              | ReplyString text => (orElse text pt, false)
              | ReplyNull => (pt, false)
              end) as [translatedText translationFailed].
    destruct (truthy translatedText && negb (translatedText =? pt)%string
              && negb translationFailed && aiPunctuationEnabled conn);
      [left; auto | apply Hfinish].
  - unfold afterTranslationPunctuation. apply Hfinish.
Qed.

Lemma step_texts action w :
  lastTranscript (entry w) = "" ->
  lastTranslation (entry w) = "" ->
  let w' := fst (step C L action w) in
  (lastTranscript (entry w') = "" /\ lastTranslation (entry w') = "")
  \/ exists r, In (Pipeline (Emit (transcription_result r))) (snd (step C L action w)).
Proof.
  intros Hscript Hlation. cbv zeta.
  assert (Hhandler : forall input,
             (forall now clock audioData, input <> AudioData now clock audioData) ->
             (forall clock, input <> StopTranscription clock) ->
             lastTranscript (entry (fst (afterHandler w (handle C L input (serverOf w)))))
             = "" /\
             lastTranslation (entry (fst (afterHandler w (handle C L input (serverOf w)))))
             = "").
  { intros input Haudio Hstop.
    destruct (handle_texts input w Haudio Hstop) as [[-> ->] | H]; auto. }
  destruct action as [input | index clock]; cbn [step].
  - destruct input; try (left; apply Hhandler; intros; discriminate); cbn [arrive].
    + left. destruct (listed w); [|auto].
      destruct (after_entry w (receiveAudioData C now clock (activeProvider w) audioData
                                 (entry w))) as (-> & _).
      destruct (receiveAudioData_frame C now clock (activeProvider w) audioData (entry w))
        as [-> _].
      cbn. auto.
    + left. destruct (listed w); [|auto].
      destruct (after_entry w (receiveStop (activeProvider w) (entry w))) as (-> & _).
      destruct (receiveStop_frame (activeProvider w) (entry w)) as [-> _].
      cbn. auto.
  - unfold resolve. destruct (nth_error (waiting w) index) as [run|]; [|left; auto].
    match goal with
    | |- context [after ?w0 ?piece] =>
        destruct (after_entry w0 piece) as (-> & _ & _ & ->)
    end.
    cbn [entry].
    destruct (resume_texts clock run (entry w) Hlation) as [[-> ->] | [r Hin]];
      [left; auto | right].
    exists r. now apply (in_map Pipeline) in Hin.
Qed.

Lemma schedule_texts actions : forall w,
  lastTranscript (entry w) = "" ->
  lastTranslation (entry w) = "" ->
  let w' := fst (schedule C L actions w) in
  (lastTranscript (entry w') = "" /\ lastTranslation (entry w') = "")
  \/ exists r, In (Pipeline (Emit (transcription_result r))) (snd (schedule C L actions w)).
Proof.
  induction actions as [|action rest IH]; intros w Hscript Hlation; cbn [schedule];
    [left; auto|].
  pose proof (step_texts action w Hscript Hlation) as Hstep.
  destruct (step C L action w) as [w1 outputs1]. cbn [fst snd] in Hstep.
  destruct Hstep as [[Hscript1 Hlation1] | [r Hin]].
  - pose proof (IH w1 Hscript1 Hlation1) as Hrest.
    destruct (schedule C L rest w1) as [w2 outputs2]. cbn [fst snd] in *.
    destruct Hrest as [Hempty | [r Hin]]; [now left | right].
    exists r. apply in_or_app. now right.
  - destruct (schedule C L rest w1) as [w2 outputs2]. cbn [fst snd].
    right. exists r. apply in_or_app. now left.
Qed.

End FirstResult.

(** X18. Before the first result of a session. [start-transcription] empties
    the two tracked texts, and from then on, whatever arrives and in whatever
    order the awaited calls resolve, they stay empty until a
    [transcription-result] has been emitted. So the first run of the session
    that gets as far as the checks is not held back by them: with no last
    transcript every text counts as different, and with no last translation
    every translation is sent. *)
Theorem tracked_texts_stay_empty_until_a_result :
  forall C L now actions w,
    listed w = true ->
    let started := fst (step C L (Arrives (StartTranscription now)) w) in
    let after := schedule C L actions started in
    (lastTranscript (entry started) = "" /\ lastTranslation (entry started) = "") /\
    ((lastTranscript (entry (fst after)) = "" /\ lastTranslation (entry (fst after)) = "")
     \/ exists r, In (Pipeline (Emit (transcription_result r))) (snd after)) /\
    (forall rawTranscript, isSignificantlyDifferent rawTranscript "" = true) /\
    (forall punctuatedTranslation, isTranslationDifferent punctuatedTranslation "" = true).
Proof.
  intros C L now actions w Hlisted. cbv zeta.
  assert (Hstart : lastTranscript
                     (entry (fst (step C L (Arrives (StartTranscription now)) w))) = "" /\
                   lastTranslation
                     (entry (fst (step C L (Arrives (StartTranscription now)) w))) = "").
  { cbn [step arrive handle]. unfold serverOf, onStartTranscription. rewrite Hlisted.
    cbn. auto. }
  split; [exact Hstart|]. split; [|split; reflexivity].
  destruct Hstart as [Hscript Hlation].
  exact (schedule_texts C L actions _ Hscript Hlation).
Qed.

Lemma tracked_texts_stay_empty_until_a_result_witness :
  let run :=
    AwaitsTranslationPunctuation Interim Samples.helloResult "hello world" "<hello world>"
      "en" "formal" in
  let w :=
    mkSocket (Samples.session [1; 0; 2; 0]%Z "hello world" "<hello world>") true
      SttProviders.GOOGLE_SPEECH [run] in
  let started :=
    fst (step Samples.helloCollaborators Samples.anyLanguages
           (Arrives (StartTranscription 5000)) w) in
  let after :=
    schedule Samples.helloCollaborators Samples.anyLanguages
      [Resolves 0 Samples.runClock] started in
  (lastTranscript (entry started) = "" /\ lastTranslation (entry started) = "") /\
  ((lastTranscript (entry (fst after)) = "" /\ lastTranslation (entry (fst after)) = "")
   \/ exists r, In (Pipeline (Emit (transcription_result r))) (snd after)) /\
  (forall rawTranscript, isSignificantlyDifferent rawTranscript "" = true) /\
  (forall punctuatedTranslation, isTranslationDifferent punctuatedTranslation "" = true).
Proof.
  exact (tracked_texts_stay_empty_until_a_result Samples.helloCollaborators
           Samples.anyLanguages 5000%Z [Resolves 0 Samples.runClock]
           (mkSocket (Samples.session [1; 0; 2; 0]%Z "hello world" "<hello world>") true
              SttProviders.GOOGLE_SPEECH
              [AwaitsTranslationPunctuation Interim Samples.helloResult "hello world"
                 "<hello world>" "en" "formal"])
           eq_refl).
Defined.


End InterleavingFacts.
